(** * Lead ingestion and lead search: a shallow embedding of the handlers

    The repository holds three HTTP handlers:
    - [api/submit.js]: the ingestion fan-out (document builder, storage key,
      S3 / DynamoDB / SES / CRM sinks, terminal response);
    - the lead search handler (DynamoDB index selection, pagination token);
    - the lead list handler (S3 enumeration behind the admin key).

    Conventions of the embedding.
    - A JavaScript string is a Rocq [string] holding the UTF-8 bytes of the
      text.  ASCII text is one byte per UTF-16 code unit; a surrogate that
      stands alone is held as the three bytes of its value.  Letter case is
      tabulated for the ASCII letters only ([toLowerCase] leaves every other
      byte as it is), so what is stated about the case of a text is stated
      for ASCII texts.
    - A JavaScript number is an exact decimal [m / 10^scale]: the embedding
      keeps the decimal value of a literal where the runtime rounds it to the
      nearest double.  The two agree on the integers that a double holds
      exactly, and what is stated about a number read from a text is stated
      for those.  NaN and the infinities do not occur in JSON.
    - A JSON object is an association list kept in the runtime's property
      order (array-index keys first, ascending, then the other keys in
      insertion order).
    - An expression that may throw evaluates to an [outcome]; a handler runs
      in [io], which threads the list of calls sent to the outside world and
      the exception status.  What the outside world answers is an input
      (the [World] record). *)

From Stdlib Require Import String Ascii List ZArith NArith Bool Arith Lia.
From Stdlib Require Import DecimalString DecimalZ DecimalPos DecimalNat.
From Stdlib Require Import Sorted Permutation.
Import ListNotations.
Local Open Scope list_scope.
Local Open Scope string_scope.

Set Implicit Arguments.
Set Warnings "-register-all".

(* ===================================================================== *)
(** ** Exceptions *)
(* ===================================================================== *)

Inductive outcome (A : Type) : Type :=
| Ok (a : A)
| Raise.
Arguments Ok {A} a.
Arguments Raise {A}.

Definition obind {A B} (m : outcome A) (f : A -> outcome B) : outcome B :=
  match m with
  | Ok a => f a
  | Raise => Raise
  end.

Declare Scope js_scope.
Delimit Scope js_scope with js.
Notation "x <- m ;; k" := (obind m (fun x => k))
  (at level 61, m at next level, right associativity) : js_scope.

(* ===================================================================== *)
(** ** Text *)
(* ===================================================================== *)

Module Text.

Definition code (c : ascii) : nat := nat_of_ascii c.

Definition between (lo hi : nat) (c : ascii) : bool :=
  (lo <=? code c)%nat && (code c <=? hi)%nat.

Definition is_digit (c : ascii) : bool := between 48 57 c.
Definition is_upper (c : ascii) : bool := between 65 90 c.
Definition is_lower (c : ascii) : bool := between 97 122 c.

(** The character class [a-z0-9] of the slug regex. *)
Definition is_lower_alnum (c : ascii) : bool := is_lower c || is_digit c.

Definition lower_char (c : ascii) : ascii :=
  if is_upper c then ascii_of_nat (code c + 32) else c.

(** [s.toLowerCase()] on ASCII text: the letters A-Z are mapped and every
    other byte is kept.  The runtime also maps letters outside ASCII (and
    maps two of them, U+212A and U+0130, to ASCII letters), so a statement
    that depends on the case of a text is made for ASCII texts
    ([is_ascii]). *)
Fixpoint toLowerCase (s : string) : string :=
  match s with
  | EmptyString => EmptyString
  | String c r => String (lower_char c) (toLowerCase r)
  end.

(** A text of ASCII characters only. *)
Fixpoint is_ascii (s : string) : bool :=
  match s with
  | EmptyString => true
  | String c r => (code c <? 128)%nat && is_ascii r
  end.

Fixpoint rev_onto (s acc : string) : string :=
  match s with
  | EmptyString => acc
  | String c r => rev_onto r (String c acc)
  end.

Definition rev (s : string) : string := rev_onto s EmptyString.

Fixpoint drop (n : nat) (s : string) : string :=
  match n, s with
  | O, _ => s
  | S n', EmptyString => EmptyString
  | S n', String _ r => drop n' r
  end.

(** [s.slice(0, n)] for [0 <= n]. *)
Fixpoint take (n : nat) (s : string) : string :=
  match n, s with
  | O, _ => EmptyString
  | S n', EmptyString => EmptyString
  | S n', String c r => String c (take n' r)
  end.

Fixpoint starts_with (p s : string) : bool :=
  match p, s with
  | EmptyString, _ => true
  | String a p', String b s' => Ascii.eqb a b && starts_with p' s'
  | String _ _, EmptyString => false
  end.

Definition ends_with (p s : string) : bool := starts_with (rev p) (rev s).

Definition bytes (l : list nat) : string :=
  string_of_list_ascii (map ascii_of_nat l).

(** The UTF-8 encodings of the code points that [String.prototype.trim]
    removes: WhiteSpace and LineTerminator of ECMA-262. *)
Definition white_space : list string :=
  [ bytes [9]; bytes [10]; bytes [11]; bytes [12]; bytes [13]; bytes [32];
    bytes [194; 160];
    bytes [225; 154; 128];
    bytes [226; 128; 128]; bytes [226; 128; 129]; bytes [226; 128; 130];
    bytes [226; 128; 131]; bytes [226; 128; 132]; bytes [226; 128; 133];
    bytes [226; 128; 134]; bytes [226; 128; 135]; bytes [226; 128; 136];
    bytes [226; 128; 137]; bytes [226; 128; 138];
    bytes [226; 128; 168]; bytes [226; 128; 169]; bytes [226; 128; 175];
    bytes [226; 129; 159];
    bytes [227; 128; 128];
    bytes [239; 187; 191] ].

(** Removes one leading item of [seqs] from [s], if there is one. *)
Fixpoint strip_one (seqs : list string) (s : string) : option string :=
  match seqs with
  | [] => None
  | w :: ws =>
      if starts_with w s then Some (drop (String.length w) s)
      else strip_one ws s
  end.

Fixpoint strip_many (fuel : nat) (seqs : list string) (s : string) : string :=
  match fuel with
  | O => s
  | S fuel' =>
      match strip_one seqs s with
      | Some s' => strip_many fuel' seqs s'
      | None => s
      end
  end.

Definition trimStart (s : string) : string :=
  strip_many (String.length s) white_space s.

Definition trimEnd (s : string) : string :=
  rev (strip_many (String.length s) (map rev white_space) (rev s)).

Definition trim (s : string) : string := trimEnd (trimStart s).

(** [s.replace(/[^a-z0-9]+/g, '-')]: [run] tells whether the previous
    character already belongs to the run being replaced. *)
Fixpoint collapse_from (run : bool) (s : string) : string :=
  match s with
  | EmptyString => EmptyString
  | String c r =>
      if is_lower_alnum c then String c (collapse_from false r)
      else if run then collapse_from true r
      else String "-" (collapse_from true r)
  end.

Definition collapse (s : string) : string := collapse_from false s.

Definition strip_leading_hyphen (s : string) : string :=
  match s with
  | String "-" r => r
  | _ => s
  end.

Definition strip_trailing_hyphen (s : string) : string :=
  rev (strip_leading_hyphen (rev s)).

(** [s.replace(/(^-|-$)/g, '')]: the scan removes a hyphen at the start, then
    a hyphen at the end of what is left of the subject. *)
Definition strip_hyphens (s : string) : string :=
  strip_trailing_hyphen (strip_leading_hyphen s).

(** Decimal rendering of an integer, as [Number.prototype.toString] gives it
    below 1e21. *)
Definition string_of_Z (n : Z) : string := NilZero.string_of_int (Z.to_int n).

Definition digits_of (n : Z) : string := string_of_Z (Z.abs n).

Fixpoint zeros (n : nat) : string :=
  match n with
  | O => ""
  | S n' => String "0" (zeros n')
  end.

(** Drops the factors of ten that a decimal [m / 10^scale] can lose. *)
Fixpoint normalize (m : Z) (scale : nat) : Z * nat :=
  match scale with
  | O => (m, O)
  | S scale' =>
      if (m mod 10 =? 0)%Z then normalize (m / 10) scale' else (m, scale)
  end.

Fixpoint strip_zeros (fuel : nat) (m : Z) (dropped : nat) : Z * nat :=
  match fuel with
  | O => (m, dropped)
  | S fuel' =>
      if (m mod 10 =? 0)%Z then strip_zeros fuel' (m / 10) (S dropped)
      else (m, dropped)
  end.

(** Number::toString of ECMA-262 for the decimal [m / 10^scale]: with [s]
    the digits without trailing zeros, [k] their count and [n] the position
    of the decimal point, the value is [s * 10^(n-k)]. *)
Definition general_number_to_string (m : Z) (scale : nat) : string :=
  let sign := if (m <? 0)%Z then "-" else "" in
  let all := digits_of m in
  let '(s0, dropped) := strip_zeros (String.length all) (Z.abs m) 0 in
  let s := string_of_Z s0 in
  let k := Z.of_nat (String.length s) in
  let n := (k + Z.of_nat dropped - Z.of_nat scale)%Z in
  let e := (n - 1)%Z in
  let exponent :=
    "e" ++ (if (e <? 0)%Z then "-" else "+") ++ string_of_Z (Z.abs e) in
  sign ++
  (if ((k <=? n) && (n <=? 21))%Z%bool then s ++ zeros (Z.to_nat (n - k))
   else if ((0 <? n) && (n <=? 21))%Z%bool
   then take (Z.to_nat n) s ++ "." ++ drop (Z.to_nat n) s
   else if ((-6 <? n) && (n <=? 0))%Z%bool
   then "0." ++ zeros (Z.to_nat (- n)) ++ s
   else if (k =? 1)%Z then s ++ exponent
   else take 1 s ++ "." ++ drop 1 s ++ exponent).

(** An integer below 1e21 prints as its decimal digits (the case
    [k <= n <= 21] of the general rule, where the zeros that [s] lost come
    back). *)
Definition number_to_string (m : Z) (scale : nat) : string :=
  match scale with
  | O =>
      if (Z.abs m <? 10 ^ 21)%Z then string_of_Z m
      else general_number_to_string m scale
  | S _ =>
      if (m =? 0)%Z then "0" else general_number_to_string m scale
  end.

Fixpoint join (sep : string) (l : list string) : string :=
  match l with
  | [] => ""
  | [x] => x
  | x :: rest => x ++ sep ++ join sep rest
  end.

(** [text ' turned into the double quote], to write JSON text readably. *)
Definition dq : ascii := ascii_of_nat 34.

Fixpoint quoted (s : string) : string :=
  match s with
  | EmptyString => EmptyString
  | String c r => String (if Ascii.eqb c "'" then dq else c) (quoted r)
  end.

End Text.


(* ===================================================================== *)
(** ** JavaScript values *)
(* ===================================================================== *)

Module Js.
Import Text.
Local Open Scope js_scope.

(** The values a handler meets: what [JSON.parse] builds, and [undefined]. *)
Inductive value : Type :=
| VUndef
| VNull
| VBool (b : bool)
| VNum (m : Z) (scale : nat)
| VStr (s : string)
| VArr (xs : list value)
| VObj (ps : list (string * value)).

Definition props : Type := list (string * value).

(** ToBoolean. *)
Definition truthy (v : value) : bool :=
  match v with
  | VUndef | VNull => false
  | VBool b => b
  | VNum m _ => negb (m =? 0)%Z
  | VStr s => negb (s =? "")
  | VArr _ | VObj _ => true
  end.

(** [a && b] and [a || b]: the right operand is only used, and so can only
    throw, when the left one does not decide. *)
Definition land (a b : outcome value) : outcome value :=
  v <- a ;; if truthy v then b else Ok v.

Definition lor (a b : outcome value) : outcome value :=
  v <- a ;; if truthy v then Ok v else b.

(** [c ? a : b]. *)
Definition cond (c a b : outcome value) : outcome value :=
  v <- c ;; if truthy v then a else b.

Definition is_string (v : value) : bool :=
  match v with
  | VStr _ => true
  | _ => false
  end.

(** [typeof e === 'string']. *)
Definition typeof_string (e : outcome value) : outcome value :=
  v <- e ;; Ok (VBool (is_string v)).

(** *** Property keys *)

Fixpoint digits_value (acc : N) (s : string) : option N :=
  match s with
  | EmptyString => Some acc
  | String c r =>
      if is_digit c
      then digits_value (acc * 10 + N.of_nat (code c - 48)) r
      else None
  end.

(** An array index: a canonical numeric string whose value is at most
    2^32 - 2.  Own property keys that are array indices come first, in
    ascending order. *)
Definition array_index (k : string) : option N :=
  match k with
  | EmptyString => None
  | String c r =>
      if (Ascii.eqb c "0" && negb (r =? ""))%bool then None
      else if (10 <? String.length k)%nat then None
      else match digits_value 0 k with
           | Some n => if (n <=? 4294967294)%N then Some n else None
           | None => None
           end
  end.

Fixpoint lookup (k : string) (ps : props) : option value :=
  match ps with
  | [] => None
  | (k', v) :: rest => if k' =? k then Some v else lookup k rest
  end.

Definition has_key (k : string) (ps : props) : bool :=
  match lookup k ps with
  | Some _ => true
  | None => false
  end.

Fixpoint replace (k : string) (v : value) (ps : props) : props :=
  match ps with
  | [] => []
  | (k', v') :: rest =>
      if k' =? k then (k', v) :: rest else (k', v') :: replace k v rest
  end.

Fixpoint insert_index (i : N) (k : string) (v : value) (ps : props) : props :=
  match ps with
  | [] => [(k, v)]
  | (k', v') :: rest =>
      match array_index k' with
      | Some j =>
          if (j <? i)%N then (k', v') :: insert_index i k v rest
          else (k, v) :: ps
      | None => (k, v) :: ps
      end
  end.

(** CreateDataProperty on an ordinary object: an existing key keeps its
    place and takes the new value; a new array index goes to its place
    among the indices; any other new key goes last. *)
Definition obj_set (k : string) (v : value) (ps : props) : props :=
  if has_key k ps then replace k v ps
  else match array_index k with
       | Some i => insert_index i k v ps
       | None => (ps ++ [(k, v)])%list
       end.

(** An object literal [{ k1: v1, ..., kn: vn }]. *)
Definition literal (fields : props) : props :=
  fold_left (fun acc kv => obj_set (fst kv) (snd kv) acc) fields [].

Definition index_key (i : nat) : string := string_of_Z (Z.of_nat i).

Fixpoint indexed {A} (i : nat) (l : list A) : list (string * A) :=
  match l with
  | [] => []
  | x :: r => (index_key i, x) :: indexed (S i) r
  end.

(** The characters of a text: a byte 10xxxxxx continues the character
    before it. *)
Fixpoint chars_from (cur : string) (s : string) : list string :=
  match s with
  | EmptyString => match cur with EmptyString => [] | _ => [rev cur] end
  | String c r =>
      if between 128 191 c then chars_from (String c cur) r
      else match cur with
           | EmptyString => chars_from (String c EmptyString) r
           | _ => rev cur :: chars_from (String c EmptyString) r
           end
  end.

(** A UTF-16 code unit [u] in the range of the surrogates, alone: the
    three bytes 1110xxxx 10xxxxxx 10xxxxxx of its value. *)
Definition surrogate (u : N) : string :=
  bytes (map N.to_nat
           [224 + u / 4096; 128 + (u / 64) mod 64; 128 + u mod 64])%N.

(** The code units of one character: a character outside the Basic
    Multilingual Plane (four bytes) is a pair of surrogates, any other
    character is one unit. *)
Definition code_units (c : string) : list string :=
  match c with
  | String b0 (String b1 (String b2 (String b3 EmptyString))) =>
      if between 240 247 b0 then
        let low (b : ascii) (n : N) : N := (N.of_nat (code b) mod n)%N in
        let cp := (low b0 8 * 262144 + low b1 64 * 4096
                   + low b2 64 * 64 + low b3 64)%N in
        [ surrogate (55296 + (cp - 65536) / 1024)%N;
          surrogate (56320 + (cp - 65536) mod 1024)%N ]
      else [c]
  | _ => [c]
  end.

(** The items that the runtime indexes in a string: its UTF-16 code
    units. *)
Definition chars (s : string) : list string :=
  flat_map code_units (chars_from EmptyString s).

(** The own enumerable properties that a spread [...v] copies. *)
Definition own_props (v : value) : props :=
  match v with
  | VObj ps => ps
  | VArr xs => indexed 0 xs
  | VStr s => indexed 0 (map VStr (chars s))
  | VUndef | VNull | VBool _ | VNum _ _ => []
  end.

(** [{ ...target, ...v }]: CopyDataProperties onto [target]. *)
Definition spread (v : value) (target : props) : props :=
  fold_left (fun acc kv => obj_set (fst kv) (snd kv) acc) (own_props v) target.

(** [v.k] for the property names the handlers read ([id], [status],
    [data], [source], ...): none of them is defined on a prototype, so a
    primitive yields [undefined]; [null] and [undefined] throw. *)
Definition member (v : value) (k : string) : outcome value :=
  match v with
  | VUndef | VNull => Raise
  | VObj ps =>
      Ok (match lookup k ps with Some x => x | None => VUndef end)
  | VArr xs =>
      Ok (match array_index k with
          | Some i => nth (N.to_nat i) xs VUndef
          | None =>
              if k =? "length" then VNum (Z.of_nat (List.length xs)) 0
              else VUndef
          end)
  | VStr _ | VNum _ _ | VBool _ => Ok VUndef
  end.

Definition dot (e : outcome value) (k : string) : outcome value :=
  v <- e ;; member v k.

(** ToString.  A plain object with an own [toString] property has no
    callable conversion left ([Object.prototype.valueOf] returns the object
    itself): TypeError.  An array joins its elements, [null] and
    [undefined] counting as empty. *)
Fixpoint to_string (v : value) : outcome string :=
  match v with
  | VUndef => Ok "undefined"
  | VNull => Ok "null"
  | VBool true => Ok "true"
  | VBool false => Ok "false"
  | VNum m scale => Ok (number_to_string m scale)
  | VStr s => Ok s
  | VArr xs =>
      ss <- (fix elems (l : list value) : outcome (list string) :=
               match l with
               | [] => Ok []
               | x :: r =>
                   s <- match x with
                        | VUndef | VNull => Ok ""
                        | _ => to_string x
                        end ;;
                   rest <- elems r ;;
                   Ok (s :: rest)
               end) xs ;;
      Ok (join "," ss)
  | VObj ps => if has_key "toString" ps then Raise else Ok "[object Object]"
  end.

(** [String(e)]. *)
Definition String_ (e : outcome value) : outcome value :=
  v <- e ;; s <- to_string v ;; Ok (VStr s).

(** [e.toLowerCase()]: a method of strings only. *)
Definition lower (e : outcome value) : outcome value :=
  v <- e ;;
  match v with
  | VStr s => Ok (VStr (toLowerCase s))
  | _ => Raise
  end.

(** [process.env.X], a header, a query parameter: a string or nothing. *)
Definition opt (o : option string) : value :=
  match o with
  | Some s => VStr s
  | None => VUndef
  end.

Definition set (o : option string) : bool := truthy (opt o).

Definition or_default (o : option string) (d : string) : string :=
  match o with
  | Some s => if s =? "" then d else s
  | None => d
  end.

End Js.

Notation "a &&& b" := (Js.land a b) (at level 40, left associativity) : js_scope.
Notation "a ||| b" := (Js.lor a b) (at level 50, left associativity) : js_scope.
Notation "e ~> k" := (Js.dot e k) (at level 20, left associativity) : js_scope.
Notation "$ v" := (Ok v) (at level 9, v at level 9) : js_scope.

(* ===================================================================== *)
(** ** JSON.stringify and JSON.parse *)
(* ===================================================================== *)

Module Json.
Import Text Js.

Definition hex_digit (n : nat) : ascii :=
  match String.get n "0123456789abcdef" with
  | Some c => c
  | None => "0"%char
  end.

Definition backslash : ascii := ascii_of_nat 92.
Definition newline : ascii := ascii_of_nat 10.

(** QuoteJSONString, one character at a time. *)
Definition escape_char (c : ascii) : string :=
  let n := code c in
  if (n =? 8)%nat then "\b"
  else if (n =? 9)%nat then "\t"
  else if (n =? 10)%nat then "\n"
  else if (n =? 12)%nat then "\f"
  else if (n =? 13)%nat then "\r"
  else if (n =? 34)%nat then String backslash (String dq "")
  else if (n =? 92)%nat then "\\"
  else if (n <? 32)%nat
  then "\u00" ++ String (hex_digit (n / 16)) (String (hex_digit (n mod 16)) "")
  else String c "".

Fixpoint escape (s : string) : string :=
  match s with
  | EmptyString => EmptyString
  | String c r => escape_char c ++ escape r
  end.

Definition quote (s : string) : string :=
  String dq (escape s ++ String dq "").

(** The brackets around the serialized parts of an array or an object. *)
Definition wrap (opening closing gap stepback indent : string)
    (parts : list string) : string :=
  match parts with
  | [] => opening ++ closing
  | _ =>
      if gap =? "" then opening ++ join "," parts ++ closing
      else
        opening ++ String newline indent
        ++ join ("," ++ String newline indent) parts
        ++ String newline stepback ++ closing
  end.

(** SerializeJSONProperty with the indentation unit [gap]; [None] is the
    [undefined] that drops a property and turns into [null] in an array. *)
Fixpoint ser (gap indent : string) (v : value) : option string :=
  match v with
  | VUndef => None
  | VNull => Some "null"
  | VBool true => Some "true"
  | VBool false => Some "false"
  | VNum m scale => Some (number_to_string m scale)
  | VStr s => Some (quote s)
  | VArr xs =>
      let inner := indent ++ gap in
      Some (wrap "[" "]" gap indent inner
              ((fix items (l : list value) : list string :=
                  match l with
                  | [] => []
                  | x :: r =>
                      match ser gap inner x with
                      | Some s => s
                      | None => "null"
                      end :: items r
                  end) xs))
  | VObj ps =>
      let inner := indent ++ gap in
      Some (wrap "{" "}" gap indent inner
              ((fix fields (l : props) : list string :=
                  match l with
                  | [] => []
                  | (k, x) :: r =>
                      match ser gap inner x with
                      | Some s =>
                          (quote k ++ ":" ++ (if gap =? "" then "" else " ")
                           ++ s) :: fields r
                      | None => fields r
                      end
                  end) ps))
  end.

(** [JSON.stringify(v)]. *)
Definition stringify (v : value) : option string := ser "" "" v.

(** [JSON.stringify(v, null, 2)]. *)
Definition stringify_pretty (v : value) : option string := ser "  " "" v.

(** *** Parsing *)

Definition is_ws (c : ascii) : bool :=
  let n := code c in
  ((n =? 32) || (n =? 9) || (n =? 10) || (n =? 13))%nat.

Fixpoint skip_ws (s : string) : string :=
  match s with
  | EmptyString => EmptyString
  | String c r => if is_ws c then skip_ws r else s
  end.

Definition hex_val (c : ascii) : option N :=
  if is_digit c then Some (N.of_nat (code c - 48))
  else if between 97 102 c then Some (N.of_nat (code c - 87))
  else if between 65 70 c then Some (N.of_nat (code c - 55))
  else None.

Definition hex4 (a b c d : ascii) : option N :=
  match hex_val a, hex_val b, hex_val c, hex_val d with
  | Some w, Some x, Some y, Some z =>
      Some (((w * 16 + x) * 16 + y) * 16 + z)%N
  | _, _, _, _ => None
  end.

Definition byte (n : N) : ascii := ascii_of_N n.

(** UTF-8 bytes of a code point; a surrogate that has no partner keeps the
    three-byte form. *)
Definition utf8_encode (n : N) : string :=
  (if n <? 128 then String (byte n) ""
   else if n <? 2048
   then String (byte (192 + n / 64)) (String (byte (128 + n mod 64)) "")
   else if n <? 65536
   then String (byte (224 + n / 4096))
          (String (byte (128 + (n / 64) mod 64))
             (String (byte (128 + n mod 64)) ""))
   else String (byte (240 + n / 262144))
          (String (byte (128 + (n / 4096) mod 64))
             (String (byte (128 + (n / 64) mod 64))
                (String (byte (128 + n mod 64)) ""))))%N.

Definition is_high_surrogate (n : N) : bool := ((55296 <=? n) && (n <=? 56319))%N.
Definition is_low_surrogate (n : N) : bool := ((56320 <=? n) && (n <=? 57343))%N.

Definition surrogate_pair (hi lo : N) : N :=
  (65536 + (hi - 55296) * 1024 + (lo - 56320))%N.

Definition simple_escape (e : ascii) : option ascii :=
  let n := code e in
  if (n =? 34)%nat then Some dq
  else if (n =? 92)%nat then Some backslash
  else if (n =? 47)%nat then Some "/"%char
  else if (n =? 98)%nat then Some (ascii_of_nat 8)
  else if (n =? 102)%nat then Some (ascii_of_nat 12)
  else if (n =? 110)%nat then Some (ascii_of_nat 10)
  else if (n =? 114)%nat then Some (ascii_of_nat 13)
  else if (n =? 116)%nat then Some (ascii_of_nat 9)
  else None.

(** The characters of a string literal after its opening quote; [acc]
    holds the text read so far, last character first. *)
Fixpoint string_body (s acc : string) : option (string * string) :=
  match s with
  | EmptyString => None
  | String c r =>
      if (code c =? 34)%nat then Some (rev acc, r)
      else if (code c =? 92)%nat then
        match r with
        | EmptyString => None
        | String e r1 =>
            match simple_escape e with
            | Some x => string_body r1 (String x acc)
            | None =>
                if (code e =? 117)%nat then
                  match r1 with
                  | String h1 (String h2 (String h3 (String h4 r2))) =>
                      match hex4 h1 h2 h3 h4 with
                      | None => None
                      | Some hi =>
                          let alone := string_body r2 (rev_onto (utf8_encode hi) acc) in
                          if is_high_surrogate hi then
                            match r2 with
                            | String b (String u (String l1 (String l2
                                (String l3 (String l4 r3))))) =>
                                if ((code b =? 92) && (code u =? 117))%nat
                                then
                                  match hex4 l1 l2 l3 l4 with
                                  | Some lo =>
                                      if is_low_surrogate lo
                                      then string_body r3
                                             (rev_onto
                                                (utf8_encode (surrogate_pair hi lo))
                                                acc)
                                      else alone
                                  | None => alone
                                  end
                                else alone
                            | _ => alone
                            end
                          else alone
                      end
                  | _ => None
                  end
                else None
            end
        end
      else if (code c <? 32)%nat then None
      else string_body r (String c acc)
  end.

Fixpoint span_digits (s : string) : string * string :=
  match s with
  | EmptyString => (EmptyString, EmptyString)
  | String c r =>
      if is_digit c
      then let (d, rest) := span_digits r in (String c d, rest)
      else (EmptyString, s)
  end.

Definition Z_of_digits (d : string) : Z :=
  match NilEmpty.uint_of_string d with
  | Some u => Z.of_uint u
  | None => 0%Z
  end.

(** The fraction of a number literal: its digits and what follows. *)
Definition fraction (s : string) : option (string * string) :=
  match s with
  | String "." r =>
      let (f, rest) := span_digits r in
      if f =? "" then None else Some (f, rest)
  | _ => Some (EmptyString, s)
  end.

(** The exponent of a number literal. *)
Definition exponent (s : string) : option (Z * string) :=
  match s with
  | String c r =>
      if ((code c =? 101) || (code c =? 69))%nat then
        let '(negative, r1) :=
          match r with
          | String "-" r' => (true, r')
          | String "+" r' => (false, r')
          | _ => (false, r)
          end in
        let (e, rest) := span_digits r1 in
        if e =? "" then None
        else Some ((if negative then - Z_of_digits e else Z_of_digits e)%Z, rest)
      else Some (0%Z, s)
  | EmptyString => Some (0%Z, s)
  end.

(** [s] without its first character, when that is [c]. *)
Definition eat (c : ascii) (s : string) : option string :=
  match s with
  | EmptyString => None
  | String a r => if Ascii.eqb a c then Some r else None
  end.

Definition head_is (c : ascii) (s : string) : bool :=
  match eat c s with
  | Some _ => true
  | None => false
  end.

(** A number literal after its sign: the integer part (a single zero, or
    digits that do not start with zero), an optional fraction and an
    optional exponent.  The value is the decimal that the literal writes;
    the runtime's value is the double nearest to it, which is the same
    number for the integers that a double holds exactly. *)
Definition unsigned_number (negative : bool) (s1 : string)
  : option (value * string) :=
  let (int, s2) := span_digits s1 in
  if int =? "" then None
  else if (starts_with "0" int && (1 <? String.length int)%nat)%bool then None
  else
    match fraction s2 with
    | None => None
    | Some (frac, s3) =>
        match exponent s3 with
        | None => None
        | Some (e, s4) =>
            let m0 := Z_of_digits (int ++ frac) in
            let m := (if negative then - m0 else m0)%Z in
            let e10 := (e - Z.of_nat (String.length frac))%Z in
            if (0 <=? e10)%Z then Some (VNum (m * 10 ^ e10) 0, s4)
            else
              let (m', scale) := normalize m (Z.to_nat (- e10)) in
              Some (VNum m' scale, s4)
        end
    end.

(** A number literal, with its optional minus sign. *)
Definition number (s : string) : option (value * string) :=
  match eat "-" s with
  | Some r => unsigned_number true r
  | None => unsigned_number false s
  end.

Definition keyword (w : string) (v : value) (s : string)
  : option (value * string) :=
  if starts_with w s then Some (v, drop (String.length w) s) else None.

(** A JSON value at the head of [s], and what follows it.  [fuel] bounds the
    number of nested and chained calls; a text never needs more than its
    length (see [parse]). *)
Fixpoint value_at (fuel : nat) (s : string) : option (value * string) :=
  match fuel with
  | O => None
  | S f =>
      let s := skip_ws s in
      if head_is "{" s then
        let r := skip_ws (drop 1 s) in
        match eat "}" r with
        | Some r' => Some (VObj [], r')
        | None => members f r []
        end
      else if head_is "[" s then
        let r := skip_ws (drop 1 s) in
        match eat "]" r with
        | Some r' => Some (VArr [], r')
        | None => elements f r []
        end
      else if head_is dq s then
        match string_body (drop 1 s) EmptyString with
        | Some (x, r') => Some (VStr x, r')
        | None => None
        end
      else if head_is "t" s then keyword "true" (VBool true) s
      else if head_is "f" s then keyword "false" (VBool false) s
      else if head_is "n" s then keyword "null" VNull s
      else number s
  end

with elements (fuel : nat) (s : string) (acc : list value)
  : option (value * string) :=
  match fuel with
  | O => None
  | S f =>
      match value_at f s with
      | None => None
      | Some (v, r) =>
          let r := skip_ws r in
          match eat "," r with
          | Some r' => elements f r' (v :: acc)
          | None =>
              match eat "]" r with
              | Some r' => Some (VArr (List.rev (v :: acc)), r')
              | None => None
              end
          end
      end
  end

with members (fuel : nat) (s : string) (acc : props)
  : option (value * string) :=
  match fuel with
  | O => None
  | S f =>
      match eat dq (skip_ws s) with
      | None => None
      | Some r =>
          match string_body r EmptyString with
          | None => None
          | Some (k, r1) =>
              match eat ":" (skip_ws r1) with
              | None => None
              | Some r2 =>
                  match value_at f r2 with
                  | None => None
                  | Some (v, r3) =>
                      let r3 := skip_ws r3 in
                      match eat "," r3 with
                      | Some r4 => members f r4 (obj_set k v acc)
                      | None =>
                          match eat "}" r3 with
                          | Some r4 => Some (VObj (obj_set k v acc), r4)
                          | None => None
                          end
                      end
                  end
              end
          end
      end
  end.

(** [JSON.parse(text)]: one value, then white space only; SyntaxError
    otherwise. *)
Definition parse (text : string) : outcome value :=
  match value_at (S (String.length text)) text with
  | Some (v, rest) =>
      match skip_ws rest with
      | EmptyString => Ok v
      | _ => Raise
      end
  | None => Raise
  end.

End Json.

(* ===================================================================== *)
(** ** Buffers: UTF-8 and base64 *)
(* ===================================================================== *)

Module Utf8.
Import Text.

(** U+FFFD, which replaces each maximal ill-formed run of bytes. *)
Definition replacement : string := bytes [239; 191; 189].

Definition continuation (c : ascii) : bool := between 128 191 c.

(** Bounds of the second byte after the lead byte [b0]. *)
Definition second_low (b0 : ascii) : nat :=
  if (code b0 =? 224)%nat then 160
  else if (code b0 =? 240)%nat then 144
  else 128.

Definition second_high (b0 : ascii) : nat :=
  if (code b0 =? 237)%nat then 159
  else if (code b0 =? 244)%nat then 143
  else 191.

(** [buf.toString('utf8')]: well-formed sequences pass, anything else
    becomes U+FFFD and decoding resumes at the byte that did not fit. *)
Fixpoint decode (s : string) : string :=
  match s with
  | EmptyString => EmptyString
  | String b0 t =>
      if (code b0 <? 128)%nat then String b0 (decode t)
      else if between 194 223 b0 then
        match t with
        | EmptyString => replacement
        | String b1 t1 =>
            if continuation b1 then String b0 (String b1 (decode t1))
            else replacement ++ decode t
        end
      else if between 224 239 b0 then
        match t with
        | EmptyString => replacement
        | String b1 t1 =>
            if between (second_low b0) (second_high b0) b1 then
              match t1 with
              | EmptyString => replacement
              | String b2 t2 =>
                  if continuation b2
                  then String b0 (String b1 (String b2 (decode t2)))
                  else replacement ++ decode t1
              end
            else replacement ++ decode t
        end
      else if between 240 244 b0 then
        match t with
        | EmptyString => replacement
        | String b1 t1 =>
            if between (second_low b0) (second_high b0) b1 then
              match t1 with
              | EmptyString => replacement
              | String b2 t2 =>
                  if continuation b2 then
                    match t2 with
                    | EmptyString => replacement
                    | String b3 t3 =>
                        if continuation b3
                        then String b0 (String b1 (String b2
                               (String b3 (decode t3))))
                        else replacement ++ decode t2
                    end
                  else replacement ++ decode t1
              end
            else replacement ++ decode t
        end
      else replacement ++ decode t
  end.

(** Well-formed UTF-8: the texts that are JavaScript strings without a
    lone surrogate. *)
Fixpoint well_formed (s : string) : bool :=
  match s with
  | EmptyString => true
  | String b0 t =>
      if (code b0 <? 128)%nat then well_formed t
      else if between 194 223 b0 then
        match t with
        | String b1 t1 => continuation b1 && well_formed t1
        | EmptyString => false
        end
      else if between 224 239 b0 then
        match t with
        | String b1 (String b2 t2) =>
            between (second_low b0) (second_high b0) b1
            && continuation b2 && well_formed t2
        | _ => false
        end
      else if between 240 244 b0 then
        match t with
        | String b1 (String b2 (String b3 t3)) =>
            between (second_low b0) (second_high b0) b1
            && continuation b2 && continuation b3 && well_formed t3
        | _ => false
        end
      else false
  end.

(** Well-formed texts, one character at a time. *)
Inductive chars : string -> Prop :=
| chars_nil : chars ""
| chars_one b0 r :
    (code b0 <? 128)%nat = true -> chars r -> chars (String b0 r)
| chars_two b0 b1 r :
    (code b0 <? 128)%nat = false ->
    between 194 223 b0 = true -> continuation b1 = true ->
    chars r -> chars (String b0 (String b1 r))
| chars_three b0 b1 b2 r :
    (code b0 <? 128)%nat = false ->
    between 194 223 b0 = false -> between 224 239 b0 = true ->
    between (second_low b0) (second_high b0) b1 = true ->
    continuation b2 = true ->
    chars r -> chars (String b0 (String b1 (String b2 r)))
| chars_four b0 b1 b2 b3 r :
    (code b0 <? 128)%nat = false ->
    between 194 223 b0 = false -> between 224 239 b0 = false ->
    between 240 244 b0 = true ->
    between (second_low b0) (second_high b0) b1 = true ->
    continuation b2 = true -> continuation b3 = true ->
    chars r -> chars (String b0 (String b1 (String b2 (String b3 r)))).

Definition ascii_only (s : string) : Prop :=
  forall c, In c (list_ascii_of_string s) -> (code c <? 128)%nat = true.

End Utf8.

Module Base64.
Import Text.

Definition alphabet : string :=
  "ABCDEFGHIJKLMNOPQRSTUVWXYZabcdefghijklmnopqrstuvwxyz0123456789+/".

Definition table (n : N) : ascii :=
  match String.get (N.to_nat n) alphabet with
  | Some c => c
  | None => "="%char
  end.

Definition pad : ascii := "="%char.

(** [buf.toString('base64')]: three bytes give four characters. *)
Fixpoint encode (s : string) : string :=
  match s with
  | EmptyString => EmptyString
  | String x EmptyString =>
      let a := N_of_ascii x in
      String (table (N.shiftr a 2))
        (String (table (N.shiftl (N.land a 3) 4))
           (String pad (String pad EmptyString)))
  | String x (String y EmptyString) =>
      let a := N_of_ascii x in
      let b := N_of_ascii y in
      String (table (N.shiftr a 2))
        (String (table (N.lor (N.shiftl (N.land a 3) 4) (N.shiftr b 4)))
           (String (table (N.shiftl (N.land b 15) 2))
              (String pad EmptyString)))
  | String x (String y (String z r)) =>
      let a := N_of_ascii x in
      let b := N_of_ascii y in
      let c := N_of_ascii z in
      String (table (N.shiftr a 2))
        (String (table (N.lor (N.shiftl (N.land a 3) 4) (N.shiftr b 4)))
           (String (table (N.lor (N.shiftl (N.land b 15) 2) (N.shiftr c 6)))
              (String (table (N.land c 63)) (encode r))))
  end.

(** The decoder's table: both the standard and the URL-safe alphabet. *)
Definition unbase64 (c : ascii) : option N :=
  let n := N_of_ascii c in
  (if is_upper c then Some (n - 65)
   else if is_lower c then Some (n - 71)
   else if is_digit c then Some (n + 4)
   else if (n =? 43) || (n =? 45) then Some 62
   else if (n =? 47) || (n =? 95) then Some 63
   else None)%N.

(** The legal characters up to the first [=]: the decoder skips every other
    character and stops at the padding. *)
Fixpoint sextets (s : string) : list N :=
  match s with
  | EmptyString => []
  | String c r =>
      if Ascii.eqb c pad then []
      else match unbase64 c with
           | Some n => n :: sextets r
           | None => sextets r
           end
  end.

Definition byte0 (hi lo : N) : ascii :=
  ascii_of_N (N.lor (N.shiftl (N.land hi 63) 2) (N.shiftr (N.land lo 48) 4)).
Definition byte1 (hi lo : N) : ascii :=
  ascii_of_N (N.lor (N.shiftl (N.land hi 15) 4) (N.shiftr (N.land lo 60) 2)).
Definition byte2 (hi lo : N) : ascii :=
  ascii_of_N (N.lor (N.shiftl (N.land hi 3) 6) (N.land lo 63)).

(** Four sextets give three bytes; a last group of three gives two bytes,
    of two gives one, and a single sextet gives nothing. *)
Fixpoint pack (l : list N) : string :=
  match l with
  | a :: b :: c :: d :: r =>
      String (byte0 a b) (String (byte1 b c) (String (byte2 c d) (pack r)))
  | [a; b; c] => String (byte0 a b) (String (byte1 b c) EmptyString)
  | [a; b] => String (byte0 a b) EmptyString
  | _ => EmptyString
  end.

(** [Buffer.from(s, 'base64')]. *)
Definition decode (s : string) : string := pack (sextets s).

End Base64.

(* ===================================================================== *)
(** ** The outside world *)
(* ===================================================================== *)

(** [process.env]. *)
Record Env : Type := {
  AWS_S3_BUCKET : option string;
  AWS_REGION : option string;
  AWS_S3_PREFIX : option string;
  DDB_TABLE : option string;
  DDB_REGION : option string;
  SES_TO : option string;
  SES_FROM : option string;
  SES_REGION : option string;
  HUBSPOT_TOKEN : option string;
  CLOSE_API_KEY : option string;
  ADMIN_TOKEN : option string
}.

(** A DynamoDB attribute value, as the SDK hands it back. *)
Inductive attribute : Type :=
| AttrS (s : string)
| AttrN (n : string)
| AttrBOOL (b : bool)
| AttrNULL
| AttrOther.

Definition item : Type := list (string * attribute).

(** The parameters of a QueryCommand. *)
Record QueryParams : Type := {
  TableName : string;
  IndexName : string;
  KeyConditionExpression : string;
  ExpressionAttributeValues : Js.props;
  ExpressionAttributeNames : Js.props;
  Limit : Z;
  FilterExpression : option string;
  ExclusiveStartKey : option Js.value
}.

Record QueryOutput : Type := {
  Items : option (list item);
  Count : option Z;
  LastEvaluatedKey : option Js.value
}.

(** An object of a bucket listing. *)
Record S3Object : Type := {
  Key : option string;
  LastModified : option Z
}.

(** What a handler sends out. *)
Inductive call : Type :=
| S3Put (region bucket key body : string)
| DdbPut (region table : string) (record : Js.props)
| SesSend (region recipient sender subject body : string)
| HttpPost (url : string) (headers : list (string * string)) (body : string)
| DdbQuery (region : string) (params : QueryParams)
| S3List (region bucket prefix : string) (max_keys : Z)
| S3Get (region bucket key : string).

(** What the outside world answers: whether a write is rejected, and what a
    read returns. *)
Record World : Type := {
  rejects : call -> bool;
  query_output : string -> QueryParams -> outcome QueryOutput;
  list_output : string -> string -> string -> outcome (option (list S3Object));
  object_text : string -> string -> string -> outcome string
}.

(** The runtime of one request: the clock, the random source and the
    globals that may be missing. *)
Record Runtime : Type := {
  now : string;                     (* [new Date().toISOString()] *)
  randomUUID : option string;       (* [crypto.randomUUID()], where it exists *)
  math_random : nat -> N;           (* the n-th [(Math.random() * 16) | 0] *)
  has_fetch : bool                  (* the global [fetch] *)
}.

(** How far the [require] calls at the top of [submit.js] got: they sit in
    one [try], so a failure leaves the later clients undefined. *)
Inductive sdk_load : Type :=
| NoSdk
| S3Only
| S3AndSes
| AllSdk.

Definition s3_loaded (l : sdk_load) : bool :=
  match l with NoSdk => false | _ => true end.
Definition ses_loaded (l : sdk_load) : bool :=
  match l with S3AndSes | AllSdk => true | _ => false end.
Definition ddb_loaded (l : sdk_load) : bool :=
  match l with AllSdk => true | _ => false end.

Record Response : Type := {
  statusCode : nat;
  body : option Js.value
}.

(** [json(res, status, body)]. *)
Definition json (status : nat) (fields : Js.props) : Response :=
  {| statusCode := status; body := Some (Js.VObj (Js.literal fields)) |}.

(** *** Handlers: exceptions and the calls sent so far *)

Definition io (A : Type) : Type := list call -> outcome A * list call.

Definition ret {A} (a : A) : io A := fun t => (Ok a, t).

Definition bind {A B} (m : io A) (f : A -> io B) : io B :=
  fun t =>
    match m t with
    | (Ok a, t') => f a t'
    | (Raise, t') => (Raise, t')
    end.

Definition lift {A} (o : outcome A) : io A := fun t => (o, t).

(** [try { m } catch { h }]. *)
Definition try_catch {A} (m h : io A) : io A :=
  fun t =>
    match m t with
    | (Ok a, t') => (Ok a, t')
    | (Raise, t') => h t'
    end.

(** [await client.send(command)] for a write, [await fetch(...)]. *)
Definition send (w : World) (c : call) : io unit :=
  fun t => (if rejects w c then Raise else Ok tt, (t ++ [c])%list).

(** [await client.send(command)] for a read: the answer is the world's. *)
Definition ask {A} (c : call) (answer : outcome A) : io A :=
  fun t => (answer, (t ++ [c])%list).

Declare Scope io_scope.
Delimit Scope io_scope with io.
Notation "x <~ m ;; k" := (bind m (fun x => k))
  (at level 61, m at next level, right associativity) : io_scope.
Notation "m ;;; k" := (bind m (fun _ => k))
  (at level 61, right associativity) : io_scope.

(* ===================================================================== *)
(** ** POST /submit  ([api/submit.js]) *)
(* ===================================================================== *)

Module Submit.
Import Text Js.
Local Open Scope js_scope.
Local Open Scope io_scope.

(** The request as the handler reads it.  [payload] is the variable of that
    name once the body-decoding block is through: the parsed body, or [{}]
    when there was nothing to decode. *)
Record Request : Type := {
  method : string;
  payload : value;
  x_forwarded_for : option string;
  remote_address : option string;
  user_agent : option string
}.

(** [v.toString(16)] for [0 <= v < 16]. *)
Definition hex (v : N) : ascii := Json.hex_digit (N.to_nat v).

(** The fallback of [uuid]: every [x] and [y] of the template takes the
    next random draw. *)
Fixpoint fill (template : string) (i : nat) (random : nat -> N) : string :=
  match template with
  | EmptyString => EmptyString
  | String c rest =>
      if Ascii.eqb c "x"
      then String (hex (random i)) (fill rest (S i) random)
      else if Ascii.eqb c "y"
      then String (hex (N.lor (N.land (random i) 3) 8)) (fill rest (S i) random)
      else String c (fill rest i random)
  end.

Definition uuid (rt : Runtime) : string :=
  match randomUUID rt with
  | Some u => u
  | None => fill "xxxxxxxx-xxxx-4xxx-yxxx-xxxxxxxxxxxx" 0 (math_random rt)
  end.

Definition slug (e : outcome value) (fallback : string) : outcome string :=
  val <- e ;;
  if negb (truthy val) then Ok fallback
  else
    text <- to_string val ;;
    let s := strip_hyphens (collapse (toLowerCase text)) in
    Ok (if s =? "" then fallback else s).

(** [a || b] on two optional strings. *)
Definition either (a b : option string) : option string :=
  if set a then a else b.

Definition text_of (o : option string) : string := or_default o "".

(** [status === 'final']. *)
Definition is_final (status : value) : bool :=
  match status with
  | VStr s => s =? "final"
  | _ => false
  end.

Definition client_id (payload : value) : outcome value :=
  ($payload &&& typeof_string ($payload ~> "id") &&& $payload ~> "id")
  ||| $VUndef.

Definition status_of (payload : value) : outcome value :=
  ($payload &&& typeof_string ($payload ~> "status")
   &&& lower ($payload ~> "status"))
  ||| $(VStr "final").

(** The document: the five server-side fields, then the payload spread
    over them. *)
Definition document (rt : Runtime) (req : Request) (id status : value) : props :=
  spread (payload req)
    (literal
       [ ("id", id);
         ("status", status);
         ("received_at", VStr (now rt));
         ("ip", VStr (text_of (either (x_forwarded_for req) (remote_address req))));
         ("user_agent", VStr (text_of (user_agent req))) ]).

(** [data = payload && payload.data ? payload.data : payload]. *)
Definition data_of (payload : value) : outcome value :=
  cond ($payload &&& $payload ~> "data") ($payload ~> "data") ($payload).

Definition storage_key (prefix statusPart datePart source utmSource industry id
  : string) : string :=
  prefix ++ "/" ++ statusPart ++ "/" ++ datePart ++ "/source=" ++ source
  ++ "/utm=" ++ utmSource ++ "/industry=" ++ industry ++ "/" ++ id ++ ".json".

(** The values that the S3 block slugifies. *)
Definition status_segment (status : value) : outcome value :=
  $status ||| $(VStr "final").

Definition source_segment (payload : value) : outcome value :=
  ($payload &&& ($payload ~> "source"
                 ||| ($payload ~> "data" &&& $payload ~> "data" ~> "source")))
  ||| $(VStr "web").

Definition industry_segment (payload : value) : outcome value :=
  ($payload &&& $payload ~> "data" &&& $payload ~> "data" ~> "industry")
  ||| $(VStr "na").

Definition utm_segment (payload : value) : outcome value :=
  ($payload &&& $payload ~> "data" &&& $payload ~> "data" ~> "utm_data"
   &&& $payload ~> "data" ~> "utm_data" ~> "utm_source")
  ||| $(VStr "direct").

(** [`${doc.id}`]. *)
Definition id_segment (doc : props) : outcome string :=
  v <- $(VObj doc) ~> "id" ;; to_string v.

(** The key of the stored object, as the S3 block computes it. *)
Definition derive_key (env : Env) (rt : Runtime) (payload status : value)
    (doc : props) : outcome string :=
  let prefix := or_default (AWS_S3_PREFIX env) "leads" in
  let datePart := take 10 (now rt) in
  statusPart <- slug (status_segment status) "na" ;;
  source <- slug (source_segment payload) "na" ;;
  industry <- slug (industry_segment payload) "na" ;;
  utmSource <- slug (utm_segment payload) "na" ;;
  id <- id_segment doc ;;
  Ok (storage_key prefix statusPart datePart source utmSource industry id).

Definition some_text (o : option string) : outcome string :=
  match o with
  | Some s => Ok s
  | None => Raise
  end.

(** The S3 block: what [stored] and [key] are after it. *)
Definition store (env : Env) (sdk : sdk_load) (rt : Runtime) (w : World)
    (payload status : value) (doc : props) : io (string * string) :=
  if (set (AWS_S3_BUCKET env) && set (AWS_REGION env) && s3_loaded sdk)%bool
  then
    try_catch
      (key <~ lift (derive_key env rt payload status doc) ;;
       text <~ lift (some_text (Json.stringify_pretty (VObj doc))) ;;
       send w (S3Put (text_of (AWS_REGION env)) (text_of (AWS_S3_BUCKET env))
                 key text) ;;;
       ret ("s3", key))
      (ret ("error", ""))
  else ret ("none", "").

(** The summary item of the DynamoDB block; each value is what stands
    under [S]. *)
Definition index_record (payload : value) (doc : props) (key : string)
  : outcome props :=
  data <- data_of payload ;;
  id <- $(VObj doc) ~> "id" ;;
  status <- String_ ($(VObj doc) ~> "status" ||| $(VStr "final")) ;;
  received_at <- $(VObj doc) ~> "received_at" ;;
  email <- String_ (($data &&& $data ~> "email") ||| $(VStr "")) ;;
  utm_source <- String_ (($data &&& $data ~> "utm_data"
                            &&& $data ~> "utm_data" ~> "utm_source")
                         ||| $(VStr "direct")) ;;
  s3_key <- String_ ($(VStr key) ||| $(VStr "")) ;;
  first_name <- String_ (($data &&& $data ~> "first_name") ||| $(VStr "")) ;;
  last_name <- String_ (($data &&& $data ~> "last_name") ||| $(VStr "")) ;;
  phone <- String_ (($data &&& $data ~> "phone") ||| $(VStr "")) ;;
  company <- String_ (($data &&& ($data ~> "name" ||| $data ~> "company_name"))
                      ||| $(VStr "")) ;;
  website <- String_ (($data &&& $data ~> "website") ||| $(VStr "")) ;;
  industry <- String_ (($data &&& $data ~> "industry") ||| $(VStr "")) ;;
  Ok (literal
        [ ("id", id); ("status", status); ("received_at", received_at);
          ("email", email); ("utm_source", utm_source); ("s3_key", s3_key);
          ("first_name", first_name); ("last_name", last_name);
          ("phone", phone); ("company", company); ("website", website);
          ("industry", industry) ]).

Definition index (env : Env) (sdk : sdk_load) (w : World)
    (payload : value) (doc : props) (key : string) : io unit :=
  try_catch
    (let table := DDB_TABLE env in
     let ddbRegion := either (AWS_REGION env) (DDB_REGION env) in
     if (set table && set ddbRegion && ddb_loaded sdk)%bool then
       record <~ lift (index_record payload doc key) ;;
       send w (DdbPut (text_of ddbRegion) (text_of table) record)
     else ret tt)
    (ret tt).

(** The bytes that stand between company and name in the subject. *)
Definition dash : string := bytes [195; 162; 226; 130; 172; 226; 128; 156].

Definition nl : string := String Json.newline EmptyString.

Definition mail_subject (payload : value) : outcome string :=
  company <- ($payload &&& $payload ~> "data"
                &&& ($payload ~> "data" ~> "name"
                     ||| $payload ~> "data" ~> "company_name"))
             ||| $(VStr "Unknown Company") ;;
  first <- ($payload &&& $payload ~> "data" &&& $payload ~> "data" ~> "first_name")
           ||| $(VStr "") ;;
  last <- ($payload &&& $payload ~> "data" &&& $payload ~> "data" ~> "last_name")
          ||| $(VStr "") ;;
  c <- to_string company ;;
  f <- to_string first ;;
  l <- to_string last ;;
  Ok (trim ("New Lead: " ++ c ++ " " ++ dash ++ " " ++ f ++ " " ++ l)).

Definition mail_body (payload status : value) (doc : props) (key : string)
  : outcome string :=
  st <- to_string status ;;
  k <- (v <- $(VStr key) ||| $(VStr "(none)") ;; to_string v) ;;
  id <- (v <- $(VObj doc) ~> "id" ;; to_string v) ;;
  time <- (v <- $(VObj doc) ~> "received_at" ;; to_string v) ;;
  ip <- (v <- $(VObj doc) ~> "ip" ;; to_string v) ;;
  ua <- (v <- $(VObj doc) ~> "user_agent" ;; to_string v) ;;
  dump <- (v <- $payload ~> "data" ||| $payload ;;
           to_string (match Json.stringify_pretty v with
                      | Some s => VStr s
                      | None => VUndef
                      end)) ;;
  Ok ("New lead captured (status: " ++ st ++ ")." ++ nl ++ nl
      ++ "Key: " ++ k ++ nl ++ "ID: " ++ id ++ nl ++ "Time: " ++ time ++ nl
      ++ "IP: " ++ ip ++ nl ++ "UA: " ++ ua ++ nl ++ nl
      ++ "Data:" ++ nl ++ dump).

Definition notify (env : Env) (sdk : sdk_load) (w : World)
    (payload status : value) (doc : props) (key : string) : io unit :=
  try_catch
    (let sesRegion := either (SES_REGION env) (AWS_REGION env) in
     if (is_final status && set (SES_TO env) && set (SES_FROM env)
         && set sesRegion && ses_loaded sdk)%bool
     then
       subject <~ lift (mail_subject payload) ;;
       text <~ lift (mail_body payload status doc key) ;;
       send w (SesSend (text_of sesRegion) (text_of (SES_TO env))
                 (text_of (SES_FROM env)) subject text)
     else ret tt)
    (ret tt).

(** [fetch(url, { method: 'POST', headers, body })]; a runtime without
    [fetch] throws a ReferenceError. *)
Definition fetch (rt : Runtime) (w : World) (url : string)
    (headers : list (string * string)) (text : string) : io unit :=
  if has_fetch rt then send w (HttpPost url headers text) else lift Raise.

(** [if (v) properties.k = f(v)]. *)
Definition set_if (k : string) (v : value) (f : value -> outcome value)
    (ps : props) : outcome props :=
  if truthy v then (x <- f v ;; Ok (obj_set k x ps)) else Ok ps.

Definition hubspot (env : Env) (rt : Runtime) (w : World)
    (email first last phone company annual country : value) : io unit :=
  properties <~ lift
    (p1 <- set_if "phone" phone (fun v => Ok v)
             (literal [("email", email); ("firstname", first); ("lastname", last)]) ;;
     p2 <- set_if "company" company (fun v => Ok v) p1 ;;
     p3 <- set_if "annualrevenue" annual (fun v => String_ ($v)) p2 ;;
     set_if "country" country (fun v => String_ ($v)) p3) ;;
  text <~ lift (some_text
                  (Json.stringify (VObj (literal [("properties", VObj properties)])))) ;;
  fetch rt w "https://api.hubapi.com/crm/v3/objects/contacts"
    [ ("Content-Type", "application/json");
      ("Authorization", "Bearer " ++ text_of (HUBSPOT_TOKEN env)) ]
    text.

Definition close (env : Env) (rt : Runtime) (w : World)
    (payload email first last phone company : value) : io unit :=
  let auth := Base64.encode (text_of (CLOSE_API_KEY env) ++ ":") in
  full <~ lift (f <- to_string first ;; l <- to_string last ;;
                Ok (VStr (trim (f ++ " " ++ l)))) ;;
  name <~ lift ($company ||| $full ||| $(VStr "Lead")) ;;
  contact_name <~ lift ($full ||| $VUndef) ;;
  source <~ lift (cond ($payload &&& $payload ~> "source") ($payload ~> "source")
                    ($(VStr "stripeprotection-get-started"))) ;;
  let emails := if truthy email then [VObj (literal [("email", email)])] else [] in
  let phones := if truthy phone then [VObj (literal [("phone", phone)])] else [] in
  let lead :=
    literal
      [ ("name", name);
        ("contacts",
         VArr [VObj (literal [("name", contact_name); ("emails", VArr emails);
                              ("phones", VArr phones)])]);
        ("custom", VObj (literal [("source", source)])) ] in
  text <~ lift (some_text (Json.stringify (VObj lead))) ;;
  fetch rt w "https://api.close.com/api/v1/lead/"
    [ ("Content-Type", "application/json");
      ("Authorization", "Basic " ++ auth) ]
    text.

Definition crm (env : Env) (rt : Runtime) (w : World) (payload status : value)
  : io unit :=
  if is_final status then
    data <~ lift (data_of payload) ;;
    first <~ lift (($data &&& $data ~> "first_name") ||| $(VStr "")) ;;
    last <~ lift (($data &&& $data ~> "last_name") ||| $(VStr "")) ;;
    email <~ lift (($data &&& $data ~> "email") ||| $(VStr "")) ;;
    phone <~ lift (($data &&& $data ~> "phone") ||| $(VStr "")) ;;
    company <~ lift (($data &&& ($data ~> "name" ||| $data ~> "company_name"))
                     ||| $(VStr "")) ;;
    annual <~ lift (($data &&& $data ~> "annual_sales") ||| $(VStr "")) ;;
    country <~ lift (($data &&& $data ~> "country") ||| $(VStr "")) ;;
    (if set (HUBSPOT_TOKEN env)
     then try_catch (hubspot env rt w email first last phone company annual country)
            (ret tt)
     else ret tt) ;;;
    (if set (CLOSE_API_KEY env)
     then try_catch (close env rt w payload email first last phone company)
            (ret tt)
     else ret tt)
  else ret tt.

(** The module's export: the handler of one request. *)
Definition handler (env : Env) (sdk : sdk_load) (rt : Runtime) (w : World)
    (req : Request) : io Response :=
  if method req =? "OPTIONS" then ret {| statusCode := 204; body := None |}
  else if negb (method req =? "POST")
  then ret (json 405 [("error", VStr "Method Not Allowed")])
  else
    let payload := payload req in
    clientId <~ lift (client_id payload) ;;
    status <~ lift (status_of payload) ;;
    id <~ lift ($clientId ||| $(VStr (uuid rt))) ;;
    let doc := document rt req id status in
    stored_key <~ store env sdk rt w payload status doc ;;
    let stored := fst stored_key in
    let key := snd stored_key in
    index env sdk w payload doc key ;;;
    notify env sdk w payload status doc key ;;;
    crm env rt w payload status ;;;
    doc_id <~ lift ($(VObj doc) ~> "id") ;;
    doc_status <~ lift ($(VObj doc) ~> "status") ;;
    ret (json 200 [ ("ok", VBool true); ("stored", VStr stored);
                    ("key", VStr key); ("id", doc_id); ("status", doc_status) ]).

(** One request, from an empty log of calls. *)
Definition run (env : Env) (sdk : sdk_load) (rt : Runtime) (w : World)
    (req : Request) : outcome Response * list call :=
  handler env sdk rt w req [].

End Submit.

(* ===================================================================== *)
(** ** The body of a submission  ([api/submit.js], the decoding block) *)
(* ===================================================================== *)

Module Body.
Import Text Js.

(** What the decoding block reads: [req.body] as the platform may have
    left it ([undefined] when it parsed nothing, [Raise] when reading the
    property throws), the bytes that [getRawBody] resolves to ([Raise]
    when the stream fails), and the [content-type] header. *)
Record Raw : Type := {
  parsed : outcome value;
  stream : outcome string;
  content_type : option string
}.

(** [req.body && typeof req.body === 'object']. *)
Definition usable (body : value) : bool :=
  match body with
  | VArr _ | VObj _ => true
  | _ => false
  end.

(** [hay.includes(needle)]. *)
Fixpoint includes (needle hay : string) : bool :=
  starts_with needle hay
  || match hay with
     | EmptyString => false
     | String _ r => includes needle r
     end.

(** Percent-decoding: [%] and two hexadecimal digits give one byte; any
    other [%] stands for itself. *)
Fixpoint percent_decode (s : string) : string :=
  match s with
  | EmptyString => EmptyString
  | String c t =>
      if Ascii.eqb c "%" then
        match t with
        | String a (String b r) =>
            match Json.hex_val a, Json.hex_val b with
            | Some x, Some y => String (Json.byte (16 * x + y)) (percent_decode r)
            | _, _ => String c (percent_decode t)
            end
        | _ => String c (percent_decode t)
        end
      else String c (percent_decode t)
  end.

Fixpoint plus_to_space (s : string) : string :=
  match s with
  | EmptyString => EmptyString
  | String c r =>
      String (if Ascii.eqb c "+" then " "%char else c) (plus_to_space r)
  end.

(** The pieces of [s] between the separators [sep]; [piece] is the piece
    being read, backwards. *)
Fixpoint split_at (sep : ascii) (s piece : string) : list string :=
  match s with
  | EmptyString => [rev piece]
  | String c r =>
      if Ascii.eqb c sep then rev piece :: split_at sep r EmptyString
      else split_at sep r (String c piece)
  end.

(** A piece at its first [=]: the name before it and the value after it
    (empty when there is no [=]). *)
Fixpoint name_value (piece name : string) : string * string :=
  match piece with
  | EmptyString => (rev name, EmptyString)
  | String c r =>
      if Ascii.eqb c "=" then (rev name, r)
      else name_value r (String c name)
  end.

Definition form_text (s : string) : string :=
  Utf8.decode (percent_decode (plus_to_space s)).

(** [new URLSearchParams(text)]: the name-value pairs of an
    [application/x-www-form-urlencoded] text, in order. *)
Definition url_search_params (text : string) : list (string * string) :=
  let input :=
    match text with
    | String "?" r => r
    | _ => text
    end in
  map (fun piece =>
         let (name, value) := name_value piece EmptyString in
         (form_text name, form_text value))
      (filter (fun piece => negb (piece =? "")) (split_at "&" input EmptyString)).

(** [Object.fromEntries(pairs)]. *)
Definition from_entries (pairs : list (string * string)) : value :=
  VObj (literal (map (fun kv => (fst kv, VStr (snd kv))) pairs)).

(** [req.headers['content-type'] &&
     req.headers['content-type'].includes('application/json')]. *)
Definition is_json_type (content_type : option string) : bool :=
  match content_type with
  | Some t => negb (t =? "") && includes "application/json" t
  | None => false
  end.

(** The variable [payload] after the decoding block: the parsed body when
    the platform left an object; otherwise the JSON or the form fields of
    the text read from the stream; [{}] when there is no text or when
    anything throws. *)
Definition payload_of (raw : Raw) : value :=
  match parsed raw with
  | Raise => VObj []
  | Ok body =>
      if usable body then body
      else
        match stream raw with
        | Raise => VObj []
        | Ok bytes =>
            let text := Utf8.decode bytes in
            if negb (text =? "") && is_json_type (content_type raw) then
              match Json.parse text with
              | Ok v => v
              | Raise => VObj []
              end
            else if negb (text =? "")
            then from_entries (url_search_params text)
            else VObj []
        end
  end.

(** The request that the handler works on. *)
Definition request (method : string) (raw : Raw)
    (x_forwarded_for remote_address user_agent : option string)
  : Submit.Request :=
  {| Submit.method := method;
     Submit.payload := payload_of raw;
     Submit.x_forwarded_for := x_forwarded_for;
     Submit.remote_address := remote_address;
     Submit.user_agent := user_agent |}.

End Body.

(* ===================================================================== *)
(** ** The admin endpoints: what they share *)
(* ===================================================================== *)

Module Admin.
Import Text Js.

(** A GET request once [new URL(req.url, ...)] has parsed its address:
    the query parameters in the order they were written, and the
    [x-admin-key] header. *)
Record Request : Type := {
  method : string;
  query : list (string * string);
  x_admin_key : option string
}.

(** [url.searchParams.get(name)]: the first value of that name. *)
Fixpoint get (name : string) (q : list (string * string)) : option string :=
  match q with
  | [] => None
  | (k, v) :: rest => if k =? name then Some v else get name rest
  end.

Definition either (a b : option string) : option string :=
  if set a then a else b.

Definition same (a b : option string) : bool :=
  match a, b with
  | Some x, Some y => x =? y
  | None, None => true
  | _, _ => false
  end.

(** [!requiredKey || keyParam !== requiredKey]. *)
Definition unauthorized (env : Env) (req : Request) : bool :=
  let keyParam := either (get "key" (query req)) (x_admin_key req) in
  let requiredKey := ADMIN_TOKEN env in
  negb (set requiredKey) || negb (same keyParam requiredKey).

(** [parseInt(s, 10)]; [None] is NaN.  The result is the integer that the
    digits write; the runtime's result is the double nearest to it, which
    is that integer as long as its magnitude is at most 2^53. *)
Definition parseInt (s : string) : option Z :=
  let s1 := trimStart s in
  let '(negative, s2) :=
    match s1 with
    | String "-" r => (true, r)
    | String "+" r => (false, r)
    | _ => (false, s1)
    end in
  let (d, _) := Json.span_digits s2 in
  if d =? "" then None
  else Some (if negative then - Json.Z_of_digits d else Json.Z_of_digits d)%Z.

(** [Math.min(parseInt(get('limit') || '50', 10) || 50, 200)]. *)
Definition limit_of (req : Request) : Z :=
  let n := match parseInt (or_default (get "limit" (query req)) "50") with
           | Some z => if (z =? 0)%Z then 50%Z else z
           | None => 50%Z
           end in
  Z.min n 200.

End Admin.

(* ===================================================================== *)
(** ** GET /leads-search *)
(* ===================================================================== *)

Module Search.
Import Text Js Admin.
Local Open Scope js_scope.
Local Open Scope io_scope.

(** [{ S: s }]. *)
Definition S_ (s : string) : value := VObj [("S", VStr s)].

(** [(url.searchParams.get(name) || '').trim()]. *)
Definition filter_of (req : Request) (name : string) : string :=
  trim (or_default (get name (query req)) "").

(** What the index selection leaves in the five variables. *)
Record Selection : Type := {
  index_name : string;
  key_condition : string;
  attribute_names : props;
  attribute_values : props;
  filter_parts : list string
}.

Definition range (k v dateFrom dateTo : string) : props :=
  literal [(k, S_ v); (":from", S_ dateFrom); (":to", S_ dateTo)].

Definition residual (present : string) (part name_key name value_key : string)
    (sel : Selection) : Selection :=
  if negb (present =? "") then
    {| index_name := index_name sel;
       key_condition := key_condition sel;
       attribute_names := obj_set name_key (VStr name) (attribute_names sel);
       attribute_values := obj_set value_key (S_ present) (attribute_values sel);
       filter_parts := (filter_parts sel ++ [part])%list |}
  else sel.

(** The [if (email) ... else if (status) ... else if (utm) ... else]
    chain; [None] is the branch that answers 400. *)
Definition select (email status utm dateFrom dateTo : string)
  : option Selection :=
  if negb (email =? "") then
    Some (residual utm "#U = :u" "#U" "utm_source" ":u"
            (residual status "#S = :s" "#S" "status" ":s"
               {| index_name := "byEmail";
                  key_condition := "#E = :e AND #R BETWEEN :from AND :to";
                  attribute_names :=
                    literal [("#E", VStr "email"); ("#R", VStr "received_at")];
                  attribute_values := range ":e" email dateFrom dateTo;
                  filter_parts := [] |}))
  else if negb (status =? "") then
    Some (residual email "#E = :e" "#E" "email" ":e"
            (residual utm "#U = :u" "#U" "utm_source" ":u"
               {| index_name := "byStatusDate";
                  key_condition := "#S = :s AND #R BETWEEN :from AND :to";
                  attribute_names :=
                    literal [("#S", VStr "status"); ("#R", VStr "received_at")];
                  attribute_values := range ":s" status dateFrom dateTo;
                  filter_parts := [] |}))
  else if negb (utm =? "") then
    Some (residual status "#S = :s" "#S" "status" ":s"
            {| index_name := "byUtmSource";
               key_condition := "#U = :u AND #R BETWEEN :from AND :to";
               attribute_names :=
                 literal [("#U", VStr "utm_source"); ("#R", VStr "received_at")];
               attribute_values := range ":u" utm dateFrom dateTo;
               filter_parts := [] |})
  else None.

(** [JSON.parse(Buffer.from(token, 'base64').toString('utf8'))]. *)
Definition decode (token : string) : outcome value :=
  Json.parse (Utf8.decode (Base64.decode token)).

(** What [params.ExclusiveStartKey] is after
    [if (nextToken) { try { ... = decode } catch {} }]. *)
Definition start_key (nextToken : option string) : option value :=
  if set nextToken then
    match decode (or_default nextToken "") with
    | Ok v => Some v
    | Raise => None
    end
  else None.

(** The [nextToken] of the response, for the [LastEvaluatedKey] [lek]:
    [lek ? Buffer.from(JSON.stringify(lek), 'base64').toString('utf8')
           && Buffer.from(JSON.stringify(lek)).toString('base64') : null]. *)
Definition encode (lek : value) : outcome value :=
  if truthy lek then
    match Json.stringify lek with
    | None => Raise
    | Some text =>
        $(VStr (Utf8.decode (Base64.decode text)))
        &&& $(VStr (Base64.encode text))
    end
  else $VNull.

(** [v.S || v.N || v.BOOL || null]. *)
Definition plain (v : attribute) : value :=
  match v with
  | AttrS s => if s =? "" then VNull else VStr s
  | AttrN n => if n =? "" then VNull else VStr n
  | AttrBOOL true => VBool true
  | AttrBOOL false | AttrNULL | AttrOther => VNull
  end.

(** [obj[k] = v] on an ordinary object: assigning to [__proto__] reaches
    the accessor of the prototype and creates no property. *)
Definition assign (k : string) (v : value) (obj : props) : props :=
  if k =? "__proto__" then obj else obj_set k v obj.

Definition flatten (i : item) : value :=
  VObj (fold_left (fun obj kv => assign (fst kv) (plain (snd kv)) obj) i []).

Definition params_of (table : string) (sel : Selection) (limit : Z)
    (nextToken : option string) : QueryParams :=
  {| TableName := table;
     IndexName := index_name sel;
     KeyConditionExpression := key_condition sel;
     ExpressionAttributeValues := attribute_values sel;
     ExpressionAttributeNames := attribute_names sel;
     Limit := limit;
     FilterExpression :=
       match filter_parts sel with
       | [] => None
       | parts => Some (join " AND " parts)
       end;
     ExclusiveStartKey := start_key nextToken |}.

Definition respond (out : QueryOutput) : outcome Response :=
  let items :=
    map flatten (match Items out with Some l => l | None => [] end) in
  let count :=
    match Count out with
    | Some c => c
    | None => 0%Z
    end in
  token <- encode (match LastEvaluatedKey out with
                   | Some k => k
                   | None => VUndef
                   end) ;;
  Ok (json 200 [ ("count", VNum count 0); ("items", VArr items);
                 ("nextToken", token) ]).

Definition handler (env : Env) (ddb_sdk : bool) (w : World) (req : Request)
  : io Response :=
  if method req =? "OPTIONS" then ret {| statusCode := 204; body := None |}
  else if negb (method req =? "GET")
  then ret (json 405 [("error", VStr "Method Not Allowed")])
  else if unauthorized env req
  then ret (json 401 [("error", VStr "Unauthorized")])
  else
    let region := AWS_REGION env in
    let table := or_default (DDB_TABLE env) "StripeProtectionLeads" in
    if (negb (set region) || (table =? "") || negb ddb_sdk)%bool
    then ret (json 500 [("error", VStr "DynamoDB not configured")])
    else
      let status := filter_of req "status" in
      let email := filter_of req "email" in
      let utm := filter_of req "utm_source" in
      let from := filter_of req "from" in
      let to := filter_of req "to" in
      let limit := limit_of req in
      let nextToken := get "nextToken" (query req) in
      let dateFrom := if from =? "" then "0000-01-01T00:00:00.000Z" else from in
      let dateTo := if to =? "" then "9999-12-31T23:59:59.999Z" else to in
      match select email status utm dateFrom dateTo with
      | None =>
          ret (json 400
                 [("error", VStr "Provide at least one of: email, status, utm_source")])
      | Some sel =>
          let params := params_of table sel limit nextToken in
          try_catch
            (out <~ ask (DdbQuery (or_default region "") params)
                        (query_output w (or_default region "") params) ;;
             lift (respond out))
            (ret (json 500 [("error", VStr "Dynamo query failed")]))
      end.

Definition run (env : Env) (ddb_sdk : bool) (w : World) (req : Request)
  : outcome Response * list call :=
  handler env ddb_sdk w req [].

End Search.

(* ===================================================================== *)
(** ** GET /leads-list *)
(* ===================================================================== *)

Module LeadsList.
Import Text Js Admin.
Local Open Scope js_scope.
Local Open Scope io_scope.

Definition modified (o : S3Object) : Z :=
  match LastModified o with
  | Some t => t
  | None => 0%Z
  end.

(** Places [o] after the objects that are at least as recent. *)
Fixpoint insert_by_date (o : S3Object) (sorted : list S3Object) : list S3Object :=
  match sorted with
  | [] => [o]
  | x :: rest =>
      if (modified x <? modified o)%Z then o :: sorted
      else x :: insert_by_date o rest
  end.

(** [contents.sort((a, b) => new Date(b.LastModified || 0) - new
    Date(a.LastModified || 0))]: newest first, equal dates in their order. *)
Definition newest_first (l : list S3Object) : list S3Object :=
  fold_left (fun sorted o => insert_by_date o sorted) l [].

(** [o.Key && o.Key.endsWith('.json')]. *)
Definition is_json (o : S3Object) : bool :=
  match Key o with
  | Some k => negb (k =? "") && ends_with ".json" k
  | None => false
  end.

(** [l.slice(0, n)]; a negative [n] counts from the end. *)
Definition slice0 {A} (n : Z) (l : list A) : list A :=
  if (0 <=? n)%Z then firstn (Z.to_nat n) l
  else firstn (List.length l - Z.to_nat (- n)) l.

(** One turn of the loop: fetch, parse, push; any failure skips the
    object. *)
Definition fetch_one (w : World) (region bucket : string) (o : S3Object)
    (items : list value) : io (list value) :=
  let key := or_default (Key o) "" in
  try_catch
    (text <~ ask (S3Get region bucket key) (object_text w region bucket key) ;;
     parsed <~ lift (Json.parse text) ;;
     ret (items ++ [parsed])%list)
    (ret items).

Fixpoint fetch_all (w : World) (region bucket : string) (top : list S3Object)
    (items : list value) : io (list value) :=
  match top with
  | [] => ret items
  | o :: rest =>
      items' <~ fetch_one w region bucket o items ;;
      fetch_all w region bucket rest items'
  end.

Definition handler (env : Env) (s3_sdk : bool) (w : World) (req : Request)
  : io Response :=
  if method req =? "OPTIONS" then ret {| statusCode := 204; body := None |}
  else if negb (method req =? "GET")
  then ret (json 405 [("error", VStr "Method Not Allowed")])
  else if unauthorized env req
  then ret (json 401 [("error", VStr "Unauthorized")])
  else
    let bucket := AWS_S3_BUCKET env in
    let region := AWS_REGION env in
    let prefix := or_default (AWS_S3_PREFIX env) "leads" in
    if (negb (set bucket) || negb (set region) || negb s3_sdk)%bool
    then ret (json 200 [("items", VArr []); ("note", VStr "S3 not configured")])
    else
      let status := toLowerCase (or_default (get "status" (query req)) "final") in
      let limit := limit_of req in
      let region := or_default region "" in
      let bucket := or_default bucket "" in
      let listing := prefix ++ "/" ++ status ++ "/" in
      try_catch
        (contents <~ ask (S3List region bucket listing 1000)
                         (list_output w region bucket listing) ;;
         let jsons :=
           filter is_json (match contents with Some l => l | None => [] end) in
         let top := slice0 limit (newest_first jsons) in
         items <~ fetch_all w region bucket top [] ;;
         ret (json 200 [("items", VArr items)]))
        (ret (json 500 [("error", VStr "Failed to list leads")])).

Definition run (env : Env) (s3_sdk : bool) (w : World) (req : Request)
  : outcome Response * list call :=
  handler env s3_sdk w req [].

End LeadsList.

(* ===================================================================== *)
(** ** The specification's side *)
(* ===================================================================== *)

(** Definitions that follow the words of the specification, to be compared
    with the handlers above. *)
Module Spec.
Import Text Js.
Local Open Scope js_scope.

(** [v.k] where [v] is neither [null] nor [undefined]. *)
Definition field (v : value) (k : string) : value :=
  match member v k with
  | Ok x => x
  | Raise => VUndef
  end.

(** The run of [a-z0-9] at the head of [s] (empty when [s] starts with
    another character), and the runs after it. *)
Fixpoint runs (s : string) : string * list string :=
  match s with
  | EmptyString => (EmptyString, [])
  | String c r =>
      let (h, t) := runs r in
      if is_lower_alnum c then (String c h, t)
      else (EmptyString, if h =? "" then t else h :: t)
  end.

Definition words (s : string) : list string :=
  let (h, t) := runs s in
  if h =? "" then t else h :: t.

(** Whether [s] starts, or ends, with a character outside [a-z0-9]. *)
Definition leading_gap (s : string) : bool :=
  match s with
  | EmptyString => false
  | String c _ => negb (is_lower_alnum c)
  end.

Fixpoint trailing_gap (s : string) : bool :=
  match s with
  | EmptyString => false
  | String c EmptyString => negb (is_lower_alnum c)
  | String _ r => trailing_gap r
  end.

(** "Lower-cased, non-alphanumeric runs collapsed to a single hyphen,
    leading/trailing hyphens trimmed, empty -> a fixed fallback token": the
    alphanumeric runs of the lower-cased text, joined by single hyphens. *)
Definition slugify (s fallback : string) : string :=
  match words (toLowerCase s) with
  | [] => fallback
  | ws => join "-" ws
  end.



Definition all_strings (ps : props) : Prop :=
  Forall (fun kv => exists s, snd kv = VStr s) ps.

(** What an item of a search response holds under a key: a non-empty
    text, [true] or [null]. *)
Definition flat_value (v : value) : Prop :=
  (exists s, v = VStr s /\ s <> "") \/ v = VBool true \/ v = VNull.

(** Keys in the runtime's property order: array indices first, ascending,
    then the other keys, none of them twice. *)
Fixpoint names_only (ks : list string) : bool :=
  match ks with
  | [] => true
  | k :: r =>
      match array_index k with
      | Some _ => false
      | None => negb (existsb (String.eqb k) r) && names_only r
      end
  end.

Fixpoint ordered_keys (bound : option N) (ks : list string) : bool :=
  match ks with
  | [] => true
  | k :: r =>
      match array_index k with
      | Some i =>
          match bound with
          | Some j => (j <? i)%N
          | None => true
          end && ordered_keys (Some i) r
      | None => names_only ks
      end
  end.

Definition safe_integer (m : Z) : bool :=
  (Z.abs m <=? 9007199254740991)%Z.

(** A JSON-representable structure: what [JSON.parse] can hand back.  No
    [undefined], integers that a double holds exactly, well-formed texts,
    objects in property order. *)
Fixpoint representable (v : value) : bool :=
  match v with
  | VUndef => false
  | VNull | VBool _ => true
  | VNum m scale => (scale =? 0)%nat && safe_integer m
  | VStr s => Utf8.well_formed s
  | VArr xs =>
      (fix all (l : list value) : bool :=
         match l with
         | [] => true
         | x :: r => representable x && all r
         end) xs
  | VObj ps =>
      ordered_keys None (map fst ps)
      && (fix all (l : props) : bool :=
            match l with
            | [] => true
            | (k, x) :: r => Utf8.well_formed k && representable x && all r
            end) ps
  end.

(** The value of [v && v.k]. *)
Definition guarded (v : value) (k : string) : value :=
  if truthy v then field v k else v.

(** The status that the handler computes from the payload: the supplied
    text in lower case, or ["final"]. *)
Definition normal_status (payload : value) : string :=
  match guarded payload "status" with
  | VStr s => if toLowerCase s =? "" then "final" else toLowerCase s
  | _ => "final"
  end.

(** What an object holds under [k] after [payload] has been spread over
    it: the payload's own property [k] (the last one, should the list hold
    several) or else what the object held, [server]. *)
Definition overridden (payload : value) (k : string) (server : value) : value :=
  match lookup k (List.rev (own_props payload)) with
  | Some v => v
  | None => server
  end.

(** The identifier that the handler takes from the payload, if any. *)
Definition supplied_id (payload : value) : option string :=
  match guarded payload "id" with
  | VStr s => if s =? "" then None else Some s
  | _ => None
  end.

Definition is_http_post (c : call) : bool :=
  match c with
  | HttpPost _ _ _ => true
  | _ => false
  end.

(** The index that the query router's precedence picks, given which of
    [email], [status] and [utm_source] are present; [None] is the
    rejection. *)
Definition chosen_index (email status utm : bool) : option string :=
  if email then Some "byEmail"
  else if status then Some "byStatusDate"
  else if utm then Some "byUtmSource"
  else None.

Definition present (s : string) : bool := negb (s =? "").

(** The indexes that a log of calls reads. *)
Fixpoint queried_indexes (calls : list call) : list string :=
  match calls with
  | [] => []
  | DdbQuery _ params :: rest => IndexName params :: queried_indexes rest
  | _ :: rest => queried_indexes rest
  end.

(** The index records that a log of calls writes. *)
Fixpoint index_puts (calls : list call) : list props :=
  match calls with
  | [] => []
  | DdbPut _ _ record :: rest => record :: index_puts rest
  | _ :: rest => index_puts rest
  end.

(** The objects that a log of calls stores, read back from their text. *)
Fixpoint stored_documents (calls : list call) : list (outcome value) :=
  match calls with
  | [] => []
  | S3Put _ _ _ text :: rest => Json.parse text :: stored_documents rest
  | _ :: rest => stored_documents rest
  end.


(** The JSON text of a value: [JSON.stringify], with ["null"] where that
    gives [undefined]. *)
Definition text (v : value) : string :=
  match Json.stringify v with
  | Some s => s
  | None => "null"
  end.

(** The text of a property: its quoted key, a colon, its value. *)
Definition entry_text (kv : string * value) : string :=
  Json.quote (fst kv) ++ ":" ++ text (snd kv).

(** The calls that parsing the text of a value takes. *)
Fixpoint weight (v : value) : nat :=
  match v with
  | VArr xs =>
      S ((fix sum (l : list value) : nat :=
            match l with
            | [] => 0
            | x :: r => S (weight x) + sum r
            end) xs)
  | VObj ps =>
      S ((fix sum (l : props) : nat :=
            match l with
            | [] => 0
            | (_, x) :: r => S (weight x) + sum r
            end) ps)
  | _ => 1
  end.

(** What may follow a value inside a JSON text: nothing, a comma or a
    closing bracket. *)
Definition delimited (rest : string) : Prop :=
  rest = "" \/ exists r, rest = String "," r \/ rest = String "]" r
                         \/ rest = String "}" r.

Definition no_digit (rest : string) : Prop :=
  match rest with
  | EmptyString => True
  | String c _ => is_digit c = false
  end.

(** Decimal digits without a superfluous leading zero. *)
Definition canonical (d : Decimal.uint) : bool :=
  match d with
  | Decimal.Nil => false
  | Decimal.D0 Decimal.Nil => true
  | Decimal.D0 _ => false
  | _ => true
  end.

(** The parser reads the text of [v] back as [v], whatever delimiter
    follows it, with the fuel that [weight] counts. *)
Definition reads_back (v : value) : Prop :=
  representable v = true ->
  forall fuel rest, weight v <= fuel -> delimited rest ->
    Json.value_at fuel (text v ++ rest) = Some (v, rest).

(** The calls that a list of values takes, each with the call that reaches
    it. *)
Definition total (xs : list value) : nat :=
  list_sum (map (fun x => S (weight x)) xs).

(** The text that [JSON.stringify] writes for [v] with the indentation unit
    [gap], at the indentation [indent] (["null"] where it gives
    [undefined]). *)
Definition text_in (gap indent : string) (v : value) : string :=
  match Json.ser gap indent v with
  | Some s => s
  | None => "null"
  end.

(** The text of a property in an indented object. *)
Definition entry_text_in (gap indent : string) (kv : string * value) : string :=
  Json.quote (fst kv) ++ ": " ++ text_in gap indent (snd kv).

(** White space only. *)
Fixpoint blank (s : string) : bool :=
  match s with
  | EmptyString => true
  | String c r => Json.is_ws c && blank r
  end.

(** What may follow a value inside an indented JSON text: nothing, white
    space, a comma or a closing bracket. *)
Definition follows (rest : string) : bool :=
  match rest with
  | EmptyString => true
  | String c _ =>
      Json.is_ws c || Ascii.eqb c "," || Ascii.eqb c "]" || Ascii.eqb c "}"
  end.

(** The parser reads the indented text of [v] back as [v]. *)
Definition reads_back_in (gap : string) (v : value) : Prop :=
  representable v = true ->
  forall indent fuel rest,
    blank indent = true -> weight v <= fuel -> follows rest = true ->
    Json.value_at fuel (text_in gap indent v ++ rest) = Some (v, rest).

(** The characters that open the text of a value. *)
Definition opens (c : ascii) : bool :=
  is_digit c || Ascii.eqb c "-" || Ascii.eqb c dq || Ascii.eqb c "["
  || Ascii.eqb c "{" || Ascii.eqb c "t" || Ascii.eqb c "f" || Ascii.eqb c "n".

(** RFC 4122 version 4 in lower-case hexadecimal. *)
Definition is_hex (c : ascii) : bool := is_digit c || between 97 102 c.

Fixpoint matches (pattern s : string) : bool :=
  match pattern, s with
  | EmptyString, EmptyString => true
  | String p pr, String c sr =>
      (if Ascii.eqb p "x" then is_hex c
       else if Ascii.eqb p "y" then between 56 57 c || between 97 98 c
       else Ascii.eqb p c)
      && matches pr sr
  | _, _ => false
  end.

Definition is_uuid_v4 (s : string) : bool :=
  matches "xxxxxxxx-xxxx-4xxx-yxxx-xxxxxxxxxxxx" s.

End Spec.

(* ===================================================================== *)
(** ** Notions used in the statements *)
(* ===================================================================== *)

(** The log [t'] is [t] followed by HTTP posts only. *)
Definition only_posts (t t' : list call) : Prop :=
  exists more, t' = (t ++ more)%list
               /\ forallb Spec.is_http_post more = true.

(** Where a call of the log comes from: the S3 block ([before]), a CRM
    post, the DynamoDB block or the SES block, the last two working from
    the key that the S3 block left. *)
Definition sent_by (payload status : Js.value) (doc : Js.props) (key : string)
    (before : list call) (c : call) : Prop :=
  In c before
  \/ Spec.is_http_post c = true
  \/ (exists region table record,
        c = DdbPut region table record
        /\ Submit.index_record payload doc key = Ok record)
  \/ (exists region recipient sender subject text,
        c = SesSend region recipient sender subject text
        /\ Submit.mail_body payload status doc key = Ok text).

(** The document that a POST builds: the identifier is the supplied one
    or the generated one, the status the computed one. *)
Definition built_document (rt : Runtime) (req : Submit.Request) : Js.props :=
  Submit.document rt req
    (Js.VStr (match Spec.supplied_id (Submit.payload req) with
              | Some s => s
              | None => Submit.uuid rt
              end))
    (Js.VStr (Spec.normal_status (Submit.payload req))).

(** The log [t'] is [t], or [t] followed by one call that satisfies
    [P]. *)
Definition sends_at_most (P : call -> Prop) (t t' : list call) : Prop :=
  t' = t \/ exists c, P c /\ t' = (t ++ [c])%list.

(** The two CRM end points and the headers of their posts. *)
Definition hubspot_url : string :=
  "https://api.hubapi.com/crm/v3/objects/contacts".

Definition close_url : string := "https://api.close.com/api/v1/lead/".

Definition hubspot_headers (env : Env) : list (string * string) :=
  [ ("Content-Type", "application/json");
    ("Authorization", "Bearer " ++ Submit.text_of (HUBSPOT_TOKEN env)) ].

Definition close_headers (env : Env) : list (string * string) :=
  [ ("Content-Type", "application/json");
    ("Authorization",
     "Basic " ++ Base64.encode (Submit.text_of (CLOSE_API_KEY env) ++ ":")) ].

Definition hubspot_post (env : Env) (c : call) : Prop :=
  exists text, c = HttpPost hubspot_url (hubspot_headers env) text.

Definition close_post (env : Env) (c : call) : Prop :=
  exists text, c = HttpPost close_url (close_headers env) text.

(** The block of the ingestion that a call comes from, in the order of the
    blocks: S3, DynamoDB, SES, HubSpot, Close. *)
Definition stage (c : call) : nat :=
  match c with
  | S3Put _ _ _ _ => 0
  | DdbPut _ _ _ => 1
  | SesSend _ _ _ _ _ => 2
  | HttpPost url _ _ =>
      if url =? hubspot_url then 3 else if url =? close_url then 4 else 5
  | DdbQuery _ _ | S3List _ _ _ _ | S3Get _ _ _ => 6
  end.

Fixpoint ascending (l : list nat) : bool :=
  match l with
  | a :: (b :: _) as rest => (a <? b)%nat && ascending rest
  | _ => true
  end.

(** What the list endpoint gets out of one listed object: its parsed
    JSON, or nothing when the object cannot be fetched or parsed. *)
Definition read_back (w : World) (region bucket : string) (o : S3Object)
  : list Js.value :=
  match object_text w region bucket (Js.or_default (Key o) "") with
  | Ok text =>
      match Json.parse text with
      | Ok v => [v]
      | Raise => []
      end
  | Raise => []
  end.

Definition get_call (region bucket : string) (o : S3Object) : call :=
  S3Get region bucket (Js.or_default (Key o) "").

(** The objects that the list endpoint fetches from a listing. *)
Definition chosen (limit : Z) (contents : option (list S3Object))
  : list S3Object :=
  LeadsList.slice0 limit
    (LeadsList.newest_first
       (filter LeadsList.is_json
          (match contents with Some l => l | None => [] end))).

(** The objects of [l] last modified at [t], in their order. *)
Definition modified_at (t : Z) (l : list S3Object) : list S3Object :=
  filter (fun o => (LeadsList.modified o =? t)%Z) l.

(** [a] is at least as recent as [b]. *)
Definition no_older (a b : S3Object) : Prop :=
  (LeadsList.modified b <= LeadsList.modified a)%Z.

(** The prefix that the list endpoint enumerates. *)
Definition listing_prefix (env : Env) (req : Admin.Request) : string :=
  Js.or_default (AWS_S3_PREFIX env) "leads" ++ "/"
  ++ Text.toLowerCase (Js.or_default (Admin.get "status" (Admin.query req)) "final")
  ++ "/".


(** The objects that the list endpoint fetches for a request: none when
    the enumeration fails. *)
Definition fetched (env : Env) (w : World) (req : Admin.Request)
  : list S3Object :=
  match list_output w (Js.or_default (AWS_REGION env) "")
          (Js.or_default (AWS_S3_BUCKET env) "") (listing_prefix env req) with
  | Ok contents => chosen (Admin.limit_of req) contents
  | Raise => []
  end.

(** The text behind a listed object, when it can be fetched and is JSON,
    denotes a JSON-representable value: its numbers are integers that a
    double holds exactly. *)
Definition exact_read (w : World) (region bucket : string) (o : S3Object)
  : bool :=
  match object_text w region bucket (Js.or_default (Key o) "") with
  | Ok text =>
      match Json.parse text with
      | Ok v => Spec.representable v
      | Raise => true
      end
  | Raise => true
  end.



(** The words of an expression, split at the spaces. *)
Fixpoint split_words (s word : string) : list string :=
  match s with
  | EmptyString => [Text.rev word]
  | String c r =>
      if Ascii.eqb c " " then Text.rev word :: split_words r EmptyString
      else split_words r (String c word)
  end.

(** The placeholders of a DynamoDB expression: its words that start with
    [#] (attribute names) or [:] (attribute values). *)
Definition placeholders (expression : string) : list string :=
  filter (fun word => Text.starts_with "#" word || Text.starts_with ":" word)
    (split_words expression EmptyString).

(** The expressions of a query, one after the other. *)
Definition expressions (params : QueryParams) : string :=
  KeyConditionExpression params ++ " "
  ++ match FilterExpression params with
     | Some f => f
     | None => ""
     end.

(** The placeholders that a query declares. *)
Definition declared (params : QueryParams) : list string :=
  (map fst (ExpressionAttributeNames params)
   ++ map fst (ExpressionAttributeValues params))%list.

Definition same_members (a b : list string) : bool :=
  forallb (fun x => existsb (String.eqb x) b) a
  && forallb (fun x => existsb (String.eqb x) a) b.

(** The start and the end of the date range of a search. *)
Definition range_start (req : Admin.Request) : string :=
  if Search.filter_of req "from" =? "" then "0000-01-01T00:00:00.000Z"
  else Search.filter_of req "from".

Definition range_end (req : Admin.Request) : string :=
  if Search.filter_of req "to" =? "" then "9999-12-31T23:59:59.999Z"
  else Search.filter_of req "to".

(** The attribute that an item holds under [k] (the last one, should the
    list hold several). *)
Fixpoint attribute_named (k : string) (i : item) : option attribute :=
  match i with
  | [] => None
  | (k', a) :: rest =>
      match attribute_named k rest with
      | Some b => Some b
      | None => if k' =? k then Some a else None
      end
  end.

(** The last value that a list of pairs gives for a name. *)
Fixpoint last_value (name : string) (pairs : list (string * string))
  : option string :=
  match pairs with
  | [] => None
  | (k, v) :: rest =>
      match last_value name rest with
      | Some x => Some x
      | None => if k =? name then Some v else None
      end
  end.

(** A text that form encoding leaves as it is: letters, digits, hyphen,
    underscore and full stop. *)
Definition unreserved (c : ascii) : bool :=
  Text.is_digit c || Text.is_upper c || Text.is_lower c
  || Ascii.eqb c "-" || Ascii.eqb c "_" || Ascii.eqb c ".".

Fixpoint plain_text (s : string) : bool :=
  match s with
  | EmptyString => true
  | String c r => unreserved c && plain_text r
  end.

(** A text that does not hold the character [c]. *)
Fixpoint without (c : ascii) (s : string) : bool :=
  match s with
  | EmptyString => true
  | String x r => negb (Ascii.eqb x c) && without c r
  end.

(** The form encoding of plain pairs: [k1=v1&k2=v2&...]. *)
Definition form_of (pairs : list (string * string)) : string :=
  Text.join "&" (map (fun kv => fst kv ++ "=" ++ snd kv) pairs).

(** A text made of [a-z0-9] only. *)
Definition alnum (s : string) : Prop :=
  forall c, In c (list_ascii_of_string s) -> Text.is_lower_alnum c = true.

(** The shape of a slug: words of [a-z0-9], none of them empty, joined by
    single hyphens. *)
Definition hyphenated (s : string) : Prop :=
  exists ws, ws <> []
             /\ Forall (fun w => w <> "" /\ alnum w) ws
             /\ s = Text.join "-" ws.

(** The hyphen that a trailing gap leaves after the last word. *)
Definition closing (s : string) : string :=
  match Spec.words s with
  | [] => ""
  | _ => if Spec.trailing_gap s then "-" else ""
  end.

(** The 256 bytes. *)
Definition all_bytes : list ascii := map ascii_of_nat (seq 0 256).

(** The four sextets of a group of three bytes, and the second and third
    sextet of a group that ends early. *)
Definition s0 (x : ascii) : N := N.shiftr (N_of_ascii x) 2.

Definition s1 (x y : ascii) : N :=
  N.lor (N.shiftl (N.land (N_of_ascii x) 3) 4) (N.shiftr (N_of_ascii y) 4).

Definition s2 (y z : ascii) : N :=
  N.lor (N.shiftl (N.land (N_of_ascii y) 15) 2) (N.shiftr (N_of_ascii z) 6).

Definition s3 (z : ascii) : N := N.land (N_of_ascii z) 63.

Definition s1_last (x : ascii) : N := N.shiftl (N.land (N_of_ascii x) 3) 4.

Definition s2_last (y : ascii) : N := N.shiftl (N.land (N_of_ascii y) 15) 2.

(** A sextet whose character the decoder reads back as that sextet. *)
Definition legal (n : N) : bool :=
  negb (Ascii.eqb (Base64.table n) Base64.pad)
  && match Base64.unbase64 (Base64.table n) with
     | Some m => (m =? n)%N
     | None => false
     end.

(** The compact brackets of [JSON.stringify]: the parts separated by
    commas between [opening] and [closing]. *)
Definition enclose (opening closing : string) (parts : list string) : string :=
  match parts with
  | [] => opening ++ closing
  | _ => opening ++ Text.join "," parts ++ closing
  end.

(* ===================================================================== *)
(** ** Sample inputs *)
(* ===================================================================== *)

Definition bare_env : Env :=
  {| AWS_S3_BUCKET := Some "bucket"; AWS_REGION := Some "eu-west-1";
     AWS_S3_PREFIX := None; DDB_TABLE := Some "Leads"; DDB_REGION := None;
     SES_TO := None; SES_FROM := None; SES_REGION := None;
     HUBSPOT_TOKEN := None; CLOSE_API_KEY := None; ADMIN_TOKEN := None |}.

Definition silent_world : World :=
  {| rejects := fun _ => false;
     query_output := fun _ _ => Raise;
     list_output := fun _ _ _ => Raise;
     object_text := fun _ _ _ => Raise |}.


Definition admin_env : Env :=
  {| AWS_S3_BUCKET := Some "bucket"; AWS_REGION := Some "eu-west-1";
     AWS_S3_PREFIX := None; DDB_TABLE := Some "Leads"; DDB_REGION := None;
     SES_TO := None; SES_FROM := None; SES_REGION := None;
     HUBSPOT_TOKEN := None; CLOSE_API_KEY := None;
     ADMIN_TOKEN := Some "secret" |}.

(** An index item as the ingestion writes it for a lead without e-mail. *)
Definition stored_item : item :=
  [ ("id", AttrS "lead-1"); ("status", AttrS "final"); ("email", AttrS "") ].

Definition one_item_world : World :=
  {| rejects := fun _ => false;
     query_output := fun _ _ =>
       Ok {| Items := Some [stored_item]; Count := Some 1%Z;
             LastEvaluatedKey := None |};
     list_output := fun _ _ _ => Raise;
     object_text := fun _ _ _ => Raise |}.

Definition search_request (q : list (string * string)) : Admin.Request :=
  {| Admin.method := "GET"; Admin.query := q;
     Admin.x_admin_key := Some "secret" |}.

Definition unconfigured_env : Env :=
  {| AWS_S3_BUCKET := None; AWS_REGION := None;
     AWS_S3_PREFIX := None; DDB_TABLE := None; DDB_REGION := None;
     SES_TO := None; SES_FROM := None; SES_REGION := None;
     HUBSPOT_TOKEN := None; CLOSE_API_KEY := None;
     ADMIN_TOKEN := Some "secret" |}.

Definition full_env : Env :=
  {| AWS_S3_BUCKET := Some "bucket"; AWS_REGION := Some "eu-west-1";
     AWS_S3_PREFIX := None; DDB_TABLE := Some "Leads"; DDB_REGION := None;
     SES_TO := Some "sales@example.com"; SES_FROM := Some "web@example.com";
     SES_REGION := None; HUBSPOT_TOKEN := Some "hs"; CLOSE_API_KEY := Some "cl";
     ADMIN_TOKEN := Some "secret" |}.

Definition sample_runtime : Runtime :=
  {| now := "2024-05-06T07:08:09.123Z";
     randomUUID := None;
     math_random := fun i => N.of_nat (i mod 16);
     has_fetch := true |}.

(** A world whose object storage rejects every write. *)
Definition storage_down : World :=
  {| rejects := fun c => match c with S3Put _ _ _ _ => true | _ => false end;
     query_output := fun _ _ => Raise;
     list_output := fun _ _ _ => Raise;
     object_text := fun _ _ _ => Raise |}.

Definition post (p : Js.value) : Submit.Request :=
  {| Submit.method := "POST"; Submit.payload := p;
     Submit.x_forwarded_for := Some "203.0.113.7";
     Submit.remote_address := None;
     Submit.user_agent := Some "agent" |}.

Definition lead : Js.value :=
  Js.VObj [ ("data", Js.VObj [ ("email", Js.VStr "a@b.com");
                               ("first_name", Js.VStr "A") ]) ].



(** A body whose keys are those of the five server-side fields. *)
Definition forged : Js.value :=
  Js.VObj [ ("id", Js.VNum 7 0); ("status", Js.VStr "DRAFT");
            ("received_at", Js.VStr "1999-01-01T00:00:00.000Z");
            ("ip", Js.VStr "0.0.0.0"); ("user_agent", Js.VStr "forged") ].

Definition storage_only_env : Env :=
  {| AWS_S3_BUCKET := Some "bucket"; AWS_REGION := Some "eu-west-1";
     AWS_S3_PREFIX := None; DDB_TABLE := None; DDB_REGION := None;
     SES_TO := None; SES_FROM := None; SES_REGION := None;
     HUBSPOT_TOKEN := None; CLOSE_API_KEY := None; ADMIN_TOKEN := None |}.

(** A last evaluated key, [{"id":{"S":"abc"}}], and its token. *)
Definition last_key : Js.value :=
  Js.VObj [("id", Js.VObj [("S", Js.VStr "abc")])].

Definition last_token : string := "eyJpZCI6eyJTIjoiYWJjIn19".

(** The token of [{"id":{"S":"ab"}}] is [eyJpZCI6eyJTIjoiYWIifX0=]; this is
    it without its padding. *)
Definition short_key : Js.value :=
  Js.VObj [("id", Js.VObj [("S", Js.VStr "ab")])].

Definition unpadded_token : string := "eyJpZCI6eyJTIjoiYWIifX0".

(** A submission that is not final. *)
Definition draft : Js.value :=
  Js.VObj [ ("status", Js.VStr "Draft");
            ("data", Js.VObj [ ("email", Js.VStr "a@b.com") ]) ].

(** The lead that [post lead] sends to Close. *)
Definition lead_for_close : string :=
  Text.quoted
    ("{'name':'A','contacts':[{'name':'A','emails':[{'email':'a@b.com'}],"
     ++ "'phones':[]}],'custom':{'source':'stripeprotection-get-started'}}").

(** A request that carries the right key in its header and a wrong one in
    its address. *)
Definition two_keys : Admin.Request :=
  {| Admin.method := "GET";
     Admin.query := [("key", "guess"); ("status", "final")];
     Admin.x_admin_key := Some "secret" |}.

(** A listing of three objects, and the texts behind their keys: one is
    not JSON, one holds a lead, and one cannot be fetched. *)
Definition listing : list S3Object :=
  [ {| Key := Some "leads/final/a.json"; LastModified := Some 10%Z |};
    {| Key := Some "leads/final/readme.txt"; LastModified := Some 30%Z |};
    {| Key := Some "leads/final/b.json"; LastModified := Some 20%Z |};
    {| Key := Some "leads/final/c.json"; LastModified := Some 20%Z |} ].

Definition bucket_world : World :=
  {| rejects := fun _ => false;
     query_output := fun _ _ => Raise;
     list_output := fun _ _ _ => Ok (Some listing);
     object_text := fun _ _ key =>
       if key =? "leads/final/a.json" then Ok "{broken"
       else if key =? "leads/final/b.json"
       then Ok (Text.quoted "{'id':'b'}")
       else Raise |}.

Definition list_request (q : list (string * string)) : Admin.Request :=
  {| Admin.method := "GET"; Admin.query := q;
     Admin.x_admin_key := Some "secret" |}.

(** A GET sent to the ingestion, and a preflight sent to an admin
    endpoint. *)
Definition get_submit : Submit.Request :=
  {| Submit.method := "GET"; Submit.payload := lead;
     Submit.x_forwarded_for := None; Submit.remote_address := None;
     Submit.user_agent := None |}.

Definition options_request : Admin.Request :=
  {| Admin.method := "OPTIONS"; Admin.query := [];
     Admin.x_admin_key := None |}.

(** The query that a search for one e-mail address and one status sends. *)
Definition mail_search : Admin.Request :=
  search_request [("email", "a@b.com"); ("status", "final"); ("limit", "500")].

Definition mail_query : QueryParams := Eval vm_compute in
    match snd (Search.run admin_env true one_item_world mail_search) with
    | [DdbQuery _ params] => params
    | _ =>
        {| TableName := ""; IndexName := ""; KeyConditionExpression := "";
           ExpressionAttributeValues := []; ExpressionAttributeNames := [];
           Limit := 0; FilterExpression := None; ExclusiveStartKey := None |}
    end.

(** The indented text of [lead]. *)
Definition lead_text : string := Eval vm_compute in
    Spec.text_in "  " "" lead.

(** The text that [post lead] stores. *)
Definition stored_lead_text : string := Eval vm_compute in
    Spec.text_in "  " "" (Js.VObj (built_document sample_runtime (post lead))).

(** Bodies as they reach the ingestion: JSON text, text that is not JSON,
    and a form. *)
Definition json_body (text : string) : Body.Raw :=
  {| Body.parsed := Ok Js.VUndef; Body.stream := Ok text;
     Body.content_type := Some "application/json; charset=utf-8" |}.

Definition form_body (text : string) : Body.Raw :=
  {| Body.parsed := Ok Js.VUndef; Body.stream := Ok text;
     Body.content_type := Some "application/x-www-form-urlencoded" |}.

(** A world in which every write but the one to the object store is
    rejected. *)
Definition sinks_down : World :=
  {| rejects := fun c => match c with S3Put _ _ _ _ => false | _ => true end;
     query_output := fun _ _ => Raise;
     list_output := fun _ _ _ => Raise;
     object_text := fun _ _ _ => Raise |}.

(** A body that sets [id] and [received_at] to [null], and the index
    record that its POST sends. *)
Definition nulled : Js.value :=
  Js.VObj [("id", Js.VNull); ("received_at", Js.VNull)].

Definition nulled_record : Js.props :=
  [ ("id", Js.VNull);
    ("status", Js.VStr "final");
    ("received_at", Js.VNull);
    ("email", Js.VStr "");
    ("utm_source", Js.VStr "direct");
    ("s3_key",
     Js.VStr "leads/final/2024-05-06/source=web/utm=direct/industry=na/null.json");
    ("first_name", Js.VStr "");
    ("last_name", Js.VStr "");
    ("phone", Js.VStr "");
    ("company", Js.VStr "");
    ("website", Js.VStr "");
    ("industry", Js.VStr "") ].
(* ===================================================================== *)
(** * Properties *)
(* ===================================================================== *)

(** ** The admin key *)

Section AdminKey.
Import Admin.

Lemma unauthorized_without_secret (env : Env) (req : Request) :
  ADMIN_TOKEN env = None -> unauthorized env req = true.
Proof.
  intros H. unfold unauthorized. rewrite H. reflexivity.
Qed.

Lemma unauthorized_empty_secret (env : Env) (req : Request) :
  ADMIN_TOKEN env = Some "" -> unauthorized env req = true.
Proof.
  intros H. unfold unauthorized. rewrite H. reflexivity.
Qed.

(** C10.  With no ADMIN_TOKEN configured, a GET on the search endpoint and
    a GET on the list endpoint are both answered 401 whatever key the
    request carries (none included), and no call reaches a backing
    store. *)
Theorem admin_endpoints_fail_closed
    (env : Env) (ddb_sdk s3_sdk : bool) (w : World) (req : Request)
    (Hget : method req = "GET") (Hnone : ADMIN_TOKEN env = None) :
  Search.run env ddb_sdk w req
    = (Ok (json 401 [("error", Js.VStr "Unauthorized")]), [])
  /\ LeadsList.run env s3_sdk w req
    = (Ok (json 401 [("error", Js.VStr "Unauthorized")]), []).
Proof.
  unfold Search.run, Search.handler, LeadsList.run, LeadsList.handler.
  rewrite Hget, (unauthorized_without_secret env req Hnone).
  split; reflexivity.
Qed.

End AdminKey.

Lemma admin_endpoints_fail_closed_witness :
  let req := {| Admin.method := "GET";
                Admin.query := [("key", "guess"); ("status", "final")];
                Admin.x_admin_key := Some "guess" |} in
  Search.run bare_env true silent_world req
    = (Ok (json 401 [("error", Js.VStr "Unauthorized")]), [])
  /\ LeadsList.run bare_env true silent_world req
    = (Ok (json 401 [("error", Js.VStr "Unauthorized")]), []).
Proof.
  exact (admin_endpoints_fail_closed bare_env true true silent_world
           {| Admin.method := "GET";
              Admin.query := [("key", "guess"); ("status", "final")];
              Admin.x_admin_key := Some "guess" |}
           eq_refl eq_refl).
Defined.

(** ** Objects *)

Section Objects.
Import Js.

Variable P : value -> Prop.

Let on_values (ps : props) : Prop := Forall (fun kv => P (snd kv)) ps.

Lemma replace_values k v ps : on_values ps -> P v -> on_values (replace k v ps).
Proof.
  intros Hps Hv. induction Hps as [|[k' v'] rest Hkv Hrest IH]; simpl.
  - constructor.
  - destruct (k' =? k); constructor; auto.
Qed.

Lemma insert_index_values i k v ps :
  on_values ps -> P v -> on_values (insert_index i k v ps).
Proof.
  intros Hps Hv. induction Hps as [|[k' v'] rest Hkv Hrest IH]; simpl.
  - repeat constructor; exact Hv.
  - destruct (array_index k') as [j|].
    + destruct (j <? i)%N; repeat (constructor; auto).
    + repeat (constructor; auto).
Qed.

Lemma obj_set_values k v ps : on_values ps -> P v -> on_values (obj_set k v ps).
Proof.
  intros Hps Hv. unfold obj_set.
  destruct (has_key k ps).
  - now apply replace_values.
  - destruct (array_index k).
    + now apply insert_index_values.
    + apply Forall_app. split; [exact Hps | repeat constructor; exact Hv].
Qed.

End Objects.

(** ** The search response *)

Section SearchItems.
Import Js Admin Search.

Lemma plain_is_flat (a : attribute) : Spec.flat_value (plain a).
Proof.
  destruct a as [s|n|[|]| |]; simpl; unfold Spec.flat_value; auto.
  - destruct (s =? "") eqn:E; auto.
    left. exists s. split; [reflexivity|].
    intros ->. discriminate.
  - destruct (n =? "") eqn:E; auto.
    left. exists n. split; [reflexivity|].
    intros ->. discriminate.
Qed.

Lemma flatten_is_flat (i : item) :
  exists ps, flatten i = VObj ps
             /\ Forall (fun kv => Spec.flat_value (snd kv)) ps.
Proof.
  unfold flatten. eexists. split; [reflexivity|].
  generalize (@nil (string * value)) (Forall_nil (fun kv : string * value => Spec.flat_value (snd kv))).
  induction i as [|[k a] rest IH]; intros acc Hacc; simpl.
  - exact Hacc.
  - apply IH. unfold assign.
    destruct (k =? "__proto__"); [exact Hacc|].
    apply obj_set_values; [exact Hacc | apply plain_is_flat].
Qed.

Lemma respond_items (out : QueryOutput) (resp : Response) :
  respond out = Ok resp ->
  exists count items token,
    resp = json 200 [ ("count", VNum count 0); ("items", VArr items);
                      ("nextToken", token) ]
    /\ Forall (fun it => exists ps, it = VObj ps
                 /\ Forall (fun kv => Spec.flat_value (snd kv)) ps) items.
Proof.
  unfold respond. intros H.
  destruct (encode _) as [token|]; simpl in H; [|discriminate].
  injection H as <-.
  do 3 eexists. split; [reflexivity|].
  apply Forall_forall. intros it Hin.
  apply in_map_iff in Hin. destruct Hin as [i [<- _]].
  apply flatten_is_flat.
Qed.

(** C9 (as amended).  In every 200 answer of the search handler, each
    element of [items] is a flat record, and each of its values is a
    non-empty text, [true] or [null]: an attribute with an empty [S], a
    false [BOOL] or no scalar at all comes back as [null], a true [BOOL]
    as [true]. *)
Theorem search_items_are_flat
    (env : Env) (ddb_sdk : bool) (w : World) (req : Request)
    (resp : Response) (calls : list call)
    (Hrun : Search.run env ddb_sdk w req = (Ok resp, calls))
    (H200 : statusCode resp = 200) :
  exists count items token,
    body resp = Some (VObj [ ("count", VNum count 0); ("items", VArr items);
                             ("nextToken", token) ])
    /\ Forall (fun it => exists ps, it = VObj ps
                 /\ Forall (fun kv => Spec.flat_value (snd kv)) ps) items.
Proof.
  revert Hrun. unfold Search.run, handler.
  destruct (method req =? "OPTIONS").
  { intros [= <- _]. discriminate. }
  destruct (negb (method req =? "GET")).
  { intros [= <- _]. discriminate. }
  destruct (unauthorized env req).
  { intros [= <- _]. discriminate. }
  destruct (_ || _ || _)%bool.
  { intros [= <- _]. discriminate. }
  destruct (select _ _ _ _ _) as [sel|].
  2:{ intros [= <- _]. discriminate. }
  unfold try_catch, bind, ask, lift.
  destruct (query_output w _ _) as [out|].
  2:{ intros [= <- _]. discriminate. }
  destruct (respond out) as [r|] eqn:Hr.
  2:{ intros [= <- _]. discriminate. }
  intros [= <- _].
  destruct (respond_items out Hr) as (count & items & token & -> & Hitems).
  exists count, items, token. split; [reflexivity | exact Hitems].
Qed.

Lemma search_items_are_flat_witness :
  exists count items token,
    body (json 200 [ ("count", VNum 1 0);
                     ("items", VArr [VObj [ ("id", VStr "lead-1");
                                            ("status", VStr "final");
                                            ("email", VNull) ]]);
                     ("nextToken", VNull) ])
    = Some (VObj [ ("count", VNum count 0); ("items", VArr items);
                   ("nextToken", token) ])
    /\ Forall (fun it => exists ps, it = VObj ps
                 /\ Forall (fun kv => Spec.flat_value (snd kv)) ps) items.
Proof.
  exact (search_items_are_flat admin_env true one_item_world
           (search_request [("status", "final")])
           (resp := json 200 [ ("count", VNum 1 0);
                               ("items", VArr [VObj [ ("id", VStr "lead-1");
                                                      ("status", VStr "final");
                                                      ("email", VNull) ]]);
                               ("nextToken", VNull) ])
           (calls := snd (Search.run admin_env true one_item_world
                            (search_request [("status", "final")])))
           eq_refl eq_refl).
Defined.

(** C9 (as stated) fails: a lead stored without e-mail has [email: { S: '' }]
    in the index, and the search answers 200 with [email: null] in the
    item, which is no string. *)
Lemma search_item_with_null_field :
  fst (Search.run admin_env true one_item_world
         (search_request [("status", "final")]))
  = Ok (json 200 [ ("count", VNum 1 0);
                   ("items", VArr [VObj [ ("id", VStr "lead-1");
                                          ("status", VStr "final");
                                          ("email", VNull) ]]);
                   ("nextToken", VNull) ])
  /\ ~ Spec.all_strings [ ("id", VStr "lead-1"); ("status", VStr "final");
                          ("email", VNull) ].
Proof.
  split; [vm_compute; reflexivity|].
  intros H. unfold Spec.all_strings in H.
  inversion H as [|? ? _ H1]; subst.
  inversion H1 as [|? ? _ H2]; subst.
  inversion H2 as [|? ? [s Hs] _]; subst.
  discriminate Hs.
Qed.

End SearchItems.

(** ** Index selection *)

Section IndexSelection.
Import Js Admin Search.

Lemma or_default_present (o : option string) (d : string) :
  d <> "" -> (or_default o d =? "") = false.
Proof.
  intros Hd. unfold or_default.
  destruct o as [s|].
  - destruct (s =? "") eqn:E; [|exact E].
    apply String.eqb_neq. exact Hd.
  - apply String.eqb_neq. exact Hd.
Qed.

Lemma residual_index (p part nk n vk : string) (sel : Selection) :
  index_name (residual p part nk n vk sel) = index_name sel.
Proof.
  unfold residual. destruct (negb (p =? "")); reflexivity.
Qed.

(** The branch taken depends on the three filters only through their
    being empty or not. *)
Lemma select_index (email status utm dateFrom dateTo : string) :
  option_map index_name (select email status utm dateFrom dateTo)
  = Spec.chosen_index (Spec.present email) (Spec.present status)
      (Spec.present utm).
Proof.
  unfold select, Spec.chosen_index, Spec.present.
  destruct (negb (email =? "")); simpl.
  { now rewrite !residual_index. }
  destruct (negb (status =? "")); simpl.
  { now rewrite !residual_index. }
  destruct (negb (utm =? "")); simpl.
  { now rewrite !residual_index. }
  reflexivity.
Qed.

(** C3 (as amended).  For an authorized GET on the search endpoint with
    DynamoDB configured (region set, client loaded), and with each filter
    taken after trimming white space: [email] present selects [byEmail];
    else [status] present selects [byStatusDate]; else [utm_source] present
    selects [byUtmSource], and the handler sends that one query; with none
    present it answers 400 and sends nothing. *)
Theorem index_selection_precedence
    (env : Env) (w : World) (req : Request)
    (Hget : method req = "GET")
    (Hauth : unauthorized env req = false)
    (Hregion : set (AWS_REGION env) = true) :
  match Spec.chosen_index (Spec.present (filter_of req "email"))
          (Spec.present (filter_of req "status"))
          (Spec.present (filter_of req "utm_source")) with
  | Some name =>
      exists region params,
        snd (Search.run env true w req) = [DdbQuery region params]
        /\ IndexName params = name
  | None =>
      Search.run env true w req
      = (Ok (json 400 [("error",
               VStr "Provide at least one of: email, status, utm_source")]), [])
  end.
Proof.
  unfold Search.run, handler.
  rewrite Hget, Hauth, Hregion. cbn [String.eqb Ascii.eqb negb orb Bool.eqb].
  rewrite (or_default_present (DDB_TABLE env) (d := "StripeProtectionLeads"))
    by discriminate.
  cbn [negb orb].
  rewrite <- select_index
    with (dateFrom := if filter_of req "from" =? ""
                      then "0000-01-01T00:00:00.000Z" else filter_of req "from")
         (dateTo := if filter_of req "to" =? ""
                    then "9999-12-31T23:59:59.999Z" else filter_of req "to").
  destruct (select _ _ _ _ _) as [sel|]; simpl.
  - unfold try_catch, bind, ask, lift.
    destruct (query_output w _ _) as [out|]; simpl.
    + destruct (respond out); simpl; do 2 eexists; split; reflexivity.
    + do 2 eexists; split; reflexivity.
  - reflexivity.
Qed.

Lemma index_selection_precedence_witness :
  exists region params,
    snd (Search.run admin_env true one_item_world
           (search_request [("utm_source", "ads"); ("email", " a@b.com ")]))
    = [DdbQuery region params]
    /\ IndexName params = "byEmail".
Proof.
  exact (index_selection_precedence admin_env one_item_world
           (search_request [("utm_source", "ads"); ("email", " a@b.com ")])
           eq_refl eq_refl eq_refl).
Defined.

(** C3 (as stated) fails twice.  An authorized request without any filter
    is answered 500, not 400, when DynamoDB is not configured; and an
    [email] parameter that is not empty but blank does not select
    [byEmail]: the status index is read. *)
Lemma index_selection_exceptions :
  Admin.unauthorized unconfigured_env (search_request []) = false
  /\ Search.run unconfigured_env true silent_world (search_request [])
     = (Ok (json 500 [("error", VStr "DynamoDB not configured")]), [])
  /\ Admin.get "email" [("email", " "); ("status", "final")] = Some " "
  /\ Spec.queried_indexes
       (snd (Search.run admin_env true one_item_world
               (search_request [("email", " "); ("status", "final")])))
     = ["byStatusDate"].
Proof.
  repeat split; vm_compute; reflexivity.
Qed.

End IndexSelection.

(** ** Expressions that cannot throw *)

Section Expressions.
Import Js.
Local Open Scope js_scope.

Ltac settle E := repeat (progress (cbn; rewrite ?E)); reflexivity.

Ltac js_simpl :=
  cbn [land lor cond dot obind typeof_string lower is_string].

Lemma member_truthy (v : value) (k : string) :
  truthy v = true -> member v k = Ok (Spec.field v k).
Proof.
  unfold Spec.field. destruct v; simpl; try discriminate; reflexivity.
Qed.

Lemma member_object (ps : props) (k : string) :
  exists x, member (VObj ps) k = Ok x.
Proof. simpl. eexists. reflexivity. Qed.

(** [v && v.k] *)
Lemma guarded_member (v : value) (k : string) :
  ($v &&& $v ~> k) = Ok (Spec.guarded v k).
Proof.
  unfold Spec.guarded. cbn [land dot obind].
  destruct (truthy v) eqn:Hv; [apply member_truthy; exact Hv | reflexivity].
Qed.


(** [(v && v.k) || x] *)
Lemma guarded_or (v : value) (k : string) (x : value) :
  (($v &&& $v ~> k) ||| $x)
  = Ok (if truthy (Spec.guarded v k) then Spec.guarded v k else x).
Proof.
  unfold lor. rewrite guarded_member. js_simpl.
  destruct (truthy (Spec.guarded v k)); reflexivity.
Qed.

(** [(v && (v.k1 || v.k2)) || x] *)
Lemma guarded_either (v : value) (k1 k2 : string) (x : value) :
  exists r, (($v &&& ($v ~> k1 ||| $v ~> k2)) ||| $x) = Ok r.
Proof.
  js_simpl.
  destruct (truthy v) eqn:Hv.
  - rewrite !(member_truthy v _ Hv). js_simpl.
    destruct (truthy (Spec.field v k1)) eqn:H1; js_simpl.
    + rewrite H1. eexists; reflexivity.
    + destruct (truthy (Spec.field v k2)); eexists; reflexivity.
  - js_simpl. rewrite Hv. eexists; reflexivity.
Qed.

Lemma data_of_returns (payload : value) :
  exists d, Submit.data_of payload = Ok d.
Proof.
  unfold Submit.data_of, cond. rewrite guarded_member. js_simpl.
  unfold Spec.guarded.
  destruct (truthy payload) eqn:Hp.
  - destruct (truthy (Spec.field payload "data")).
    + rewrite (member_truthy payload "data" Hp).
      eexists; reflexivity.
    + eexists; reflexivity.
  - rewrite Hp. eexists; reflexivity.
Qed.

Lemma lower_empty (s : string) : Text.toLowerCase s = "" -> s = "".
Proof. destruct s; [reflexivity | discriminate]. Qed.

(** The handler's [status] is the supplied text in lower case, or
    ["final"]. *)
Lemma status_of_normal (payload : value) :
  Submit.status_of payload = Ok (VStr (Spec.normal_status payload)).
Proof.
  unfold Submit.status_of, Spec.normal_status, Spec.guarded, Spec.field.
  destruct payload as [| |b|m sc|s|xs|ps]; cbn; try reflexivity.
  - destruct b; reflexivity.
  - destruct (m =? 0)%Z eqn:E; settle E.
  - destruct s; reflexivity.
  - destruct (lookup "status" ps) as [[| |b|m sc|s|xs'|ps']|]; cbn;
      try reflexivity.
    destruct (Text.toLowerCase s =? "") eqn:E; settle E.
Qed.


(** The handler's [clientId] is the supplied [id] when that is a non-empty
    text, and [undefined] otherwise. *)
Lemma client_id_supplied (payload : value) :
  Submit.client_id payload
  = Ok (match Spec.supplied_id payload with
        | Some s => VStr s
        | None => VUndef
        end).
Proof.
  unfold Submit.client_id, Spec.supplied_id, Spec.guarded, Spec.field.
  destruct payload as [| |b|m sc|s|xs|ps]; cbn; try reflexivity.
  - destruct b; reflexivity.
  - destruct (m =? 0)%Z eqn:E; settle E.
  - destruct s; reflexivity.
  - destruct (lookup "id" ps) as [[| |b|m sc|s|xs'|ps']|]; cbn;
      try reflexivity.
    destruct (s =? "") eqn:E; settle E.
Qed.

End Expressions.

(** ** The stages of the ingestion *)

Section Stages.
Import Js Submit.
Local Open Scope js_scope.

Variables (env : Env) (sdk : sdk_load) (rt : Runtime) (w : World).
Variables (payload status : value) (doc : props).

Ltac io_simpl := cbv [bind lift try_catch send ask ret some_text].

Lemma bind_run {A B} (m : io A) (f : A -> io B) (t : list call) :
  bind m f t
  = match m t with
    | (Ok a, t') => f a t'
    | (Raise, t') => (Raise, t')
    end.
Proof. reflexivity. Qed.

Lemma pretty_object (ps : props) :
  exists text, Json.stringify_pretty (VObj ps) = Some text.
Proof. unfold Json.stringify_pretty. simpl. eexists. reflexivity. Qed.

(** The S3 block ends in one of four ways: not configured; the key could
    not be built; the write went through; the write was rejected. *)
Lemma store_cases (t : list call) :
  let region := text_of (AWS_REGION env) in
  let bucket := text_of (AWS_S3_BUCKET env) in
  store env sdk rt w payload status doc t = (Ok ("none", ""), t)
  \/ store env sdk rt w payload status doc t = (Ok ("error", ""), t)
  \/ exists key text,
       derive_key env rt payload status doc = Ok key
       /\ ((rejects w (S3Put region bucket key text) = false
            /\ store env sdk rt w payload status doc t
               = (Ok ("s3", key), (t ++ [S3Put region bucket key text])%list))
           \/ (rejects w (S3Put region bucket key text) = true
               /\ store env sdk rt w payload status doc t
                  = (Ok ("error", ""), (t ++ [S3Put region bucket key text])%list))).
Proof.
  intros region bucket. unfold store.
  destruct (_ && _ && _)%bool; [|left; reflexivity].
  destruct (pretty_object doc) as [text Htext]. rewrite Htext.
  destruct (derive_key env rt payload status doc) as [key|] eqn:Hkey.
  2:{ right; left; reflexivity. }
  right; right. exists key, text. split; [reflexivity|].
  fold region bucket. io_simpl.
  destruct (rejects w (S3Put region bucket key text)) eqn:Hrej.
  - right. split; reflexivity.
  - left. split; reflexivity.
Qed.

(** The DynamoDB block never throws; it sends at most one item, built from
    the key that the S3 block left. *)
Lemma index_cases (key : string) (t : list call) :
  index env sdk w payload doc key t = (Ok tt, t)
  \/ exists region table record,
       index_record payload doc key = Ok record
       /\ index env sdk w payload doc key t
          = (Ok tt, (t ++ [DdbPut region table record])%list).
Proof.
  unfold index.
  destruct (_ && _ && _)%bool; [|left; reflexivity].
  destruct (index_record payload doc key) as [record|]; [|left; reflexivity].
  right. do 3 eexists. split; [reflexivity|].
  io_simpl. destruct (rejects w _); reflexivity.
Qed.

(** The SES block never throws; it sends at most one message, whose text
    is built from the key that the S3 block left. *)
Lemma notify_cases (key : string) (t : list call) :
  notify env sdk w payload status doc key t = (Ok tt, t)
  \/ exists region recipient sender subject text,
       mail_body payload status doc key = Ok text
       /\ notify env sdk w payload status doc key t
          = (Ok tt, (t ++ [SesSend region recipient sender subject text])%list).
Proof.
  unfold notify.
  destruct (_ && _ && _ && _ && _)%bool; [|left; reflexivity].
  destruct (mail_subject payload) as [subject|]; [|left; reflexivity].
  destruct (mail_body payload status doc key) as [text|]; [|left; reflexivity].
  right. do 5 eexists. split; [reflexivity|].
  io_simpl. destruct (rejects w _); reflexivity.
Qed.


Lemma only_posts_refl (t : list call) : only_posts t t.
Proof. exists []. split; [now rewrite app_nil_r | reflexivity]. Qed.

Lemma only_posts_trans (t1 t2 t3 : list call) :
  only_posts t1 t2 -> only_posts t2 t3 -> only_posts t1 t3.
Proof.
  intros (m1 & -> & H1) (m2 & -> & H2).
  exists (m1 ++ m2)%list. split; [now rewrite app_assoc|].
  rewrite forallb_app, H1, H2. reflexivity.
Qed.

Lemma fetch_posts url headers text (t : list call) :
  exists r t', fetch rt w url headers text t = (r, t') /\ only_posts t t'.
Proof.
  unfold fetch. destruct (has_fetch rt).
  - unfold send. do 2 eexists. split; [reflexivity|].
    eexists. split; reflexivity.
  - do 2 eexists. split; [reflexivity | apply only_posts_refl].
Qed.

(** A CRM block inside its [try]: it never throws and only posts. *)
Lemma guarded_post (m : io unit) (t : list call) :
  (forall t0, exists r t', m t0 = (r, t') /\ only_posts t0 t') ->
  exists t', try_catch m (ret tt) t = (Ok tt, t') /\ only_posts t t'.
Proof.
  intros Hm. unfold try_catch.
  destruct (Hm t) as ([[]|] & t' & -> & Hposts); eexists; split;
    try reflexivity; exact Hposts.
Qed.

Lemma lift_then {A} (o : outcome A) (f : A -> io unit) (t : list call) :
  (forall a t0, exists r t', f a t0 = (r, t') /\ only_posts t0 t') ->
  exists r t', bind (lift o) f t = (r, t') /\ only_posts t t'.
Proof.
  intros Hf. rewrite bind_run. unfold lift.
  destruct o as [a|]; [apply Hf|].
  do 2 eexists. split; [reflexivity | apply only_posts_refl].
Qed.

Lemma hubspot_posts email first last phone company annual country (t : list call) :
  exists r t', hubspot env rt w email first last phone company annual country t
               = (r, t')
               /\ only_posts t t'.
Proof.
  unfold hubspot.
  apply lift_then. intros properties t0.
  apply lift_then. intros text t1.
  apply fetch_posts.
Qed.

Lemma close_posts email first last phone company (t : list call) :
  exists r t', close env rt w payload email first last phone company t = (r, t')
               /\ only_posts t t'.
Proof.
  unfold close.
  apply lift_then. intros full t0.
  apply lift_then. intros name t1.
  apply lift_then. intros contact_name t2.
  apply lift_then. intros source t3.
  apply lift_then. intros text t4.
  apply fetch_posts.
Qed.

(** The CRM stage never throws, and what it sends are HTTP posts. *)
Lemma crm_posts (t : list call) :
  exists t', crm env rt w payload status t = (Ok tt, t') /\ only_posts t t'.
Proof.
  unfold crm.
  destruct (is_final status).
  2:{ eexists. split; [reflexivity | apply only_posts_refl]. }
  destruct (data_of_returns payload) as [data ->].
  rewrite bind_run. unfold lift at 1.
  repeat (rewrite guarded_or; rewrite bind_run; unfold lift at 1).
  destruct (guarded_either data "name" "company_name" (VStr "")) as [company ->].
  rewrite bind_run. unfold lift at 1.
  repeat (rewrite guarded_or; rewrite bind_run; unfold lift at 1).
  rewrite bind_run.
  match goal with
  | |- context [if set (HUBSPOT_TOKEN env) then try_catch ?m _ else _] =>
      assert (Hh : exists t', (if set (HUBSPOT_TOKEN env)
                               then try_catch m (ret tt) else ret tt) t
                              = (Ok tt, t') /\ only_posts t t')
  end.
  { destruct (set (HUBSPOT_TOKEN env)).
    - apply guarded_post. intros t0. apply hubspot_posts.
    - eexists. split; [reflexivity | apply only_posts_refl]. }
  destruct Hh as (t1 & -> & H1).
  match goal with
  | |- context [if set (CLOSE_API_KEY env) then try_catch ?m _ else _] =>
      assert (Hc : exists t', (if set (CLOSE_API_KEY env)
                               then try_catch m (ret tt) else ret tt) t1
                              = (Ok tt, t') /\ only_posts t1 t')
  end.
  { destruct (set (CLOSE_API_KEY env)).
    - apply guarded_post. intros t0. apply close_posts.
    - eexists. split; [reflexivity | apply only_posts_refl]. }
  destruct Hc as (t2 & -> & H2).
  exists t2. split; [reflexivity | eapply only_posts_trans; eassumption].
Qed.

End Stages.

(** ** Texts *)

Section TextFacts.
Import Text.

Lemma append_assoc (a b c : string) : (a ++ b) ++ c = a ++ (b ++ c).
Proof. induction a as [|x a IH]; simpl; [reflexivity | now rewrite IH]. Qed.

Lemma append_empty (a : string) : a ++ "" = a.
Proof. induction a as [|x a IH]; simpl; [reflexivity | now rewrite IH]. Qed.

Lemma append_length (a b : string) :
  String.length (a ++ b) = String.length a + String.length b.
Proof. induction a as [|x a IH]; simpl; [reflexivity | now rewrite IH]. Qed.

Lemma rev_onto_append (s acc : string) : rev_onto s acc = rev s ++ acc.
Proof.
  unfold rev. revert acc.
  induction s as [|c s IH]; intros acc; simpl; [reflexivity|].
  rewrite IH, (IH (String c "")), append_assoc. reflexivity.
Qed.

Lemma rev_append (a b : string) : rev (a ++ b) = rev b ++ rev a.
Proof.
  unfold rev. generalize EmptyString at 1 3.
  induction a as [|c a IH]; intros acc; simpl.
  - now rewrite rev_onto_append.
  - rewrite IH. reflexivity.
Qed.

Lemma rev_cons (c : ascii) (s : string) : rev (String c s) = rev s ++ String c "".
Proof. unfold rev. simpl. apply rev_onto_append. Qed.

Lemma rev_involutive (s : string) : rev (rev s) = s.
Proof.
  induction s as [|c s IH]; [reflexivity|].
  rewrite rev_cons, rev_append, IH. reflexivity.
Qed.

End TextFacts.

(** ** The index record *)

Section IndexRecord.
Import Js Submit.
Local Open Scope js_scope.

Lemma obind_ok {A B} (m : outcome A) (f : A -> outcome B) (b : B) :
  obind m f = Ok b -> exists a, m = Ok a /\ f a = Ok b.
Proof.
  destruct m as [a|]; simpl; [|discriminate].
  intros H. exists a. split; [reflexivity | exact H].
Qed.

Lemma String_text (e : outcome value) (v : value) :
  String_ e = Ok v -> exists s, v = VStr s.
Proof.
  unfold String_. intros H.
  apply obind_ok in H. destruct H as (x & _ & H).
  apply obind_ok in H. destruct H as (s & _ & H).
  injection H as <-. exists s. reflexivity.
Qed.

Lemma String_of_text (s : string) : String_ ($(VStr s)) = Ok (VStr s).
Proof. reflexivity. Qed.

Lemma key_or_empty (key : string) :
  String_ ($(VStr key) ||| $(VStr "")) = Ok (VStr key).
Proof.
  cbn [lor obind truthy]. destruct (key =? "") eqn:E; simpl.
  - apply String.eqb_eq in E. subst. reflexivity.
  - reflexivity.
Qed.

(** What the DynamoDB block builds, field by field. *)
Lemma index_record_fields (payload : value) (doc : props) (key : string)
    (record : props) :
  index_record payload doc key = Ok record ->
  exists data id status received_at email utm_source first_name last_name
         phone company website industry,
    data_of payload = Ok data
    /\ member (VObj doc) "id" = Ok id
    /\ String_ ($(VObj doc) ~> "status" ||| $(VStr "final")) = Ok (VStr status)
    /\ member (VObj doc) "received_at" = Ok received_at
    /\ String_ (($data &&& $data ~> "email") ||| $(VStr "")) = Ok (VStr email)
    /\ String_ (($data &&& $data ~> "utm_data"
                   &&& $data ~> "utm_data" ~> "utm_source")
                ||| $(VStr "direct")) = Ok (VStr utm_source)
    /\ String_ (($data &&& $data ~> "first_name") ||| $(VStr ""))
       = Ok (VStr first_name)
    /\ String_ (($data &&& $data ~> "last_name") ||| $(VStr ""))
       = Ok (VStr last_name)
    /\ String_ (($data &&& $data ~> "phone") ||| $(VStr "")) = Ok (VStr phone)
    /\ String_ (($data &&& ($data ~> "name" ||| $data ~> "company_name"))
                ||| $(VStr "")) = Ok (VStr company)
    /\ String_ (($data &&& $data ~> "website") ||| $(VStr "")) = Ok (VStr website)
    /\ String_ (($data &&& $data ~> "industry") ||| $(VStr ""))
       = Ok (VStr industry)
    /\ record
       = [ ("id", id); ("status", VStr status); ("received_at", received_at);
           ("email", VStr email); ("utm_source", VStr utm_source);
           ("s3_key", VStr key); ("first_name", VStr first_name);
           ("last_name", VStr last_name); ("phone", VStr phone);
           ("company", VStr company); ("website", VStr website);
           ("industry", VStr industry) ].
Proof.
  unfold index_record. intros H.
  apply obind_ok in H. destruct H as (data & Hdata & H).
  apply obind_ok in H. destruct H as (id & Hid & H).
  apply obind_ok in H. destruct H as (status & Hstatus & H).
  apply obind_ok in H. destruct H as (received & Hreceived & H).
  apply obind_ok in H. destruct H as (email & Hemail & H).
  apply obind_ok in H. destruct H as (utm & Hutm & H).
  apply obind_ok in H. destruct H as (s3 & Hs3 & H).
  apply obind_ok in H. destruct H as (first & Hfirst & H).
  apply obind_ok in H. destruct H as (last & Hlast & H).
  apply obind_ok in H. destruct H as (phone & Hphone & H).
  apply obind_ok in H. destruct H as (company & Hcompany & H).
  apply obind_ok in H. destruct H as (website & Hwebsite & H).
  apply obind_ok in H. destruct H as (industry & Hindustry & H).
  rewrite key_or_empty in Hs3. injection Hs3 as <-.
  destruct (String_text _ Hstatus) as [? ->].
  destruct (String_text _ Hemail) as [? ->].
  destruct (String_text _ Hutm) as [? ->].
  destruct (String_text _ Hfirst) as [? ->].
  destruct (String_text _ Hlast) as [? ->].
  destruct (String_text _ Hphone) as [? ->].
  destruct (String_text _ Hcompany) as [? ->].
  destruct (String_text _ Hwebsite) as [? ->].
  destruct (String_text _ Hindustry) as [? ->].
  injection H as <-.
  do 12 eexists.
  repeat (split; [eassumption|]).
  reflexivity.
Qed.

Lemma index_record_key (payload : value) (doc : props) (key : string)
    (record : props) :
  index_record payload doc key = Ok record ->
  lookup "s3_key" record = Some (VStr key).
Proof.
  intros H. apply index_record_fields in H.
  destruct H as (? & ? & ? & ? & ? & ? & ? & ? & ? & ? & ? & ? & H).
  destruct H as (_ & _ & _ & _ & _ & _ & _ & _ & _ & _ & _ & _ & ->).
  reflexivity.
Qed.

(** The text of the notification names the key, or [(none)] when the key
    is empty. *)
Lemma mail_body_key (payload status : value) (doc : props) (key text : string) :
  mail_body payload status doc key = Ok text ->
  exists before after,
    text = before ++ "Key: " ++ (if key =? "" then "(none)" else key)
           ++ nl ++ after.
Proof.
  unfold mail_body. intros H.
  apply obind_ok in H. destruct H as (st & _ & H).
  apply obind_ok in H. destruct H as (k & Hk & H).
  apply obind_ok in H. destruct H as (id & _ & H).
  apply obind_ok in H. destruct H as (time & _ & H).
  apply obind_ok in H. destruct H as (ip & _ & H).
  apply obind_ok in H. destruct H as (ua & _ & H).
  apply obind_ok in H. destruct H as (dump & _ & H).
  injection H as <-.
  assert (k = if key =? "" then "(none)" else key) as ->.
  { revert Hk. cbn [lor obind truthy]. destruct (key =? ""); simpl; congruence. }
  exists ("New lead captured (status: " ++ st ++ ")." ++ nl ++ nl).
  eexists.
  rewrite !append_assoc. reflexivity.
Qed.

End IndexRecord.


(** ** The terminal response of the ingestion *)

Section Ingestion.
Import Js Submit.
Local Open Scope js_scope.

Lemma in_posts (t t' : list call) (c : call) :
  only_posts t t' -> In c t' -> In c t \/ Spec.is_http_post c = true.
Proof.
  intros (more & -> & Hmore) Hin.
  apply in_app_or in Hin. destruct Hin as [Hin|Hin]; [left; exact Hin|].
  right. rewrite forallb_forall in Hmore. apply Hmore. exact Hin.
Qed.


(** The stages after the S3 block: none of them throws, and the answer is
    200 with the outcome of the S3 block. *)
Lemma later_stages (env : Env) (sdk : sdk_load) (rt : Runtime) (w : World)
    (payload status : value) (doc : props) (doc_id doc_status : value)
    (stored key : string) (t1 : list call) :
  member (VObj doc) "id" = Ok doc_id ->
  member (VObj doc) "status" = Ok doc_status ->
  exists calls,
    (index env sdk w payload doc key;;;
     notify env sdk w payload status doc key;;;
     crm env rt w payload status;;;
     doc_id <~ lift ($(VObj doc) ~> "id");;
     doc_status <~ lift ($(VObj doc) ~> "status");;
     ret (json 200 [ ("ok", VBool true); ("stored", VStr stored);
                     ("key", VStr key); ("id", doc_id);
                     ("status", doc_status) ]))%io t1
    = (Ok (json 200 [ ("ok", VBool true); ("stored", VStr stored);
                      ("key", VStr key); ("id", doc_id);
                      ("status", doc_status) ]), calls)
    /\ (forall c, In c calls -> sent_by payload status doc key t1 c).
Proof.
  intros Hdoc_id Hdoc_status. unfold sent_by.
  assert (Hindex : exists t2,
    index env sdk w payload doc key t1 = (Ok tt, t2)
    /\ forall c, In c t2 -> In c t1
         \/ exists region table record,
              c = DdbPut region table record
              /\ index_record payload doc key = Ok record).
  { destruct (index_cases env sdk w payload doc key t1)
      as [->|(region & table & record & Hrec & ->)].
    - eexists. split; [reflexivity|]. intros c Hc. left. exact Hc.
    - eexists. split; [reflexivity|]. intros c Hc.
      apply in_app_or in Hc. destruct Hc as [Hc|[<-|[]]]; [left; exact Hc|].
      right. do 3 eexists. split; [reflexivity | exact Hrec]. }
  destruct Hindex as (t2 & Hindex & Ht2).
  assert (Hnotify : exists t3,
    notify env sdk w payload status doc key t2 = (Ok tt, t3)
    /\ forall c, In c t3 -> In c t2
         \/ exists region recipient sender subject text,
              c = SesSend region recipient sender subject text
              /\ mail_body payload status doc key = Ok text).
  { destruct (notify_cases env sdk w payload status doc key t2)
      as [->|(region & recipient & sender & subject & text & Hbody & ->)].
    - eexists. split; [reflexivity|]. intros c Hc. left. exact Hc.
    - eexists. split; [reflexivity|]. intros c Hc.
      apply in_app_or in Hc. destruct Hc as [Hc|[<-|[]]]; [left; exact Hc|].
      right. do 5 eexists. split; [reflexivity | exact Hbody]. }
  destruct Hnotify as (t3 & Hnotify & Ht3).
  destruct (crm_posts env rt w payload status t3) as (t4 & Hcrm & Ht4).
  exists t4. split.
  { cbv [bind lift ret fst snd dot obind].
    rewrite Hindex, Hnotify, Hcrm, Hdoc_id, Hdoc_status. reflexivity. }
  intros c Hc.
  destruct (@in_posts _ _ c Ht4 Hc) as [Hc3|Hpost']; [|auto].
  destruct (Ht3 c Hc3) as [Hc2|Hses]; [|auto].
  destruct (Ht2 c Hc2) as [Hc1|Hddb]; auto.
Qed.

(** A POST run, stage by stage: the document, the S3 block, and the
    answer with the calls of the log. *)
Lemma run_stages (env : Env) (sdk : sdk_load) (rt : Runtime) (w : World)
    (req : Request) :
  method req = "POST" ->
  exists id doc_id doc_status stored key t1 calls,
    let status := VStr (Spec.normal_status (payload req)) in
    let doc := document rt req id status in
    ($(match Spec.supplied_id (payload req) with
       | Some s => VStr s
       | None => VUndef
       end) ||| $(VStr (uuid rt))) = Ok id
    /\ member (VObj doc) "id" = Ok doc_id
    /\ member (VObj doc) "status" = Ok doc_status
    /\ store env sdk rt w (payload req) status doc [] = (Ok (stored, key), t1)
    /\ Submit.run env sdk rt w req
       = (Ok (json 200 [ ("ok", VBool true); ("stored", VStr stored);
                         ("key", VStr key); ("id", doc_id);
                         ("status", doc_status) ]), calls)
    /\ (forall c, In c calls -> sent_by (payload req) status doc key t1 c).
Proof.
  intros Hpost.
  unfold Submit.run, handler. rewrite Hpost.
  change ("POST" =? "OPTIONS") with false.
  change (negb ("POST" =? "POST")) with false. cbv iota.
  rewrite client_id_supplied, status_of_normal.
  remember (VStr (Spec.normal_status (payload req))) as status eqn:Hstatus.
  remember (match Spec.supplied_id (payload req) with
            | Some s => VStr s
            | None => VUndef
            end) as clientId eqn:HclientId.
  assert (Hid : exists id, ($clientId ||| $(VStr (uuid rt))) = Ok id).
  { cbn [lor obind]. destruct (truthy clientId); eexists; reflexivity. }
  destruct Hid as [id Hid].
  cbv [bind lift ret fst snd]. rewrite Hid. cbv beta iota zeta.
  remember (document rt req id status) as doc eqn:Hdoc.
  destruct (member_object doc "id") as [doc_id Hdoc_id].
  destruct (member_object doc "status") as [doc_status Hdoc_status].
  assert (Hstore : exists stored key t1,
    store env sdk rt w (payload req) status doc [] = (Ok (stored, key), t1)).
  { destruct (store_cases env sdk rt w (payload req) status doc [])
      as [Hs|[Hs|(key & text & _ & [[_ Hs]|[_ Hs]])]];
      rewrite Hs; do 3 eexists; reflexivity. }
  destruct Hstore as (stored & key & t1 & Hs).
  destruct (later_stages env sdk rt w (payload req) status stored key t1
              Hdoc_id Hdoc_status) as (calls & Hrun & Hcalls).
  rewrite Hs. cbv [bind lift ret fst snd] in Hrun.
  subst doc status clientId.
  exists id, doc_id, doc_status, stored, key, t1, calls.
  cbv zeta. repeat split; assumption.
Qed.

(** C1.  Every POST is answered 200 with
    [{ ok: true, stored, key, id, status }], whatever the sinks do.  [stored]
    is ["none"], ["s3"] or ["error"], and [key] is empty unless [stored] is
    ["s3"].  When the storage write is rejected, [stored] is ["error"] and
    [key] is empty; the index record sent afterwards carries that [key] as
    its [s3_key], and the notification text is built from it (an empty key
    reads [(none)]). *)
Theorem submit_always_answers_200
    (env : Env) (sdk : sdk_load) (rt : Runtime) (w : World) (req : Request)
    (Hpost : method req = "POST") :
  exists stored key id status calls,
    Submit.run env sdk rt w req
    = (Ok (json 200 [ ("ok", VBool true); ("stored", VStr stored);
                      ("key", VStr key); ("id", id); ("status", status) ]),
       calls)
    /\ ((stored = "none" /\ key = "") \/ stored = "s3"
        \/ (stored = "error" /\ key = ""))
    /\ (forall region bucket k text,
          In (S3Put region bucket k text) calls ->
          rejects w (S3Put region bucket k text) = true ->
          stored = "error" /\ key = "")
    /\ (forall region table record,
          In (DdbPut region table record) calls ->
          lookup "s3_key" record = Some (VStr key))
    /\ (forall region recipient sender subject text,
          In (SesSend region recipient sender subject text) calls ->
          exists before after,
            text = before ++ "Key: " ++ (if key =? "" then "(none)" else key)
                   ++ nl ++ after).
Proof.
  destruct (run_stages env sdk rt w req Hpost)
    as (id & doc_id & doc_status & stored & key & t1 & calls & H).
  cbv zeta in H.
  destruct H as (_ & _ & _ & Hs & Hrun & Hcalls).
  set (status := VStr (Spec.normal_status (payload req))) in *.
  set (doc := document rt req id status) in *.
  exists stored, key, doc_id, doc_status, calls.
  split; [exact Hrun|].
  assert (Hddb : forall region table record,
            In (DdbPut region table record) calls ->
            lookup "s3_key" record = Some (VStr key)).
  { intros region table record Hin.
    destruct (Hcalls _ Hin) as [H|[H|[H|H]]].
    - destruct (store_cases env sdk rt w (payload req) status doc [])
        as [Hc|[Hc|(k & text & _ & [[_ Hc]|[_ Hc]])]];
        rewrite Hc in Hs; injection Hs as <- <- <-;
        repeat (destruct H as [H|H]; try discriminate H); destruct H.
    - discriminate.
    - destruct H as (? & ? & ? & [= -> -> ->] & H).
      eapply index_record_key. exact H.
    - destruct H as (? & ? & ? & ? & ? & ? & _). discriminate. }
  assert (Hses : forall region recipient sender subject text,
            In (SesSend region recipient sender subject text) calls ->
            exists before after,
              text = before ++ "Key: " ++ (if key =? "" then "(none)" else key)
                     ++ nl ++ after).
  { intros region recipient sender subject text Hin.
    destruct (Hcalls _ Hin) as [H|[H|[H|H]]].
    - destruct (store_cases env sdk rt w (payload req) status doc [])
        as [Hc|[Hc|(k & text' & _ & [[_ Hc]|[_ Hc]])]];
        rewrite Hc in Hs; injection Hs as <- <- <-;
        repeat (destruct H as [H|H]; try discriminate H); destruct H.
    - discriminate.
    - destruct H as (? & ? & ? & ? & _). discriminate.
    - destruct H as (? & ? & ? & ? & ? & [= -> -> -> -> ->] & H).
      eapply mail_body_key. exact H. }
  assert (Hs3 : forall region bucket k text,
            In (S3Put region bucket k text) calls ->
            In (S3Put region bucket k text) t1).
  { intros region bucket k text Hin.
    destruct (Hcalls _ Hin) as [H|[H|[H|H]]].
    - exact H.
    - discriminate.
    - destruct H as (? & ? & ? & ? & _). discriminate.
    - destruct H as (? & ? & ? & ? & ? & ? & _). discriminate. }
  destruct (store_cases env sdk rt w (payload req) status doc [])
    as [Hc|[Hc|(k & text & _ & [[Hrej Hc]|[Hrej Hc]])]];
    rewrite Hc in Hs; injection Hs as <- <- <-.
  - split; [left; split; reflexivity|].
    split; [|split; assumption].
    intros region bucket k text Hin _. destruct (Hs3 _ _ _ _ Hin).
  - split; [right; right; split; reflexivity|].
    split; [|split; assumption].
    intros region bucket k text Hin _. destruct (Hs3 _ _ _ _ Hin).
  - split; [right; left; reflexivity|].
    split; [|split; assumption].
    intros region bucket k' text' Hin Hrej'.
    destruct (Hs3 _ _ _ _ Hin) as [H|[]]. rewrite <- H in Hrej'.
    rewrite Hrej in Hrej'. discriminate Hrej'.
  - split; [right; right; split; reflexivity|].
    split; [|split; assumption].
    intros; split; reflexivity.
Qed.

Lemma submit_always_answers_200_witness :
  exists stored key id status calls,
    Submit.run full_env AllSdk sample_runtime storage_down (post lead)
    = (Ok (json 200 [ ("ok", VBool true); ("stored", VStr stored);
                      ("key", VStr key); ("id", id); ("status", status) ]),
       calls)
    /\ ((stored = "none" /\ key = "") \/ stored = "s3"
        \/ (stored = "error" /\ key = ""))
    /\ (forall region bucket k text,
          In (S3Put region bucket k text) calls ->
          rejects storage_down (S3Put region bucket k text) = true ->
          stored = "error" /\ key = "")
    /\ (forall region table record,
          In (DdbPut region table record) calls ->
          lookup "s3_key" record = Some (VStr key))
    /\ (forall region recipient sender subject text,
          In (SesSend region recipient sender subject text) calls ->
          exists before after,
            text = before ++ "Key: " ++ (if key =? "" then "(none)" else key)
                   ++ nl ++ after).
Proof.
  exact (submit_always_answers_200 full_env AllSdk sample_runtime storage_down
           (post lead) eq_refl).
Defined.

(** The same request, run: the write is rejected, the answer is still 200
    with [stored: "error"] and an empty key, and the index record that
    follows has an empty [s3_key]. *)
Example rejected_write_run :
  fst (Submit.run full_env AllSdk sample_runtime storage_down (post lead))
  = Ok (json 200 [ ("ok", VBool true); ("stored", VStr "error");
                   ("key", VStr "");
                   ("id", VStr "01234567-89ab-4cde-b012-3456789abcde");
                   ("status", VStr "final") ])
  /\ map (fun c => match c with
                   | DdbPut _ _ record => lookup "s3_key" record
                   | _ => None
                   end)
       (snd (Submit.run full_env AllSdk sample_runtime storage_down (post lead)))
     = [ None; Some (VStr ""); None; None; None ].
Proof. split; vm_compute; reflexivity. Qed.

End Ingestion.

(** ** The secondary-index record *)

Section IndexProjection.
Import Js Submit.
Local Open Scope js_scope.





End IndexProjection.

(** ** Slugs *)

Section Slugs.
Import Text Spec.

Lemma collapse_leading (s : string) :
  collapse_from false s
  = (if leading_gap s then "-" else "") ++ collapse_from true s.
Proof.
  destruct s as [|c r]; simpl; [reflexivity|].
  destruct (is_lower_alnum c); reflexivity.
Qed.

Lemma strip_leading_collapse (s : string) :
  strip_leading_hyphen (collapse s) = collapse_from true s.
Proof.
  unfold collapse. rewrite collapse_leading.
  destruct s as [|c r]; simpl; [reflexivity|].
  destruct (is_lower_alnum c) eqn:Hc; simpl; [|reflexivity].
  destruct c as [[] [] [] [] [] [] [] []]; try reflexivity; discriminate Hc.
Qed.


(** The head run and the later runs are made of [a-z0-9], and the later
    runs are not empty. *)
Lemma runs_alnum (s : string) :
  alnum (fst (runs s))
  /\ Forall (fun w => w <> "" /\ alnum w) (snd (runs s)).
Proof.
  induction s as [|c r [IHh IHt]]; simpl.
  - split; [intros c [] | constructor].
  - destruct (runs r) as [h t]. simpl in *.
    destruct (is_lower_alnum c) eqn:Hc; simpl.
    + split; [|exact IHt].
      intros x [<-|Hx]; [exact Hc | apply IHh; exact Hx].
    + split; [intros x []|].
      destruct (h =? "") eqn:Hh; [exact IHt|].
      constructor; [|exact IHt].
      split; [apply String.eqb_neq; exact Hh | exact IHh].
Qed.

Lemma words_alnum (s : string) :
  Forall (fun w => w <> "" /\ alnum w) (words s).
Proof.
  unfold words. pose proof (runs_alnum s) as [Hh Ht].
  destruct (runs s) as [h t]. simpl in *.
  destruct (h =? "") eqn:E; [exact Ht|].
  constructor; [|exact Ht].
  split; [apply String.eqb_neq; exact E | exact Hh].
Qed.

Lemma words_cons_alnum (c : ascii) (r : string) :
  is_lower_alnum c = true ->
  words (String c r)
  = String c (fst (runs r)) :: snd (runs r).
Proof.
  intros Hc. unfold words. simpl. destruct (runs r) as [h t].
  rewrite Hc. reflexivity.
Qed.

Lemma words_cons_gap (c : ascii) (r : string) :
  is_lower_alnum c = false -> words (String c r) = words r.
Proof.
  intros Hc. unfold words. simpl. destruct (runs r) as [h t].
  rewrite Hc. simpl. reflexivity.
Qed.

Lemma runs_head_gap (r : string) :
  leading_gap r = true -> fst (runs r) = "".
Proof.
  destruct r as [|c r]; simpl; [discriminate|].
  destruct (runs r). destruct (is_lower_alnum c); [discriminate | reflexivity].
Qed.

Lemma runs_head_alnum (c : ascii) (r : string) :
  is_lower_alnum c = true -> fst (runs (String c r)) <> "".
Proof.
  intros Hc. simpl. destruct (runs r). rewrite Hc. discriminate.
Qed.


(** With the leading gap gone, what is left is the words joined by
    hyphens, and one more hyphen when the text ends in a gap. *)
Lemma collapse_words (s : string) :
  collapse_from true s = join "-" (words s) ++ closing s.
Proof.
  induction s as [|c r IH]; [reflexivity|].
  unfold closing in *. simpl collapse_from.
  destruct (is_lower_alnum c) eqn:Hc.
  - rewrite collapse_leading, IH, (@words_cons_alnum c r Hc).
    destruct r as [|d r']; [simpl; rewrite Hc; reflexivity|].
    change (trailing_gap (String c (String d r')))
      with (trailing_gap (String d r')).
    destruct (leading_gap (String d r')) eqn:Hlead.
    + assert (Hd : is_lower_alnum d = false).
      { simpl in Hlead. now apply negb_true_iff in Hlead. }
      unfold words. rewrite (@runs_head_gap _ Hlead).
      destruct (runs (String d r')) as [h t] eqn:Hruns. simpl.
      assert (h = "") as -> by (pose proof (@runs_head_gap _ Hlead) as E;
                                rewrite Hruns in E; exact E).
      simpl. destruct t as [|w t'].
      * simpl.
        assert (Hgap : trailing_gap (String d r') = true).
        { clear IH Hlead. revert d Hd Hruns.
          induction r' as [|e r'' IHr]; intros d Hd Hruns.
          - simpl. rewrite Hd. reflexivity.
          - change (trailing_gap (String d (String e r'')))
              with (trailing_gap (String e r'')).
            simpl in Hruns. destruct (runs r'') as [h2 t2] eqn:Hr2.
            destruct (is_lower_alnum e) eqn:He.
            + rewrite Hd in Hruns. simpl in Hruns. discriminate Hruns.
            + apply (IHr e He). simpl. rewrite Hr2, He.
              rewrite Hd in Hruns. simpl in Hruns.
              destruct (h2 =? ""); [|discriminate Hruns].
              injection Hruns as <-. reflexivity. }
        simpl in Hgap. rewrite Hgap. reflexivity.
      * simpl. reflexivity.
    + assert (Hd : is_lower_alnum d = true).
      { simpl in Hlead. now apply negb_false_iff in Hlead. }
      unfold words.
      pose proof (@runs_head_alnum d r' Hd) as Hne.
      destruct (runs (String d r')) as [h t]. simpl in *.
      destruct (h =? "") eqn:E; [apply String.eqb_eq in E; contradiction|].
      simpl. destruct t; reflexivity.
  - rewrite IH, (@words_cons_gap c r Hc).
    destruct r as [|d r']; [reflexivity|].
    reflexivity.
Qed.

Lemma join_last (ws : list string) :
  Forall (fun w => w <> "" /\ alnum w) ws ->
  ws <> [] ->
  exists x c, join "-" ws = x ++ String c "" /\ is_lower_alnum c = true.
Proof.
  induction 1 as [|w rest [Hne Hal] Hrest IH]; [congruence|]. intros _.
  destruct rest as [|w' rest'].
  - simpl. clear IH Hrest.
    induction w as [|a w IHw]; [congruence|].
    destruct w as [|b w'].
    + exists "", a. split; [reflexivity|]. apply Hal. left. reflexivity.
    + destruct IHw as (x & c & E & Hc); [discriminate | |].
      { intros z Hz. apply Hal. right. exact Hz. }
      exists (String a x), c. split; [simpl; rewrite E; reflexivity | exact Hc].
  - destruct IH as (x & c & E & Hc); [discriminate|].
    exists (w ++ "-" ++ x), c. split; [|exact Hc].
    change (join "-" (w :: w' :: rest')) with (w ++ "-" ++ join "-" (w' :: rest')).
    rewrite E, !append_assoc. reflexivity.
Qed.

Lemma hyphen_not_alnum : is_lower_alnum "-" = false.
Proof. reflexivity. Qed.

Lemma strip_trailing_words (s : string) :
  strip_trailing_hyphen (join "-" (words s) ++ closing s) = join "-" (words s).
Proof.
  unfold strip_trailing_hyphen, closing.
  pose proof (words_alnum s) as Hw.
  destruct (words s) as [|w ws] eqn:E; [reflexivity|].
  destruct (join_last Hw) as (x & c & Hj & Hc); [discriminate|].
  destruct (trailing_gap s).
  - rewrite rev_append. simpl. apply rev_involutive.
  - rewrite append_empty, Hj, rev_append. simpl.
    destruct c as [[] [] [] [] [] [] [] []]; try discriminate Hc;
      simpl; rewrite <- (rev_involutive (x ++ _)), rev_append; reflexivity.
Qed.

(** The code's three replacements leave the alphanumeric runs joined by
    single hyphens. *)
Lemma strip_collapse_words (s : string) :
  strip_hyphens (collapse s) = join "-" (words s).
Proof.
  unfold strip_hyphens.
  rewrite strip_leading_collapse, collapse_words.
  apply strip_trailing_words.
Qed.

Lemma join_words_empty (s : string) :
  join "-" (words s) = "" -> words s = [].
Proof.
  pose proof (words_alnum s) as Hw.
  destruct (words s) as [|w ws]; [reflexivity|].
  intros E. destruct (join_last Hw) as (x & c & Hj & _); [discriminate|].
  rewrite E in Hj. destruct x; discriminate Hj.
Qed.

(** [slug] of a value that is not falsy is the slug of its text, as the
    specification words it. *)
Lemma slug_refines (v : Js.value) (text fallback : string) :
  Js.truthy v = true ->
  Js.to_string v = Ok text ->
  Submit.slug (Ok v) fallback = Ok (slugify text fallback).
Proof.
  intros Hv Htext. unfold Submit.slug, slugify. cbn [obind].
  rewrite Hv, Htext. cbn [negb obind].
  rewrite strip_collapse_words.
  destruct (words (toLowerCase text)) as [|w ws] eqn:E; [reflexivity|].
  destruct (join "-" (w :: ws) =? "") eqn:Hj; [|reflexivity].
  apply String.eqb_eq in Hj. rewrite <- E in Hj.
  apply join_words_empty in Hj. congruence.
Qed.

End Slugs.

(** ** The storage key *)

Section StorageKey.
Import Js Submit.
Local Open Scope js_scope.




End StorageKey.

(** ** What the spread leaves of the server's fields *)

Section DocumentFields.
Import Js Submit.
Local Open Scope js_scope.

Lemma lookup_replace_same (k : string) (v : value) (ps : props) :
  has_key k ps = true -> lookup k (replace k v ps) = Some v.
Proof.
  unfold has_key. induction ps as [|[k' v'] ps IH]; simpl; [discriminate|].
  destruct (k' =? k) eqn:E; simpl; rewrite E; [reflexivity | exact IH].
Qed.

Lemma lookup_replace_other (k k' : string) (v : value) (ps : props) :
  k <> k' -> lookup k' (replace k v ps) = lookup k' ps.
Proof.
  intros Hk. induction ps as [|[j x] ps IH]; simpl; [reflexivity|].
  destruct (j =? k) eqn:E; simpl.
  - apply String.eqb_eq in E. subst j.
    apply String.eqb_neq in Hk. rewrite Hk. reflexivity.
  - destruct (j =? k'); [reflexivity | exact IH].
Qed.

Lemma lookup_insert_same (i : N) (k : string) (v : value) (ps : props) :
  has_key k ps = false -> lookup k (insert_index i k v ps) = Some v.
Proof.
  unfold has_key. induction ps as [|[j x] ps IH]; simpl; intros H.
  - now rewrite String.eqb_refl.
  - destruct (j =? k) eqn:E; [discriminate H|].
    destruct (array_index j) as [n|]; [destruct (n <? i)%N|]; simpl;
      rewrite ?E, ?String.eqb_refl; auto.
Qed.

Lemma lookup_insert_other (i : N) (k k' : string) (v : value) (ps : props) :
  k <> k' -> lookup k' (insert_index i k v ps) = lookup k' ps.
Proof.
  intros Hk. apply String.eqb_neq in Hk.
  induction ps as [|[j x] ps IH]; simpl.
  - now rewrite Hk.
  - destruct (array_index j) as [n|]; [destruct (n <? i)%N|]; simpl;
      rewrite ?Hk, ?IH; reflexivity.
Qed.

Lemma lookup_app (k : string) (ps qs : props) :
  lookup k (ps ++ qs)%list
  = match lookup k ps with
    | Some v => Some v
    | None => lookup k qs
    end.
Proof.
  induction ps as [|[j x] ps IH]; simpl; [reflexivity|].
  destruct (j =? k); [reflexivity | exact IH].
Qed.

Lemma lookup_obj_set_same (k : string) (v : value) (ps : props) :
  lookup k (obj_set k v ps) = Some v.
Proof.
  unfold obj_set. destruct (has_key k ps) eqn:H.
  - now apply lookup_replace_same.
  - destruct (array_index k) as [i|].
    + now apply lookup_insert_same.
    + rewrite lookup_app. unfold has_key in H.
      destruct (lookup k ps); [discriminate H|].
      simpl. now rewrite String.eqb_refl.
Qed.

Lemma lookup_obj_set_other (k k' : string) (v : value) (ps : props) :
  k <> k' -> lookup k' (obj_set k v ps) = lookup k' ps.
Proof.
  intros Hk. unfold obj_set. destruct (has_key k ps).
  - now apply lookup_replace_other.
  - destruct (array_index k) as [i|].
    + now apply lookup_insert_other.
    + rewrite lookup_app. simpl.
      apply String.eqb_neq in Hk. rewrite Hk.
      destruct (lookup k' ps); reflexivity.
Qed.

(** After a run of assignments a key holds what the last assignment to it
    gave, or what it held before. *)
Lemma lookup_assignments (k : string) (qs : props) :
  forall target,
    lookup k (fold_left (fun acc kv => obj_set (fst kv) (snd kv) acc) qs target)
    = match lookup k (List.rev qs) with
      | Some v => Some v
      | None => lookup k target
      end.
Proof.
  induction qs as [|[j x] qs IH]; intros target; [reflexivity|].
  cbn [fold_left fst snd List.rev]. rewrite IH, lookup_app.
  destruct (lookup k (List.rev qs)); [reflexivity|].
  simpl. destruct (j =? k) eqn:E.
  - apply String.eqb_eq in E. subst j. apply lookup_obj_set_same.
  - apply lookup_obj_set_other. now apply String.eqb_neq.
Qed.

Lemma lookup_rev_absent (k : string) (ps : props) :
  lookup k ps = None -> lookup k (List.rev ps) = None.
Proof.
  induction ps as [|[j x] ps IH]; simpl; [reflexivity|].
  destruct (j =? k) eqn:E; [discriminate|].
  intros H. rewrite lookup_app, (IH H). simpl. now rewrite E.
Qed.

(** The spread comes last: every own property of the payload replaces the
    server's field of that name. *)
Lemma document_field (rt : Runtime) (req : Request) (id status : value)
    (k : string) :
  member (VObj (document rt req id status)) k
  = Ok (Spec.overridden (payload req) k
          (Spec.field
             (VObj (literal
                [ ("id", id);
                  ("status", status);
                  ("received_at", VStr (now rt));
                  ("ip", VStr (text_of (either (x_forwarded_for req)
                                               (remote_address req))));
                  ("user_agent", VStr (text_of (user_agent req))) ]))
             k)).
Proof.
  unfold document, spread, Spec.overridden, Spec.field. cbn [member].
  rewrite lookup_assignments.
  destruct (lookup k (List.rev (own_props (payload req)))); reflexivity.
Qed.

Lemma document_id (rt : Runtime) (req : Request) (id status : value) :
  member (VObj (document rt req id status)) "id"
  = Ok (Spec.overridden (payload req) "id" id).
Proof. rewrite document_field. reflexivity. Qed.

Lemma document_status (rt : Runtime) (req : Request) (id status : value) :
  member (VObj (document rt req id status)) "status"
  = Ok (Spec.overridden (payload req) "status" status).
Proof. rewrite document_field. reflexivity. Qed.

(** X18.  The answer to a POST: [id] and [status] are the payload's own
    properties of those names whenever it has them, whatever they hold;
    the identifier and the status that the handler computed are reported
    only for a payload without them. *)
Theorem response_fields (env : Env) (sdk : sdk_load) (rt : Runtime)
    (w : World) (req : Request) :
  method req = "POST" ->
  exists id stored key calls,
    ($(match Spec.supplied_id (payload req) with
       | Some s => VStr s
       | None => VUndef
       end) ||| $(VStr (uuid rt))) = Ok id
    /\ Submit.run env sdk rt w req
       = (Ok (json 200
                [ ("ok", VBool true); ("stored", VStr stored);
                  ("key", VStr key);
                  ("id", Spec.overridden (payload req) "id" id);
                  ("status",
                   Spec.overridden (payload req) "status"
                     (VStr (Spec.normal_status (payload req)))) ]), calls).
Proof.
  intros Hpost.
  destruct (run_stages env sdk rt w req Hpost)
    as (id & doc_id & doc_status & stored & key & t1 & calls & H).
  cbv zeta in H. destruct H as (Hid & Hdid & Hdst & _ & Hrun & _).
  rewrite document_id in Hdid. rewrite document_status in Hdst.
  injection Hdid as <-. injection Hdst as <-.
  exists id, stored, key, calls. split; [exact Hid | exact Hrun].
Qed.

(** A payload without an own [status] is answered with the computed
    status, and one without an own [id] with the generated identifier. *)
Lemma overridden_absent (payload : value) (k : string) (server : value) :
  lookup k (own_props payload) = None ->
  Spec.overridden payload k server = server.
Proof.
  intros H. unfold Spec.overridden. now rewrite lookup_rev_absent.
Qed.

End DocumentFields.

(** ** The generated identifier *)

Section GeneratedIdentifier.
Import Submit.

Lemma hex_is_hex (n : N) : (n < 16)%N -> Spec.is_hex (hex n) = true.
Proof.
  intros H. destruct n as [|p]; [reflexivity|].
  do 4 (destruct p as [p|p|]; try reflexivity); lia.
Qed.

Lemma variant_digit (r : N) :
  let c := hex (N.lor (N.land r 3) 8) in
  (Text.between 56 57 c || Text.between 97 98 c)%bool = true.
Proof.
  destruct r as [|p]; [reflexivity|].
  destruct p as [[p|p|]|[p|p|]|]; reflexivity.
Qed.

Lemma fill_matches (random : nat -> N) (template : string) :
  (forall i, (random i < 16)%N) ->
  forall i, Spec.matches template (fill template i random) = true.
Proof.
  intros Hr. induction template as [|c rest IH]; intros i; [reflexivity|].
  cbn [fill]. destruct (Ascii.eqb c "x") eqn:Ex.
  - cbn [Spec.matches]. rewrite Ex, hex_is_hex, IH by apply Hr. reflexivity.
  - destruct (Ascii.eqb c "y") eqn:Ey; cbn [Spec.matches]; rewrite Ex, Ey.
    + rewrite variant_digit, IH. reflexivity.
    + rewrite Ascii.eqb_refl, IH. reflexivity.
Qed.

(** X17.  Without [crypto.randomUUID] the identifier is built from the template,
    and has the format of a version 4 UUID. *)
Theorem generated_id_format (rt : Runtime) :
  randomUUID rt = None ->
  (forall i, (math_random rt i < 16)%N) ->
  Spec.is_uuid_v4 (uuid rt) = true.
Proof.
  intros Hnone Hr. unfold uuid, Spec.is_uuid_v4. rewrite Hnone.
  now apply fill_matches.
Qed.

End GeneratedIdentifier.

(** ** The fixed fields and the spread of the payload *)

Section FixedFields.
Import Js Submit.
Local Open Scope js_scope.

(** C2, at a failing input.  The handler computes [status = "draft"] and a
    generated [id], and uses that [status] for the storage key; but the
    payload is spread after the five server-side fields, so the stored
    document and the response carry the caller's [id], [status],
    [received_at], [ip] and [user_agent]. *)
Theorem payload_overwrites_fixed_fields :
  status_of forged = Ok (VStr "draft")
  /\ client_id forged = Ok VUndef
  /\ fst (Submit.run storage_only_env AllSdk sample_runtime silent_world
            (post forged))
     = Ok (json 200
             [ ("ok", VBool true); ("stored", VStr "s3");
               ("key", VStr "leads/draft/2024-05-06/source=web/utm=direct/industry=na/7.json");
               ("id", VNum 7 0); ("status", VStr "DRAFT") ])
  /\ Spec.stored_documents
       (snd (Submit.run storage_only_env AllSdk sample_runtime silent_world
               (post forged)))
     = [ Ok forged ].
Proof. repeat split; vm_compute; reflexivity. Qed.

(** C5, at failing inputs.  The response reports [doc.status], which the
    spread has set back to the supplied value: ["FINAL"] is not
    lower-cased, and an empty or numeric status is reported as it came,
    not as ["final"]. *)
Theorem response_status_is_the_supplied_one :
  status_of (VObj [("status", VStr "FINAL")]) = Ok (VStr "final")
  /\ fst (Submit.run unconfigured_env NoSdk sample_runtime silent_world
            (post (VObj [("status", VStr "FINAL")])))
     = Ok (json 200
             [ ("ok", VBool true); ("stored", VStr "none"); ("key", VStr "");
               ("id", VStr "01234567-89ab-4cde-b012-3456789abcde");
               ("status", VStr "FINAL") ])
  /\ fst (Submit.run unconfigured_env NoSdk sample_runtime silent_world
            (post (VObj [("status", VStr "")])))
     = Ok (json 200
             [ ("ok", VBool true); ("stored", VStr "none"); ("key", VStr "");
               ("id", VStr "01234567-89ab-4cde-b012-3456789abcde");
               ("status", VStr "") ])
  /\ fst (Submit.run unconfigured_env NoSdk sample_runtime silent_world
            (post (VObj [("status", VNum 5 0)])))
     = Ok (json 200
             [ ("ok", VBool true); ("stored", VStr "none"); ("key", VStr "");
               ("id", VStr "01234567-89ab-4cde-b012-3456789abcde");
               ("status", VNum 5 0) ]).
Proof. repeat split; vm_compute; reflexivity. Qed.

(** C6, at failing inputs.  With an empty or a numeric [id] in the body the
    handler does generate an identifier ([clientId] is [undefined]), but
    the spread puts the supplied value back: the response [id] is the
    empty text, or the number. *)
Theorem response_id_is_the_supplied_one :
  client_id (VObj [("id", VStr "")]) = Ok VUndef
  /\ fst (Submit.run unconfigured_env NoSdk sample_runtime silent_world
            (post (VObj [("id", VStr "")])))
     = Ok (json 200
             [ ("ok", VBool true); ("stored", VStr "none"); ("key", VStr "");
               ("id", VStr ""); ("status", VStr "final") ])
  /\ client_id (VObj [("id", VNum 5 0)]) = Ok VUndef
  /\ fst (Submit.run unconfigured_env NoSdk sample_runtime silent_world
            (post (VObj [("id", VNum 5 0)])))
     = Ok (json 200
             [ ("ok", VBool true); ("stored", VStr "none"); ("key", VStr "");
               ("id", VNum 5 0); ("status", VStr "final") ]).
Proof. repeat split; vm_compute; reflexivity. Qed.

End FixedFields.

(** ** Base64 *)

Section Base64Facts.
Import Base64.


Lemma every_byte (x : ascii) : In x all_bytes.
Proof.
  unfold all_bytes. rewrite <- (ascii_nat_embedding x).
  apply in_map, in_seq. pose proof (nat_ascii_bounded x). lia.
Qed.

(** A check that holds on every byte holds for all bytes. *)
Lemma by_cases1 (f : ascii -> bool) :
  forallb f all_bytes = true -> forall x, f x = true.
Proof.
  intros H x. rewrite forallb_forall in H. apply H, every_byte.
Qed.

Lemma by_cases2 (f : ascii -> ascii -> bool) :
  forallb (fun x => forallb (f x) all_bytes) all_bytes = true ->
  forall x y, f x y = true.
Proof.
  intros H x y. rewrite forallb_forall in H.
  specialize (H x (every_byte x)). rewrite forallb_forall in H.
  apply H, every_byte.
Qed.



Lemma legal_sextet (n : N) (r : string) :
  legal n = true -> sextets (String (table n) r) = n :: sextets r.
Proof.
  unfold legal. intros H. apply andb_prop in H. destruct H as [Hpad Hun].
  simpl. apply negb_true_iff in Hpad. rewrite Hpad.
  destruct (unbase64 (table n)) as [m|]; [|discriminate].
  apply N.eqb_eq in Hun. subst. reflexivity.
Qed.

Lemma legal_s0 x : legal (s0 x) = true.
Proof. revert x. apply by_cases1. vm_compute. reflexivity. Qed.

Lemma legal_s3 x : legal (s3 x) = true.
Proof. revert x. apply by_cases1. vm_compute. reflexivity. Qed.

Lemma legal_s1_last x : legal (s1_last x) = true.
Proof. revert x. apply by_cases1. vm_compute. reflexivity. Qed.

Lemma legal_s2_last x : legal (s2_last x) = true.
Proof. revert x. apply by_cases1. vm_compute. reflexivity. Qed.

Lemma legal_s1 x y : legal (s1 x y) = true.
Proof. revert x y. apply by_cases2. vm_compute. reflexivity. Qed.

Lemma legal_s2 x y : legal (s2 x y) = true.
Proof. revert x y. apply by_cases2. vm_compute. reflexivity. Qed.

Lemma byte0_first x y : byte0 (s0 x) (s1 x y) = x.
Proof.
  apply Ascii.eqb_eq. revert x y. apply by_cases2. vm_compute. reflexivity.
Qed.

Lemma byte0_last x : byte0 (s0 x) (s1_last x) = x.
Proof.
  apply Ascii.eqb_eq. revert x. apply by_cases1. vm_compute. reflexivity.
Qed.

(** The middle byte only sees the low four bits of the second sextet and
    the high four bits of the third one. *)
Lemma s1_low x y : N.land (s1 x y) 15 = N.shiftr (N_of_ascii y) 4.
Proof.
  apply N.eqb_eq. revert x y. apply by_cases2. vm_compute. reflexivity.
Qed.

Lemma s2_high y z :
  N.shiftr (N.land (s2 y z) 60) 2 = N.land (N_of_ascii y) 15.
Proof.
  apply N.eqb_eq. revert y z. apply by_cases2. vm_compute. reflexivity.
Qed.

Lemma s2_last_high y :
  N.shiftr (N.land (s2_last y) 60) 2 = N.land (N_of_ascii y) 15.
Proof.
  apply N.eqb_eq. revert y. apply by_cases1. vm_compute. reflexivity.
Qed.

Lemma halves y :
  ascii_of_N (N.lor (N.shiftl (N.shiftr (N_of_ascii y) 4) 4)
                (N.land (N_of_ascii y) 15)) = y.
Proof.
  apply Ascii.eqb_eq. revert y. apply by_cases1. vm_compute. reflexivity.
Qed.

Lemma byte1_middle x y z : byte1 (s1 x y) (s2 y z) = y.
Proof. unfold byte1. rewrite s1_low, s2_high. apply halves. Qed.

Lemma byte1_last x y : byte1 (s1 x y) (s2_last y) = y.
Proof. unfold byte1. rewrite s1_low, s2_last_high. apply halves. Qed.

Lemma byte2_third y z : byte2 (s2 y z) (s3 z) = z.
Proof.
  apply Ascii.eqb_eq. revert y z. apply by_cases2. vm_compute. reflexivity.
Qed.

Lemma sextets_padding (r : string) : sextets (String pad r) = [].
Proof. reflexivity. Qed.

(** Induction on a text three bytes at a time. *)
Lemma by_threes (P : string -> Prop) :
  P "" ->
  (forall x, P (String x "")) ->
  (forall x y, P (String x (String y ""))) ->
  (forall x y z r, P r -> P (String x (String y (String z r)))) ->
  forall s, P s.
Proof.
  intros H0 H1 H2 H3.
  fix IH 1. intros [|x [|y [|z r]]].
  - exact H0.
  - apply H1.
  - apply H2.
  - apply H3, IH.
Qed.

Lemma encode_three x y z r :
  encode (String x (String y (String z r)))
  = String (table (s0 x)) (String (table (s1 x y))
      (String (table (s2 y z)) (String (table (s3 z)) (encode r)))).
Proof. reflexivity. Qed.

(** Decoding what [encode] wrote gives the bytes back. *)
Theorem base64_round_trip (s : string) : decode (encode s) = s.
Proof.
  induction s as [|x|x y|x y z r IH] using by_threes.
  - reflexivity.
  - change (encode (String x ""))
      with (String (table (s0 x)) (String (table (s1_last x))
              (String pad (String pad "")))).
    unfold decode.
    rewrite (@legal_sextet _ _ (legal_s0 x)), (@legal_sextet _ _ (legal_s1_last x)).
    rewrite sextets_padding. simpl. rewrite byte0_last. reflexivity.
  - change (encode (String x (String y "")))
      with (String (table (s0 x)) (String (table (s1 x y))
              (String (table (s2_last y)) (String pad "")))).
    unfold decode.
    rewrite (@legal_sextet _ _ (legal_s0 x)), (@legal_sextet _ _ (legal_s1 x y)),
      (@legal_sextet _ _ (legal_s2_last y)).
    rewrite sextets_padding. simpl.
    rewrite byte0_first, byte1_last. reflexivity.
  - rewrite encode_three. unfold decode in *.
    rewrite (@legal_sextet _ _ (legal_s0 x)), (@legal_sextet _ _ (legal_s1 x y)),
      (@legal_sextet _ _ (legal_s2 y z)), (@legal_sextet _ _ (legal_s3 z)).
    change (pack (s0 x :: s1 x y :: s2 y z :: s3 z :: sextets (encode r)))
      with (String (byte0 (s0 x) (s1 x y))
              (String (byte1 (s1 x y) (s2 y z))
                 (String (byte2 (s2 y z) (s3 z)) (pack (sextets (encode r)))))).
    rewrite byte0_first, byte1_middle, byte2_third, IH. reflexivity.
Qed.

(** The encoder writes whole groups of four characters. *)
Lemma encode_length (s : string) : (String.length (encode s) mod 4 = 0)%nat.
Proof.
  induction s as [|x|x y|x y z r IH] using by_threes; try reflexivity.
  rewrite encode_three.
  change (String.length (String (table (s0 x)) (String (table (s1 x y))
            (String (table (s2 y z)) (String (table (s3 z)) (encode r))))))
    with (4 + String.length (encode r))%nat.
  rewrite Nat.Div0.add_mod, IH by lia. reflexivity.
Qed.

End Base64Facts.

(** ** UTF-8 *)

Section Utf8Facts.
Import Text Utf8.

Lemma well_formed_chars (s : string) : well_formed s = true -> chars s.
Proof.
  remember (String.length s) as n eqn:Hn.
  revert s Hn. induction n as [n IH] using lt_wf_ind. intros s Hn H.
  destruct s as [|b0 t]; [constructor|].
  simpl in H.
  destruct (code b0 <? 128)%nat eqn:H0.
  { apply chars_one; [exact H0|]. eapply IH; [|reflexivity|exact H].
    subst n. simpl. lia. }
  destruct (between 194 223 b0) eqn:H2.
  { destruct t as [|b1 t1]; [discriminate|].
    apply andb_prop in H. destruct H as [Hc Hw].
    apply chars_two; try assumption.
    eapply IH; [|reflexivity|exact Hw]. subst n. simpl. lia. }
  destruct (between 224 239 b0) eqn:H3.
  { destruct t as [|b1 [|b2 t2]]; try discriminate.
    apply andb_prop in H. destruct H as [H Hw].
    apply andb_prop in H. destruct H as [Hb1 Hb2].
    apply chars_three; try assumption.
    eapply IH; [|reflexivity|exact Hw]. subst n. simpl. lia. }
  destruct (between 240 244 b0) eqn:H4; [|discriminate].
  destruct t as [|b1 [|b2 [|b3 t3]]]; try discriminate.
  apply andb_prop in H. destruct H as [H Hw].
  apply andb_prop in H. destruct H as [H Hb3].
  apply andb_prop in H. destruct H as [Hb1 Hb2].
  apply chars_four; try assumption.
  eapply IH; [|reflexivity|exact Hw]. subst n. simpl. lia.
Qed.

Lemma chars_well_formed (s : string) : chars s -> well_formed s = true.
Proof.
  induction 1; simpl.
  - reflexivity.
  - rewrite H. exact IHchars.
  - rewrite H, H0, H1. exact IHchars.
  - rewrite H, H0, H1, H2, H3. exact IHchars.
  - rewrite H, H0, H1, H2, H3, H4, H5. exact IHchars.
Qed.

(** Decoding leaves a well-formed text as it is. *)
Lemma decode_chars (s : string) : chars s -> decode s = s.
Proof.
  induction 1; simpl.
  - reflexivity.
  - rewrite H, IHchars. reflexivity.
  - rewrite H, H0, H1, IHchars. reflexivity.
  - rewrite H, H0, H1, H2, H3, IHchars. reflexivity.
  - rewrite H, H0, H1, H2, H3, H4, H5, IHchars. reflexivity.
Qed.

Lemma chars_append (a b : string) : chars a -> chars b -> chars (a ++ b).
Proof.
  intros Ha Hb. induction Ha; simpl.
  - exact Hb.
  - apply chars_one; assumption.
  - apply chars_two; assumption.
  - apply chars_three; assumption.
  - apply chars_four; assumption.
Qed.

Lemma chars_ascii (s : string) : ascii_only s -> chars s.
Proof.
  induction s as [|c r IH]; intros H; [constructor|].
  apply chars_one.
  - apply H. left. reflexivity.
  - apply IH. intros x Hx. apply H. right. exact Hx.
Qed.

End Utf8Facts.

(** ** Property order *)

Section PropertyOrder.
Import Js Spec.

Lemma names_only_all (ks : list string) :
  names_only ks = true -> Forall (fun k => array_index k = None) ks.
Proof.
  induction ks as [|k r IH]; simpl; [constructor|].
  destruct (array_index k) eqn:E; [discriminate|].
  intros H. apply andb_prop in H. destruct H as [_ H].
  constructor; [exact E | apply IH; exact H].
Qed.

Lemma names_only_fresh (ks : list string) (k : string) (r : list string) :
  names_only (ks ++ k :: r) = true -> ~ In k ks.
Proof.
  induction ks as [|k' ks IH]; simpl; [tauto|].
  destruct (array_index k'); [discriminate|].
  intros H. apply andb_prop in H. destruct H as [Hfresh H].
  intros [->|Hin]; [|exact (IH H Hin)].
  apply negb_true_iff in Hfresh.
  assert (existsb (String.eqb k) (ks ++ k :: r) = true) as E.
  { apply existsb_exists. exists k. split; [|apply String.eqb_refl].
    apply in_or_app. right. left. reflexivity. }
  congruence.
Qed.

(** Below an index key, every earlier key is a smaller index. *)
Lemma ordered_before_index (ks : list string) :
  forall bound k r i,
    ordered_keys bound (ks ++ k :: r) = true ->
    array_index k = Some i ->
    match bound with Some b => (b < i)%N | None => True end
    /\ Forall (fun k' => exists j, array_index k' = Some j /\ (j < i)%N) ks.
Proof.
  induction ks as [|k' ks IH]; intros bound k r i H Hk.
  - simpl in H. rewrite Hk in H.
    split; [|constructor].
    destruct bound as [b|]; [|exact I].
    apply andb_prop in H. destruct H as [H _]. apply N.ltb_lt. exact H.
  - cbn [ordered_keys app] in H. destruct (array_index k') as [j|] eqn:Hj.
    + apply andb_prop in H. destruct H as [Hb H].
      destruct (IH (Some j) k r i H Hk) as [Hji Hks].
      split.
      * destruct bound as [b|]; [|exact I].
        apply N.ltb_lt in Hb. lia.
      * constructor; [exists j; split; [exact Hj | exact Hji] | exact Hks].
    + exfalso.
      change (names_only ((k' :: ks) ++ k :: r) = true) in H.
      apply names_only_all in H. rewrite Forall_forall in H.
      assert (array_index k = None) as E.
      { apply H. apply in_or_app. right. left. reflexivity. }
      congruence.
Qed.

Lemma ordered_fresh (ks : list string) :
  forall bound k r,
    ordered_keys bound (ks ++ k :: r) = true -> ~ In k ks.
Proof.
  induction ks as [|k' ks IH]; intros bound k r H; simpl; [tauto|].
  cbn [ordered_keys app] in H. destruct (array_index k') as [j|] eqn:Hj.
  - apply andb_prop in H. destruct H as [_ H].
    intros [->|Hin]; [|exact (IH _ _ _ H Hin)].
    destruct (ordered_before_index ks (Some j) k r H Hj) as [Hlt _].
    lia.
  - change (names_only ((k' :: ks) ++ k :: r) = true) in H.
    apply names_only_fresh in H. exact H.
Qed.

Lemma has_key_absent (k : string) (ps : props) :
  ~ In k (map fst ps) -> has_key k ps = false.
Proof.
  unfold has_key. induction ps as [|[k' v] ps IH]; simpl; [reflexivity|].
  intros H. destruct (k' =? k) eqn:E.
  - apply String.eqb_eq in E. subst. tauto.
  - apply IH. tauto.
Qed.

Lemma insert_index_last (i : N) (k : string) (v : value) (ps : props) :
  Forall (fun k' => exists j, array_index k' = Some j /\ (j < i)%N)
    (map fst ps) ->
  insert_index i k v ps = (ps ++ [(k, v)])%list.
Proof.
  induction ps as [|[k' v'] ps IH]; simpl; [reflexivity|].
  intros H. inversion H as [|? ? (j & Hj & Hlt) Hrest]; subst.
  rewrite Hj. apply N.ltb_lt in Hlt. rewrite Hlt, IH by exact Hrest.
  reflexivity.
Qed.

(** Setting the properties of an object in property order, one after the
    other, lists them in that order. *)
Lemma set_in_order (ps : props) :
  forall acc,
    ordered_keys None (map fst (acc ++ ps)) = true ->
    fold_left (fun o kv => obj_set (fst kv) (snd kv) o) ps acc
    = (acc ++ ps)%list.
Proof.
  induction ps as [|[k v] ps IH]; intros acc H; simpl.
  - now rewrite app_nil_r.
  - assert (Hset : obj_set k v acc = (acc ++ [(k, v)])%list).
    { rewrite map_app in H. simpl in H.
      unfold obj_set.
      rewrite (has_key_absent k acc (ordered_fresh _ _ _ _ H)).
      destruct (array_index k) as [i|] eqn:Hk; [|reflexivity].
      apply insert_index_last.
      exact (proj2 (ordered_before_index _ _ _ _ H Hk)). }
    rewrite Hset, IH.
    + rewrite <- app_assoc. reflexivity.
    + rewrite <- app_assoc. exact H.
Qed.

Lemma literal_in_order (ps : props) :
  ordered_keys None (map fst ps) = true -> literal ps = ps.
Proof. intros H. unfold literal. now rewrite set_in_order. Qed.

End PropertyOrder.

(** ** JSON texts *)

Section JsonTexts.
Import Text Js Json.

Lemma value_induction (P : value -> Prop) :
  P VUndef -> P VNull -> (forall b, P (VBool b)) ->
  (forall m scale, P (VNum m scale)) -> (forall s, P (VStr s)) ->
  (forall xs, Forall P xs -> P (VArr xs)) ->
  (forall ps, Forall (fun kv => P (snd kv)) ps -> P (VObj ps)) ->
  forall v, P v.
Proof.
  intros Hu Hn Hb Hm Hs Ha Ho.
  fix IH 1. intros [| |b|m scale|s|xs|ps].
  - exact Hu.
  - exact Hn.
  - apply Hb.
  - apply Hm.
  - apply Hs.
  - apply Ha. induction xs as [|x xs IHxs]; constructor; [apply IH | exact IHxs].
  - apply Ho. induction ps as [|[k x] ps IHps]; constructor;
      [apply IH | exact IHps].
Qed.

Lemma stringify_defined (v : value) :
  v <> VUndef -> exists s, stringify v = Some s.
Proof.
  unfold stringify.
  destruct v as [| |[|]|m scale|s|xs|ps]; intros H; try congruence;
    simpl; eexists; reflexivity.
Qed.

Lemma text_stringify (v : value) :
  v <> VUndef -> stringify v = Some (Spec.text v).
Proof.
  intros H. unfold Spec.text.
  destruct (stringify_defined H) as [s ->]. reflexivity.
Qed.


Lemma wrap_compact (opening closing stepback indent : string)
    (parts : list string) :
  wrap opening closing "" stepback indent parts = enclose opening closing parts.
Proof. destruct parts; reflexivity. Qed.

Lemma text_array (xs : list value) :
  Spec.text (VArr xs) = enclose "[" "]" (map Spec.text xs).
Proof.
  unfold Spec.text at 1, stringify. cbn [ser]. rewrite wrap_compact.
  reflexivity.
Qed.

Lemma text_object (ps : props) :
  Forall (fun kv => snd kv <> VUndef) ps ->
  Spec.text (VObj ps) = enclose "{" "}" (map Spec.entry_text ps).
Proof.
  intros H. unfold Spec.text at 1, stringify. cbn [ser]. rewrite wrap_compact.
  f_equal. induction H as [|[k x] ps Hx Hps IH]; [reflexivity|].
  simpl in Hx. cbn [map]. rewrite <- IH. clear IH.
  unfold Spec.entry_text, Spec.text, stringify. cbn [fst snd].
  destruct (stringify_defined Hx) as [s Hs]. unfold stringify in Hs.
  simpl. rewrite Hs. reflexivity.
Qed.

Lemma representable_defined (v : value) :
  Spec.representable v = true -> v <> VUndef.
Proof. intros H ->. discriminate H. Qed.

Lemma representable_array (xs : list value) :
  Spec.representable (VArr xs) = true ->
  Forall (fun x => Spec.representable x = true) xs.
Proof.
  simpl. induction xs as [|x xs IH]; intros H; constructor;
    apply andb_prop in H; destruct H as [Hx Hxs]; [exact Hx | exact (IH Hxs)].
Qed.

Lemma representable_object (ps : props) :
  Spec.representable (VObj ps) = true ->
  Spec.ordered_keys None (map fst ps) = true
  /\ Forall (fun kv => Utf8.well_formed (fst kv) = true
                       /\ Spec.representable (snd kv) = true) ps.
Proof.
  simpl. intros H. apply andb_prop in H. destruct H as [Hkeys H].
  split; [exact Hkeys|].
  clear Hkeys. induction ps as [|[k x] ps IH]; constructor;
    apply andb_prop in H; destruct H as [H Hps];
    apply andb_prop in H; destruct H as [Hk Hx];
    [split; assumption | exact (IH Hps)].
Qed.

End JsonTexts.

(** ** String literals *)

Section StringLiterals.
Import Text Js Json.

(** Reading the escape of a character gives the character back. *)
Lemma string_body_escape (c : ascii) (tail acc : string) :
  string_body (escape_char c ++ tail) acc = string_body tail (String c acc).
Proof.
  destruct c as [[] [] [] [] [] [] [] []]; reflexivity.
Qed.

Lemma string_body_closing (rest acc : string) :
  string_body (String dq rest) acc = Some (rev acc, rest).
Proof. reflexivity. Qed.

Lemma rev_push (c : ascii) (acc s : string) :
  rev (String c acc) ++ s = rev acc ++ String c s.
Proof. rewrite rev_cons, append_assoc. reflexivity. Qed.

Lemma string_body_escaped (s rest acc : string) :
  string_body (escape s ++ String dq rest) acc = Some (rev acc ++ s, rest).
Proof.
  revert acc. induction s as [|c s IH]; intros acc.
  - simpl. rewrite append_empty. reflexivity.
  - simpl escape. rewrite append_assoc, string_body_escape, IH, rev_push.
    reflexivity.
Qed.

(** A quoted text parses back, whatever follows it. *)
Lemma string_body_quote (s rest : string) :
  string_body (Text.drop 1 (quote s ++ rest)) "" = Some (s, rest).
Proof.
  unfold quote. simpl. rewrite append_assoc. simpl.
  apply string_body_escaped.
Qed.

End StringLiterals.

(** ** Number literals *)

Section NumberLiterals.
Import Text Js Json.

Lemma delimited_no_digit (rest : string) :
  Spec.delimited rest -> Spec.no_digit rest.
Proof.
  intros [-> | [r [-> | [-> | ->]]]]; simpl; auto.
Qed.

Lemma span_digits_uint (d : Decimal.uint) (rest : string) :
  Spec.no_digit rest ->
  span_digits (NilEmpty.string_of_uint d ++ rest)
  = (NilEmpty.string_of_uint d, rest).
Proof.
  intros H.
  induction d as [|d IH|d IH|d IH|d IH|d IH|d IH|d IH|d IH|d IH|d IH];
    try (cbn [NilEmpty.string_of_uint append];
         cbn [span_digits]; rewrite IH; reflexivity).
  simpl. destruct rest as [|c r]; [reflexivity|].
  simpl in H. simpl. rewrite H. reflexivity.
Qed.

Lemma fraction_none (rest : string) :
  Spec.delimited rest -> fraction rest = Some ("", rest).
Proof. intros [-> | [r [-> | [-> | ->]]]]; reflexivity. Qed.

Lemma exponent_none (rest : string) :
  Spec.delimited rest -> exponent rest = Some (0%Z, rest).
Proof. intros [-> | [r [-> | [-> | ->]]]]; reflexivity. Qed.

Lemma Z_of_digits_uint (d : Decimal.uint) :
  Z_of_digits (NilEmpty.string_of_uint d) = Z.of_uint d.
Proof. unfold Z_of_digits. now rewrite NilEmpty.usu. Qed.

Lemma canonical_digits (d : Decimal.uint) :
  Spec.canonical d = true ->
  (NilEmpty.string_of_uint d =? "") = false
  /\ (starts_with "0" (NilEmpty.string_of_uint d)
      && (1 <? String.length (NilEmpty.string_of_uint d))%nat)%bool = false.
Proof.
  destruct d as [|d|d|d|d|d|d|d|d|d|d]; intros H; try discriminate H;
    split; try reflexivity.
  destruct d; try discriminate H. reflexivity.
Qed.

Lemma canonical_text (d : Decimal.uint) :
  Spec.canonical d = true ->
  NilZero.string_of_uint d = NilEmpty.string_of_uint d.
Proof. destruct d; intros H; try discriminate H; reflexivity. Qed.

(** Canonical digits followed by a delimiter read back as their value. *)
Lemma unsigned_number_digits (negative : bool) (d : Decimal.uint)
    (rest : string) :
  Spec.canonical d = true -> Spec.delimited rest ->
  unsigned_number negative (NilEmpty.string_of_uint d ++ rest)
  = Some (VNum (if negative then - Z.of_uint d else Z.of_uint d) 0, rest).
Proof.
  intros Hd Hrest. unfold unsigned_number.
  rewrite span_digits_uint by (apply delimited_no_digit; exact Hrest).
  destruct (@canonical_digits d Hd) as [-> ->].
  rewrite fraction_none, exponent_none by exact Hrest.
  rewrite append_empty, Z_of_digits_uint.
  cbn [String.length Z.of_nat Z.sub Z.opp Z.leb Z.compare Z.add].
  change (10 ^ 0)%Z with 1%Z. rewrite Z.mul_1_r. reflexivity.
Qed.

Lemma nzhead_no_zero (d d' : Decimal.uint) :
  Decimal.nzhead d <> Decimal.D0 d'.
Proof. induction d; simpl; try discriminate. exact IHd. Qed.

Lemma canonical_positive (p : positive) :
  Spec.canonical (Pos.to_uint p) = true.
Proof.
  assert (Hn : Decimal.unorm (Pos.to_uint p) = Pos.to_uint p).
  { rewrite <- (DecimalPos.Unsigned.to_of (Pos.to_uint p)).
    rewrite DecimalPos.Unsigned.of_to. reflexivity. }
  pose proof (DecimalPos.Unsigned.to_uint_nonnil p) as Hnil.
  destruct (Pos.to_uint p) as [|d|d|d|d|d|d|d|d|d|d] eqn:E;
    try reflexivity; [congruence|].
  destruct d; try reflexivity; exfalso;
    unfold Decimal.unorm in Hn; cbn [Decimal.nzhead] in Hn;
    try discriminate Hn;
    match type of Hn with
    | context [Decimal.nzhead ?x] =>
        pose proof (nzhead_no_zero x) as Hz;
        destruct (Decimal.nzhead x); try discriminate Hn;
        eapply Hz; exact Hn
    end.
Qed.

Lemma eat_minus_digits (d : Decimal.uint) (rest : string) :
  Spec.canonical d = true ->
  eat "-" (NilEmpty.string_of_uint d ++ rest) = None.
Proof. destruct d; intros H; try discriminate H; reflexivity. Qed.

(** The decimal text of an integer, followed by a delimiter, reads back as
    that integer. *)
Lemma number_integer (m : Z) (rest : string) :
  Spec.delimited rest ->
  number (string_of_Z m ++ rest) = Some (VNum m 0, rest).
Proof.
  intros Hrest. unfold number, string_of_Z.
  destruct m as [|p|p].
  - change (NilZero.string_of_int (Z.to_int 0))
      with (NilEmpty.string_of_uint (Decimal.D0 Decimal.Nil)).
    rewrite eat_minus_digits by reflexivity.
    now rewrite unsigned_number_digits.
  - cbn [Z.to_int NilZero.string_of_int].
    rewrite canonical_text by apply canonical_positive.
    rewrite eat_minus_digits by apply canonical_positive.
    rewrite unsigned_number_digits by (auto using canonical_positive).
    do 2 f_equal. f_equal.
    change (Z.of_uint (Pos.to_uint p)) with (Z.of_N (Pos.of_uint (Pos.to_uint p))).
    now rewrite DecimalPos.Unsigned.of_to.
  - cbn [Z.to_int NilZero.string_of_int].
    rewrite canonical_text by apply canonical_positive.
    cbn [append eat Ascii.eqb Bool.eqb].
    rewrite unsigned_number_digits by (auto using canonical_positive).
    do 2 f_equal. f_equal.
    change (Z.of_uint (Pos.to_uint p)) with (Z.of_N (Pos.of_uint (Pos.to_uint p))).
    now rewrite DecimalPos.Unsigned.of_to.
Qed.

Lemma number_text (m : Z) (rest : string) :
  Spec.safe_integer m = true -> Spec.delimited rest ->
  number (Spec.text (VNum m 0) ++ rest) = Some (VNum m 0, rest).
Proof.
  intros Hm Hrest.
  assert (E : Spec.text (VNum m 0) = string_of_Z m).
  { unfold Spec.text, stringify. cbn [ser]. unfold number_to_string.
    unfold Spec.safe_integer in Hm. apply Z.leb_le in Hm.
    assert (H : (Z.abs m <? 10 ^ 21)%Z = true).
    { apply Z.ltb_lt.
      change (10 ^ 21)%Z with 1000000000000000000000%Z. lia. }
    now rewrite H. }
  rewrite E. now apply number_integer.
Qed.

End NumberLiterals.

(** ** Reading back what [JSON.stringify] wrote *)

Section ReadingBack.
Import Text Js Json.

Lemma value_at_step (f : nat) (s0 : string) :
  value_at (S f) s0 =
  let s := skip_ws s0 in
  if head_is "{" s then
    let r := skip_ws (drop 1 s) in
    match eat "}" r with
    | Some r' => Some (VObj [], r')
    | None => members f r []
    end
  else if head_is "[" s then
    let r := skip_ws (drop 1 s) in
    match eat "]" r with
    | Some r' => Some (VArr [], r')
    | None => elements f r []
    end
  else if head_is dq s then
    match string_body (drop 1 s) EmptyString with
    | Some (x, r') => Some (VStr x, r')
    | None => None
    end
  else if head_is "t" s then keyword "true" (VBool true) s
  else if head_is "f" s then keyword "false" (VBool false) s
  else if head_is "n" s then keyword "null" VNull s
  else number s.
Proof. reflexivity. Qed.

Lemma elements_step (f : nat) (s : string) (acc : list value) :
  elements (S f) s acc =
  match value_at f s with
  | None => None
  | Some (v, r) =>
      let r := skip_ws r in
      match eat "," r with
      | Some r' => elements f r' (v :: acc)
      | None =>
          match eat "]" r with
          | Some r' => Some (VArr (List.rev (v :: acc)), r')
          | None => None
          end
      end
  end.
Proof. reflexivity. Qed.

Lemma members_step (f : nat) (s : string) (acc : props) :
  members (S f) s acc =
  match eat dq (skip_ws s) with
  | None => None
  | Some r =>
      match string_body r EmptyString with
      | None => None
      | Some (k, r1) =>
          match eat ":" (skip_ws r1) with
          | None => None
          | Some r2 =>
              match value_at f r2 with
              | None => None
              | Some (v, r3) =>
                  let r3 := skip_ws r3 in
                  match eat "," r3 with
                  | Some r4 => members f r4 (obj_set k v acc)
                  | None =>
                      match eat "}" r3 with
                      | Some r4 => Some (VObj (obj_set k v acc), r4)
                      | None => None
                      end
                  end
              end
          end
      end
  end.
Proof. reflexivity. Qed.

Lemma opens_head (c : ascii) :
  Spec.opens c = true ->
  is_ws c = false /\ Ascii.eqb c "]" = false /\ Ascii.eqb c "}" = false
  /\ Ascii.eqb c "," = false.
Proof.
  destruct c as [[] [] [] [] [] [] [] []]; intros H; try discriminate H;
    repeat split.
Qed.

Lemma numeric_head (c : ascii) :
  (is_digit c || Ascii.eqb c "-")%bool = true ->
  is_ws c = false /\ Ascii.eqb c "{" = false /\ Ascii.eqb c "[" = false
  /\ Ascii.eqb c dq = false /\ Ascii.eqb c "t" = false
  /\ Ascii.eqb c "f" = false /\ Ascii.eqb c "n" = false.
Proof.
  destruct c as [[] [] [] [] [] [] [] []]; intros H; try discriminate H;
    repeat split.
Qed.

Lemma string_of_Z_head (m : Z) :
  exists c r, string_of_Z m = String c r
              /\ (is_digit c || Ascii.eqb c "-")%bool = true.
Proof.
  unfold string_of_Z. destruct m as [|p|p].
  - do 2 eexists. split; reflexivity.
  - cbn [Z.to_int NilZero.string_of_int].
    rewrite canonical_text by apply canonical_positive.
    pose proof (canonical_positive p) as H.
    destruct (Pos.to_uint p); try discriminate H;
      do 2 eexists; split; reflexivity.
  - do 2 eexists. split; reflexivity.
Qed.

Lemma text_number (m : Z) :
  Spec.safe_integer m = true -> Spec.text (VNum m 0) = string_of_Z m.
Proof.
  intros Hm. unfold Spec.text, stringify. cbn [ser]. unfold number_to_string.
  unfold Spec.safe_integer in Hm. apply Z.leb_le in Hm.
  assert (H : (Z.abs m <? 10 ^ 21)%Z = true).
  { apply Z.ltb_lt. change (10 ^ 21)%Z with 1000000000000000000000%Z. lia. }
  now rewrite H.
Qed.

(** Every JSON text starts with a character that only a value starts
    with. *)
Lemma text_head (v : value) :
  Spec.representable v = true ->
  exists c r, Spec.text v = String c r /\ Spec.opens c = true.
Proof.
  destruct v as [| |[|]|m scale|s|xs|ps]; intros H; try discriminate H;
    try (do 2 eexists; split; reflexivity).
  - simpl in H. apply andb_prop in H. destruct H as [Hs Hm].
    apply Nat.eqb_eq in Hs. subst scale. rewrite text_number by exact Hm.
    destruct (string_of_Z_head m) as [c [r [-> Hc]]].
    exists c, r. split; [reflexivity|]. unfold Spec.opens. now rewrite Hc.
  - rewrite text_array. destruct (map Spec.text xs);
      do 2 eexists; split; reflexivity.
  - unfold Spec.text, stringify. cbn [ser]. rewrite wrap_compact.
    match goal with
    | |- context [enclose _ _ ?l] => destruct l
    end; do 2 eexists; split; reflexivity.
Qed.

Lemma skip_ws_head (c : ascii) (r : string) :
  is_ws c = false -> skip_ws (String c r) = String c r.
Proof. intros H. simpl. now rewrite H. Qed.

Lemma eat_head (c d : ascii) (r : string) :
  Ascii.eqb c d = false -> eat d (String c r) = None.
Proof. intros H. unfold eat. now rewrite H. Qed.

Lemma head_is_head (c d : ascii) (r : string) :
  Ascii.eqb c d = false -> head_is d (String c r) = false.
Proof. intros H. unfold head_is. now rewrite eat_head. Qed.

Lemma delimited_comma (r : string) : Spec.delimited (String "," r).
Proof. right. exists r. now left. Qed.

Lemma delimited_bracket (r : string) : Spec.delimited (String "]" r).
Proof. right. exists r. right. now left. Qed.

Lemma delimited_brace (r : string) : Spec.delimited (String "}" r).
Proof. right. exists r. right. now right. Qed.

(** The elements of an array, after the first has been reached. *)
Lemma elements_join (xs : list value) :
  Forall Spec.reads_back xs ->
  Forall (fun x => Spec.representable x = true) xs ->
  forall x, Spec.reads_back x -> Spec.representable x = true ->
  forall fuel rest acc,
    S (Spec.weight x) + Spec.total xs <= fuel ->
    elements fuel (join "," (map Spec.text (x :: xs)) ++ String "]" rest) acc
    = Some (VArr (List.rev acc ++ x :: xs), rest).
Proof.
  induction xs as [|y ys IH]; intros Hback Hrep x Hx Hrx fuel rest acc Hfuel;
    destruct fuel as [|f]; try (simpl in Hfuel; lia);
    rewrite elements_step.
  - cbn [map join].
    rewrite (Hx Hrx f (String "]" rest)) by
      (try apply delimited_bracket; simpl in Hfuel; lia).
    reflexivity.
  - change (join "," (map Spec.text (x :: y :: ys)))
      with (Spec.text x ++ "," ++ join "," (map Spec.text (y :: ys))).
    rewrite append_assoc. cbn [append].
    rewrite (Hx Hrx f) by
      (try apply delimited_comma; unfold Spec.total in Hfuel;
       simpl in Hfuel; lia).
    cbv zeta. rewrite skip_ws_head by reflexivity.
    cbn [eat Ascii.eqb Bool.eqb].
    inversion Hback as [|? ? Hy Hys]; subst.
    inversion Hrep as [|? ? Hry Hrys]; subst.
    rewrite (IH Hys Hrys y Hy Hry)
      by (unfold Spec.total in *; simpl in *; lia).
    simpl. rewrite <- app_assoc. reflexivity.
Qed.

Lemma entry_shape (k : string) (x : value) (tail : string) :
  Spec.entry_text (k, x) ++ tail
  = String dq (escape k ++ String dq (String ":" (Spec.text x ++ tail))).
Proof.
  unfold Spec.entry_text, quote. cbn [fst snd append].
  rewrite !append_assoc. reflexivity.
Qed.

Lemma members_entry (f : nat) (k : string) (x : value) (tail : string)
    (acc : props) :
  Spec.reads_back x -> Spec.representable x = true ->
  Spec.weight x <= f -> Spec.delimited tail ->
  members (S f) (Spec.entry_text (k, x) ++ tail) acc =
  let r3 := skip_ws tail in
  match eat "," r3 with
  | Some r4 => members f r4 (obj_set k x acc)
  | None =>
      match eat "}" r3 with
      | Some r4 => Some (VObj (obj_set k x acc), r4)
      | None => None
      end
  end.
Proof.
  intros Hx Hrx Hf Htail.
  rewrite members_step, entry_shape.
  rewrite skip_ws_head by reflexivity.
  unfold eat at 1. rewrite Ascii.eqb_refl.
  rewrite string_body_escaped. cbn [rev rev_onto append].
  rewrite skip_ws_head by reflexivity.
  cbn [eat Ascii.eqb Bool.eqb].
  rewrite (Hx Hrx f tail Hf Htail). reflexivity.
Qed.

(** The properties of an object, after the first has been reached. *)
Lemma members_join (ps : props) :
  Forall (fun kv => Spec.reads_back (snd kv)) ps ->
  Forall (fun kv => Spec.representable (snd kv) = true) ps ->
  forall k x, Spec.reads_back x -> Spec.representable x = true ->
  forall fuel rest acc,
    S (Spec.weight x) + Spec.total (map snd ps) <= fuel ->
    members fuel
      (join "," (map Spec.entry_text ((k, x) :: ps)) ++ String "}" rest) acc
    = Some (VObj (fold_left (fun o kv => obj_set (fst kv) (snd kv) o)
                            ((k, x) :: ps) acc), rest).
Proof.
  induction ps as [|[j y] ps IH];
    intros Hback Hrep k x Hx Hrx fuel rest acc Hfuel;
    destruct fuel as [|f]; try (simpl in Hfuel; lia).
  - cbn [map join].
    rewrite members_entry; try assumption;
      [reflexivity | simpl in Hfuel; lia | apply delimited_brace].
  - change (join "," (map Spec.entry_text ((k, x) :: (j, y) :: ps)))
      with (Spec.entry_text (k, x) ++ ","
            ++ join "," (map Spec.entry_text ((j, y) :: ps))).
    rewrite append_assoc. cbn [append].
    rewrite members_entry; try assumption;
      [| unfold Spec.total in Hfuel; simpl in Hfuel; lia
       | apply delimited_comma].
    cbv zeta. rewrite skip_ws_head by reflexivity.
    cbn [eat Ascii.eqb Bool.eqb].
    inversion Hback as [|? ? Hy Hys]; subst.
    inversion Hrep as [|? ? Hry Hrys]; subst.
    rewrite (IH Hys Hrys j y Hy Hry)
      by (unfold Spec.total in *; simpl in *; lia).
    reflexivity.
Qed.

Lemma weight_array (xs : list value) :
  Spec.weight (VArr xs) = S (Spec.total xs).
Proof.
  unfold Spec.total. simpl. f_equal.
  induction xs as [|x xs IH]; [reflexivity|].
  simpl. now rewrite IH.
Qed.

Lemma weight_object (ps : props) :
  Spec.weight (VObj ps) = S (Spec.total (map snd ps)).
Proof.
  unfold Spec.total. simpl. f_equal.
  induction ps as [|[k x] ps IH]; [reflexivity|].
  simpl. now rewrite IH.
Qed.

Lemma join_head (c : ascii) (r : string) (first : string)
    (others : list string) (tail : string) :
  first = String c r ->
  exists r', join "," (first :: others) ++ tail = String c r'.
Proof.
  intros ->. destruct others; simpl; eexists; reflexivity.
Qed.

(** Parsing the text of a representable value gives the value back. *)
Lemma value_reads_back (v : value) : Spec.reads_back v.
Proof.
  induction v as [| |b|m scale|s|xs IH|ps IH] using value_induction;
    intros Hrep fuel rest Hfuel Hrest;
    try discriminate Hrep;
    (destruct fuel as [|f]; [simpl in Hfuel; lia|]).
  - reflexivity.
  - destruct b; reflexivity.
  - simpl in Hrep. apply andb_prop in Hrep. destruct Hrep as [Hs Hm].
    apply Nat.eqb_eq in Hs. subst scale.
    rewrite value_at_step.
    pose proof (@number_text m rest Hm Hrest) as Hnum.
    rewrite text_number in * by exact Hm.
    destruct (string_of_Z_head m) as [c [r [E Hc]]].
    rewrite E in *. cbn [append] in *.
    destruct (numeric_head c Hc) as [Hw [H1 [H2 [H3 [H4 [H5 H6]]]]]].
    rewrite skip_ws_head by exact Hw. cbv zeta.
    rewrite !head_is_head by assumption.
    exact Hnum.
  - rewrite value_at_step.
    change (Spec.text (VStr s)) with (quote s).
    unfold quote at 1. cbn [append].
    rewrite skip_ws_head by reflexivity. cbv zeta.
    rewrite !head_is_head by reflexivity.
    unfold head_is, eat. rewrite Ascii.eqb_refl.
    change (String dq ((escape s ++ String dq "") ++ rest))
      with (quote s ++ rest).
    rewrite string_body_quote. reflexivity.
  - pose proof (representable_array xs Hrep) as Hall.
    rewrite text_array, weight_array in *.
    destruct xs as [|x xs]; [reflexivity|].
    inversion IH as [|? ? Hx Hxs]; subst.
    inversion Hall as [|? ? Hrx Hrxs]; subst.
    rewrite value_at_step.
    change (enclose "[" "]" (map Spec.text (x :: xs)) ++ rest)
      with (String "[" ((join "," (map Spec.text (x :: xs)) ++ "]") ++ rest)).
    rewrite append_assoc. cbn [append].
    rewrite skip_ws_head by reflexivity. cbv zeta.
    rewrite !head_is_head by reflexivity.
    change (head_is "[" (String "[" ?t)) with true.
    cbn [drop].
    destruct (text_head x Hrx) as [c [r [E Hc]]].
    destruct (opens_head c Hc) as [Hw [H1 [H2 H3]]].
    pose proof (elements_join Hxs Hrxs Hx Hrx (fuel := f) rest []) as Hel.
    cbn [map] in *.
    destruct (@join_head c r (Spec.text x) (map Spec.text xs)
                (String "]" rest) E) as [r' E'].
    rewrite E' in *.
    rewrite skip_ws_head by exact Hw.
    rewrite eat_head by exact H1.
    apply Hel. unfold Spec.total in *. simpl in *. lia.
  - destruct (representable_object ps Hrep) as [Hkeys Hall].
    assert (Hdef : Forall (fun kv => snd kv <> VUndef) ps).
    { eapply Forall_impl; [|exact Hall]. intros kv [_ H].
      now apply representable_defined. }
    assert (Hreps : Forall (fun kv => Spec.representable (snd kv) = true) ps).
    { eapply Forall_impl; [|exact Hall]. now intros kv [_ H]. }
    rewrite text_object by exact Hdef. rewrite weight_object in Hfuel.
    destruct ps as [|[k x] ps]; [reflexivity|].
    inversion IH as [|? ? Hx Hxs]; subst.
    inversion Hreps as [|? ? Hrx Hrxs]; subst.
    cbn [snd] in Hx, Hrx.
    rewrite value_at_step.
    change (enclose "{" "}" (map Spec.entry_text ((k, x) :: ps)) ++ rest)
      with (String "{" ((join "," (map Spec.entry_text ((k, x) :: ps)) ++ "}")
                        ++ rest)).
    rewrite append_assoc. cbn [append].
    rewrite skip_ws_head by reflexivity. cbv zeta.
    change (head_is "{" (String "{" ?t)) with true.
    cbn [drop].
    pose proof (members_join Hxs Hrxs k Hx Hrx (fuel := f) rest []) as Hmem.
    cbn [map] in *.
    destruct (@join_head dq (escape k ++ String dq (":" ++ Spec.text x))
                (Spec.entry_text (k, x)) (map Spec.entry_text ps)
                (String "}" rest)) as [r' E'].
    { unfold Spec.entry_text, quote. cbn [fst snd append].
      now rewrite append_assoc. }
    rewrite E' in *.
    rewrite skip_ws_head by reflexivity.
    rewrite eat_head by reflexivity.
    rewrite Hmem by (unfold Spec.total in *; simpl in *; lia).
    rewrite (set_in_order ((k, x) :: ps) []) by exact Hkeys.
    reflexivity.
Qed.

End ReadingBack.

(** ** Fuel and encoding of serialized texts *)

Section SerializedTexts.
Import Text Js Json.

Lemma join_length_bound (A : Type) (w : A -> nat) (t : A -> string)
    (l : list A) :
  Forall (fun a => w a <= String.length (t a)) l ->
  list_sum (map (fun a => S (w a)) l)
  <= S (String.length (join "," (map t l))).
Proof.
  induction 1 as [|a l Ha Hl IH]; [simpl; lia|].
  destruct l as [|b l].
  - simpl. lia.
  - change (join "," (map t (a :: b :: l)))
      with (t a ++ "," ++ join "," (map t (b :: l))).
    rewrite !append_length.
    change (list_sum (map (fun a => S (w a)) (a :: b :: l)))
      with (S (w a) + list_sum (map (fun a => S (w a)) (b :: l))).
    simpl String.length at 2. lia.
Qed.

Lemma enclose_length (opening closing : string) (parts : list string) :
  parts <> [] ->
  String.length (enclose opening closing parts)
  = String.length opening + String.length (join "," parts)
    + String.length closing.
Proof.
  destruct parts as [|p parts]; [congruence|]. intros _.
  unfold enclose. rewrite !append_length. lia.
Qed.

(** The parser's fuel, the length of the text, is enough. *)
Lemma weight_text (v : value) :
  Spec.representable v = true ->
  Spec.weight v <= String.length (Spec.text v).
Proof.
  induction v as [| |b|m scale|s|xs IH|ps IH] using value_induction;
    intros Hrep; try discriminate Hrep.
  - simpl. lia.
  - destruct b; simpl; lia.
  - destruct (text_head _ Hrep) as [c [r [-> _]]]. simpl. lia.
  - simpl. lia.
  - pose proof (representable_array xs Hrep) as Hall.
    rewrite weight_array, text_array.
    assert (H : Forall (fun x => Spec.weight x
                                 <= String.length (Spec.text x)) xs).
    { clear Hrep. induction IH as [|x xs Hx Hxs IHxs]; constructor;
        inversion Hall; subst; auto. }
    pose proof (join_length_bound Spec.weight Spec.text H) as Hsum.
    destruct xs as [|x xs']; [cbv; lia|].
    rewrite enclose_length by discriminate.
    unfold Spec.total. simpl String.length at 1 3. lia.
  - destruct (representable_object ps Hrep) as [_ Hall].
    assert (Hdef : Forall (fun kv => snd kv <> VUndef) ps).
    { eapply Forall_impl; [|exact Hall]. intros kv [_ H].
      now apply representable_defined. }
    rewrite weight_object, text_object by exact Hdef.
    assert (H : Forall (fun kv => Spec.weight (snd kv)
                                  <= String.length (Spec.entry_text kv)) ps).
    { clear Hrep Hdef. induction IH as [|[k x] ps Hx Hxs IHxs]; constructor;
        inversion Hall as [|? ? [_ Hrx] Hrxs]; subst; auto.
      unfold Spec.entry_text. rewrite !append_length.
      cbn [fst snd] in *. specialize (Hx Hrx). lia. }
    pose proof (join_length_bound (fun kv => Spec.weight (snd kv))
                                  Spec.entry_text H) as Hsum.
    destruct ps as [|kx ps']; [cbv; lia|].
    rewrite enclose_length by discriminate.
    unfold Spec.total. rewrite map_map.
    simpl String.length at 1 3. lia.
Qed.

Lemma chars_digits (d : Decimal.uint) :
  Utf8.chars (NilEmpty.string_of_uint d).
Proof.
  induction d; simpl; try (apply Utf8.chars_one; [reflexivity | assumption]).
  constructor.
Qed.

Lemma chars_integer (m : Z) : Utf8.chars (string_of_Z m).
Proof.
  unfold string_of_Z. destruct m as [|p|p].
  - apply well_formed_chars. reflexivity.
  - cbn [Z.to_int NilZero.string_of_int].
    rewrite canonical_text by apply canonical_positive.
    apply chars_digits.
  - cbn [Z.to_int NilZero.string_of_int].
    rewrite canonical_text by apply canonical_positive.
    apply Utf8.chars_one; [reflexivity | apply chars_digits].
Qed.

Lemma escape_char_low (c : ascii) :
  (code c <? 128)%nat = true -> Utf8.chars (escape_char c).
Proof.
  destruct c as [[] [] [] [] [] [] [] []]; intros H; try discriminate H;
    apply well_formed_chars; reflexivity.
Qed.

Lemma escape_char_high (c : ascii) :
  (code c <? 128)%nat = false -> escape_char c = String c "".
Proof.
  destruct c as [[] [] [] [] [] [] [] []]; intros H; try discriminate H;
    reflexivity.
Qed.

Lemma between_high (lo hi : nat) (c : ascii) :
  128 <= lo -> between lo hi c = true -> (code c <? 128)%nat = false.
Proof.
  intros Hlo H. unfold between in H. apply andb_prop in H.
  destruct H as [H _]. apply Nat.leb_le in H. apply Nat.ltb_ge. lia.
Qed.

Lemma second_low_high (b0 : ascii) : 128 <= Utf8.second_low b0.
Proof.
  unfold Utf8.second_low.
  destruct (code b0 =? 224)%nat; [lia|].
  destruct (code b0 =? 240)%nat; lia.
Qed.

Lemma escape_high (c : ascii) (r : string) :
  (code c <? 128)%nat = false -> escape (String c r) = String c (escape r).
Proof. intros H. cbn [escape]. now rewrite escape_char_high. Qed.

(** Escaping keeps a text well formed. *)
Lemma chars_escape (s : string) : Utf8.chars s -> Utf8.chars (escape s).
Proof.
  induction 1 as [|b0 r H0 Hr IH|b0 b1 r H0 Hb0 Hb1 Hr IH
                  |b0 b1 b2 r H0 Hn2 Hb0 Hb1 Hb2 Hr IH
                  |b0 b1 b2 b3 r H0 Hn2 Hn3 Hb0 Hb1 Hb2 Hb3 Hr IH].
  - constructor.
  - cbn [escape]. apply chars_append; [now apply escape_char_low | exact IH].
  - rewrite escape_high by exact H0.
    rewrite escape_high by (eapply between_high; [|exact Hb1]; lia).
    now apply Utf8.chars_two.
  - rewrite escape_high by exact H0.
    rewrite escape_high
      by (eapply between_high; [apply second_low_high | exact Hb1]).
    rewrite escape_high by (eapply between_high; [|exact Hb2]; lia).
    now apply Utf8.chars_three.
  - rewrite escape_high by exact H0.
    rewrite escape_high
      by (eapply between_high; [apply second_low_high | exact Hb1]).
    rewrite escape_high by (eapply between_high; [|exact Hb2]; lia).
    rewrite escape_high by (eapply between_high; [|exact Hb3]; lia).
    now apply Utf8.chars_four.
Qed.

Lemma chars_quote (s : string) : Utf8.well_formed s = true -> Utf8.chars (quote s).
Proof.
  intros H. unfold quote. apply Utf8.chars_one; [reflexivity|].
  apply chars_append.
  - apply chars_escape. now apply well_formed_chars.
  - apply well_formed_chars. reflexivity.
Qed.

Lemma chars_join (l : list string) :
  Forall Utf8.chars l -> Utf8.chars (join "," l).
Proof.
  induction 1 as [|a l Ha Hl IH]; [constructor|].
  destruct l as [|b l]; [exact Ha|].
  change (join "," (a :: b :: l)) with (a ++ "," ++ join "," (b :: l)).
  apply chars_append; [exact Ha|].
  apply Utf8.chars_one; [reflexivity | exact IH].
Qed.

Lemma chars_enclose (opening closing : string) (parts : list string) :
  Utf8.chars opening -> Utf8.chars closing -> Forall Utf8.chars parts ->
  Utf8.chars (enclose opening closing parts).
Proof.
  intros Ho Hc Hp. destruct parts as [|p parts]; unfold enclose.
  - now apply chars_append.
  - apply chars_append; [exact Ho|].
    apply chars_append; [now apply chars_join | exact Hc].
Qed.

(** [JSON.stringify] writes well-formed text. *)
Lemma chars_text (v : value) :
  Spec.representable v = true -> Utf8.chars (Spec.text v).
Proof.
  induction v as [| |b|m scale|s|xs IH|ps IH] using value_induction;
    intros Hrep; try discriminate Hrep.
  - apply well_formed_chars. reflexivity.
  - destruct b; apply well_formed_chars; reflexivity.
  - simpl in Hrep. apply andb_prop in Hrep. destruct Hrep as [Hs Hm].
    apply Nat.eqb_eq in Hs. subst scale. rewrite text_number by exact Hm.
    apply chars_integer.
  - now apply chars_quote.
  - pose proof (representable_array xs Hrep) as Hall.
    rewrite text_array.
    apply chars_enclose; try (apply well_formed_chars; reflexivity).
    clear Hrep. induction IH as [|x xs Hx Hxs IHxs]; [constructor|].
    inversion Hall; subst. constructor; auto.
  - destruct (representable_object ps Hrep) as [_ Hall].
    assert (Hdef : Forall (fun kv => snd kv <> VUndef) ps).
    { eapply Forall_impl; [|exact Hall]. intros kv [_ H].
      now apply representable_defined. }
    rewrite text_object by exact Hdef.
    apply chars_enclose; try (apply well_formed_chars; reflexivity).
    clear Hrep Hdef. induction IH as [|[k x] ps Hx Hxs IHxs]; [constructor|].
    inversion Hall as [|? ? [Hk Hrx] Hrxs]; subst. constructor; auto.
    unfold Spec.entry_text. cbn [fst snd] in *.
    apply chars_append; [now apply chars_quote|].
    apply Utf8.chars_one; [reflexivity | auto].
Qed.

(** [JSON.parse(JSON.stringify(v))] is [v]. *)
Theorem parse_stringify (v : value) :
  Spec.representable v = true -> parse (Spec.text v) = Ok v.
Proof.
  intros Hrep. unfold parse.
  pose proof (@value_reads_back v Hrep (S (String.length (Spec.text v))) "")
    as H.
  rewrite append_empty in H. rewrite H.
  - reflexivity.
  - pose proof (weight_text v Hrep). lia.
  - now left.
Qed.

End SerializedTexts.

(** ** The resume token of the search *)

Section NextToken.
Import Text Js Json.

Lemma encode_shape (k : value) (t : string) :
  Search.encode k = Ok (VStr t) ->
  t = "" \/ exists text, stringify k = Some text /\ t = Base64.encode text.
Proof.
  unfold Search.encode. destruct (truthy k); [|discriminate].
  destruct (stringify k) as [text|]; [|discriminate].
  unfold land. cbn [obind truthy].
  destruct (Utf8.decode (Base64.decode text) =? "") eqn:E; cbn [negb].
  - apply String.eqb_eq in E. rewrite E. intros [= <-]. now left.
  - intros [= <-]. right. exists text. split; reflexivity.
Qed.

Lemma start_key_decoded (token : string) :
  token <> "" ->
  Search.start_key (Some token)
  = match Search.decode token with
    | Ok v => Some v
    | Raise => None
    end.
Proof.
  intros H. apply String.eqb_neq in H.
  unfold Search.start_key, set, opt, or_default. cbn [truthy].
  rewrite H. reflexivity.
Qed.

Lemma start_key_raise (token : string) :
  Search.decode token = Raise -> Search.start_key (Some token) = None.
Proof.
  intros H. unfold Search.start_key.
  destruct (set (Some token)); [|reflexivity].
  unfold or_default. destruct (token =? "") eqn:E.
  - apply String.eqb_eq in E. subst token. now rewrite H.
  - now rewrite H.
Qed.

(** Decoding the token of a representable key gives the key. *)
Lemma decode_encoded (k : value) :
  Spec.representable k = true ->
  Search.decode (Base64.encode (Spec.text k)) = Ok k.
Proof.
  intros Hrep. unfold Search.decode.
  rewrite base64_round_trip.
  rewrite decode_chars by now apply chars_text.
  now apply parse_stringify.
Qed.

(** C4 (amended).  For every JSON-representable last evaluated key [k]
    (no [undefined], integers a double holds exactly, well-formed texts,
    objects in property order) for which the response carries a non-empty
    [nextToken] [t], sending [t] back makes [ExclusiveStartKey] equal to
    [k].  For every string sent as [nextToken] the decoding raises
    nothing: when the decoded text is not JSON there is no
    [ExclusiveStartKey], and when a non-empty token decodes to a JSON text,
    whoever wrote it, the parsed value is the [ExclusiveStartKey]. *)
Theorem next_token_round_trip (k : value) (t : string)
    (Hrep : Spec.representable k = true)
    (Henc : Search.encode k = Ok (VStr t))
    (Hne : t <> "") :
  Search.start_key (Some t) = Some k
  /\ forall token,
       (Search.decode token = Raise -> Search.start_key (Some token) = None)
       /\ (forall v, token <> "" -> Search.decode token = Ok v ->
                     Search.start_key (Some token) = Some v).
Proof.
  split.
  - destruct (encode_shape _ Henc) as [E | [text [Htext E]]]; [contradiction|].
    rewrite text_stringify in Htext by now apply representable_defined.
    injection Htext as <-. subst t.
    rewrite start_key_decoded by exact Hne.
    now rewrite decode_encoded.
  - intros token. split.
    + apply start_key_raise.
    + intros v Htoken Hv. rewrite start_key_decoded by exact Htoken.
      now rewrite Hv.
Qed.

Lemma next_token_round_trip_witness :
  Search.start_key (Some last_token) = Some last_key
  /\ forall token,
       (Search.decode token = Raise -> Search.start_key (Some token) = None)
       /\ (forall v, token <> "" -> Search.decode token = Ok v ->
                     Search.start_key (Some token) = Some v).
Proof.
  apply (@next_token_round_trip last_key last_token).
  - reflexivity.
  - reflexivity.
  - discriminate.
Defined.

(** C4 (as stated) fails in its second half: the encoder writes whole
    groups of four characters, so it never writes the unpadded token, and
    yet that token is decoded to a key. *)
Lemma next_token_exceptions :
  (forall k, Search.encode k <> Ok (VStr unpadded_token))
  /\ Search.decode unpadded_token = Ok short_key
  /\ Search.start_key (Some unpadded_token) = Some short_key.
Proof.
  split; [|split; vm_compute; reflexivity].
  intros k H. apply encode_shape in H.
  destruct H as [H | [text [_ H]]]; [discriminate H|].
  pose proof (encode_length text) as L.
  rewrite <- H in L. discriminate L.
Qed.

(** The guard in front of the encoder is empty for the empty object: its
    token is the empty string, which starts the scan again. *)
Example empty_key_token :
  Spec.representable (VObj []) = true
  /\ Search.encode (VObj []) = Ok (VStr "")
  /\ Search.start_key (Some "") = None.
Proof. repeat split. Qed.

End NextToken.

(** ** The calls of one ingestion, block by block *)

Section SinkLog.
Import Js Submit.
Local Open Scope js_scope.

Variables (env : Env) (sdk : sdk_load) (rt : Runtime) (w : World).

Lemma sends_at_most_refl (P : call -> Prop) (t : list call) :
  sends_at_most P t t.
Proof. now left. Qed.

Lemma fetch_at_most url headers text (t : list call) :
  exists r t', fetch rt w url headers text t = (r, t')
               /\ sends_at_most (fun c => c = HttpPost url headers text) t t'.
Proof.
  unfold fetch. destruct (has_fetch rt).
  - unfold send. do 2 eexists. split; [reflexivity|].
    right. eexists. split; reflexivity.
  - do 2 eexists. split; [reflexivity | now left].
Qed.

Lemma lift_at_most {A} (P : call -> Prop) (o : outcome A) (f : A -> io unit)
    (t : list call) :
  (forall a t0, exists r t', f a t0 = (r, t') /\ sends_at_most P t0 t') ->
  exists r t', bind (lift o) f t = (r, t') /\ sends_at_most P t t'.
Proof.
  intros Hf. rewrite bind_run. unfold lift.
  destruct o as [a|]; [apply Hf|].
  do 2 eexists. split; [reflexivity | now left].
Qed.

Lemma guarded_at_most (P : call -> Prop) (m : io unit) (t : list call) :
  (forall t0, exists r t', m t0 = (r, t') /\ sends_at_most P t0 t') ->
  exists t', try_catch m (ret tt) t = (Ok tt, t') /\ sends_at_most P t t'.
Proof.
  intros Hm. unfold try_catch.
  destruct (Hm t) as ([[]|] & t' & -> & Hposts); eexists; split;
    try reflexivity; exact Hposts.
Qed.

Lemma hubspot_at_most email first last phone company annual country
    (t : list call) :
  exists r t', hubspot env rt w email first last phone company annual country t
               = (r, t')
               /\ sends_at_most (hubspot_post env) t t'.
Proof.
  unfold hubspot.
  apply lift_at_most. intros properties t0.
  apply lift_at_most. intros text t1.
  destruct (fetch_at_most hubspot_url (hubspot_headers env) text t1)
    as (r & t' & Hf & [->|(c & -> & ->)]);
    exists r; eexists; (split; [exact Hf|]).
  - now left.
  - right. eexists. split; [exists text; reflexivity | reflexivity].
Qed.

Lemma close_at_most payload email first last phone company (t : list call) :
  exists r t', close env rt w payload email first last phone company t = (r, t')
               /\ sends_at_most (close_post env) t t'.
Proof.
  unfold close.
  apply lift_at_most. intros full t0.
  apply lift_at_most. intros name t1.
  apply lift_at_most. intros contact_name t2.
  apply lift_at_most. intros source t3.
  apply lift_at_most. intros text t4.
  destruct (fetch_at_most close_url (close_headers env) text t4)
    as (r & t' & Hf & [->|(c & -> & ->)]);
    exists r; eexists; (split; [exact Hf|]).
  - now left.
  - right. eexists. split; [exists text; reflexivity | reflexivity].
Qed.

(** The CRM stage: at most one post to HubSpot, then at most one to Close,
    each only for a final submission and with its credential set. *)
Lemma crm_log (payload status : value) (t : list call) :
  exists hub cl,
    crm env rt w payload status t = (Ok tt, (t ++ hub ++ cl)%list)
    /\ (hub = []
        \/ is_final status = true /\ set (HUBSPOT_TOKEN env) = true
           /\ exists c, hubspot_post env c /\ hub = [c])
    /\ (cl = []
        \/ is_final status = true /\ set (CLOSE_API_KEY env) = true
           /\ exists c, close_post env c /\ cl = [c]).
Proof.
  unfold crm.
  destruct (is_final status) eqn:Hfinal.
  2:{ exists [], []. rewrite !app_nil_r. repeat split; auto. }
  destruct (data_of_returns payload) as [data ->].
  rewrite bind_run. unfold lift at 1.
  repeat (rewrite guarded_or; rewrite bind_run; unfold lift at 1).
  destruct (guarded_either data "name" "company_name" (VStr "")) as [company ->].
  rewrite bind_run. unfold lift at 1.
  repeat (rewrite guarded_or; rewrite bind_run; unfold lift at 1).
  rewrite bind_run.
  match goal with
  | |- context [if set (HUBSPOT_TOKEN env) then try_catch ?m _ else _] =>
      assert (Hh : exists hub,
                (if set (HUBSPOT_TOKEN env)
                 then try_catch m (ret tt) else ret tt) t
                = (Ok tt, (t ++ hub)%list)
                /\ (hub = []
                    \/ set (HUBSPOT_TOKEN env) = true
                       /\ exists c, hubspot_post env c /\ hub = [c]))
  end.
  { destruct (set (HUBSPOT_TOKEN env)).
    - edestruct guarded_at_most as (t' & Ht' & [->|(c & Hc & ->)]);
        [intros t0; apply hubspot_at_most | | ].
      + exists []. rewrite app_nil_r. split; [exact Ht' | now left].
      + exists [c]. split; [exact Ht'|]. right. split; [reflexivity|].
        exists c. split; [exact Hc | reflexivity].
    - exists []. rewrite app_nil_r. split; [reflexivity | now left]. }
  destruct Hh as (hub & -> & Hhub).
  match goal with
  | |- context [if set (CLOSE_API_KEY env) then try_catch ?m _ else _] =>
      assert (Hc : exists cl,
                (if set (CLOSE_API_KEY env)
                 then try_catch m (ret tt) else ret tt) (t ++ hub)%list
                = (Ok tt, ((t ++ hub) ++ cl)%list)
                /\ (cl = []
                    \/ set (CLOSE_API_KEY env) = true
                       /\ exists c, close_post env c /\ cl = [c]))
  end.
  { destruct (set (CLOSE_API_KEY env)).
    - edestruct guarded_at_most as (t' & Ht' & [->|(c & Hc & ->)]);
        [intros t0; apply close_at_most | | ].
      + exists []. rewrite app_nil_r. split; [exact Ht' | now left].
      + exists [c]. split; [exact Ht'|]. right. split; [reflexivity|].
        exists c. split; [exact Hc | reflexivity].
    - exists []. rewrite app_nil_r. split; [reflexivity | now left]. }
  destruct Hc as (cl & -> & Hcl).
  exists hub, cl. rewrite <- app_assoc. split; [reflexivity|].
  split.
  - destruct Hhub as [->|[Hs Hc]]; [now left | right; auto].
  - destruct Hcl as [->|[Hs Hc]]; [now left | right; auto].
Qed.

Lemma notify_log (payload status : value) (doc : props) (key : string)
    (t : list call) :
  exists ses,
    notify env sdk w payload status doc key t = (Ok tt, (t ++ ses)%list)
    /\ (ses = []
        \/ is_final status = true
           /\ exists region recipient sender subject text,
                mail_body payload status doc key = Ok text
                /\ ses = [SesSend region recipient sender subject text]).
Proof.
  destruct (is_final status) eqn:Hfinal.
  - destruct (notify_cases env sdk w payload status doc key t)
      as [->|(region & recipient & sender & subject & text & Hbody & ->)].
    + exists []. rewrite app_nil_r. split; [reflexivity | now left].
    + eexists. split; [reflexivity|]. right. split; [reflexivity|].
      do 5 eexists. split; [exact Hbody | reflexivity].
  - exists []. rewrite app_nil_r. split; [|now left].
    unfold notify. rewrite Hfinal. reflexivity.
Qed.

Lemma index_log (payload : value) (doc : props) (key : string)
    (t : list call) :
  exists ddb,
    index env sdk w payload doc key t = (Ok tt, (t ++ ddb)%list)
    /\ (ddb = []
        \/ exists region table record,
             index_record payload doc key = Ok record
             /\ ddb = [DdbPut region table record]).
Proof.
  destruct (index_cases env sdk w payload doc key t)
    as [->|(region & table & record & Hrec & ->)].
  - exists []. rewrite app_nil_r. split; [reflexivity | now left].
  - eexists. split; [reflexivity|]. right.
    do 3 eexists. split; [exact Hrec | reflexivity].
Qed.

Lemma store_log (payload status : value) (doc : props) :
  exists stored key s3,
    store env sdk rt w payload status doc [] = (Ok (stored, key), s3)
    /\ (s3 = [] /\ key = "" /\ (stored = "none" \/ stored = "error")
        \/ exists k text,
             derive_key env rt payload status doc = Ok k
             /\ Json.stringify_pretty (VObj doc) = Some text
             /\ s3 = [S3Put (text_of (AWS_REGION env))
                        (text_of (AWS_S3_BUCKET env)) k text]
             /\ (stored = "s3" /\ key = k /\ rejects w
                   (S3Put (text_of (AWS_REGION env))
                      (text_of (AWS_S3_BUCKET env)) k text) = false
                 \/ stored = "error" /\ key = "" /\ rejects w
                   (S3Put (text_of (AWS_REGION env))
                      (text_of (AWS_S3_BUCKET env)) k text) = true)).
Proof.
  unfold store.
  destruct (_ && _ && _)%bool.
  2:{ exists "none", "", []. split; [reflexivity|]. left. auto. }
  destruct (pretty_object doc) as [text Htext]. rewrite Htext.
  destruct (derive_key env rt payload status doc) as [k|] eqn:Hkey.
  2:{ exists "error", "", []. split; [reflexivity|]. left. auto. }
  cbv [bind lift try_catch send ask ret some_text]. cbn [app].
  destruct (rejects w _) eqn:Hrej.
  - exists "error", "". eexists. split; [reflexivity|]. right.
    exists k, text. repeat split; auto.
  - exists "s3", k. eexists. split; [reflexivity|]. right.
    exists k, text. repeat split; auto.
Qed.

(** A POST run as the concatenation of what its five blocks sent. *)
Lemma run_log (req : Request) :
  method req = "POST" ->
  exists id stored key s3 ddb ses hub cl,
    let status := VStr (Spec.normal_status (payload req)) in
    let doc := document rt req id status in
    ($(match Spec.supplied_id (payload req) with
       | Some s => VStr s
       | None => VUndef
       end) ||| $(VStr (uuid rt))) = Ok id
    /\ (s3 = [] /\ key = "" /\ (stored = "none" \/ stored = "error")
        \/ exists k text,
             derive_key env rt (payload req) status doc = Ok k
             /\ Json.stringify_pretty (VObj doc) = Some text
             /\ s3 = [S3Put (text_of (AWS_REGION env))
                        (text_of (AWS_S3_BUCKET env)) k text]
             /\ (stored = "s3" /\ key = k /\ rejects w
                   (S3Put (text_of (AWS_REGION env))
                      (text_of (AWS_S3_BUCKET env)) k text) = false
                 \/ stored = "error" /\ key = "" /\ rejects w
                   (S3Put (text_of (AWS_REGION env))
                      (text_of (AWS_S3_BUCKET env)) k text) = true))
    /\ Submit.run env sdk rt w req
       = (Ok (json 200
                [ ("ok", VBool true); ("stored", VStr stored);
                  ("key", VStr key);
                  ("id", Spec.overridden (payload req) "id" id);
                  ("status", Spec.overridden (payload req) "status" status) ]),
          (s3 ++ ddb ++ ses ++ hub ++ cl)%list)
    /\ (ddb = []
        \/ exists region table record,
             index_record (payload req) doc key = Ok record
             /\ ddb = [DdbPut region table record])
    /\ (ses = []
        \/ is_final status = true
           /\ exists region recipient sender subject text,
                mail_body (payload req) status doc key = Ok text
                /\ ses = [SesSend region recipient sender subject text])
    /\ (hub = []
        \/ is_final status = true /\ set (HUBSPOT_TOKEN env) = true
           /\ exists c, hubspot_post env c /\ hub = [c])
    /\ (cl = []
        \/ is_final status = true /\ set (CLOSE_API_KEY env) = true
           /\ exists c, close_post env c /\ cl = [c]).
Proof.
  intros Hpost.
  unfold Submit.run, handler. rewrite Hpost.
  change ("POST" =? "OPTIONS") with false.
  change (negb ("POST" =? "POST")) with false. cbv iota.
  rewrite client_id_supplied, status_of_normal.
  remember (VStr (Spec.normal_status (payload req))) as status eqn:Hstatus.
  remember (match Spec.supplied_id (payload req) with
            | Some s => VStr s
            | None => VUndef
            end) as clientId eqn:HclientId.
  assert (Hid : exists id, ($clientId ||| $(VStr (uuid rt))) = Ok id).
  { cbn [lor obind]. destruct (truthy clientId); eexists; reflexivity. }
  destruct Hid as [id Hid].
  cbv [bind lift ret fst snd]. rewrite Hid. cbv beta iota zeta.
  remember (document rt req id status) as doc eqn:Hdoc.
  destruct (store_log (payload req) status doc)
    as (stored & key & s3 & Hs & Hs3).
  destruct (index_log (payload req) doc key s3) as (ddb & Hi & Hddb).
  destruct (notify_log (payload req) status doc key (s3 ++ ddb)%list)
    as (ses & Hn & Hses).
  destruct (crm_log (payload req) status ((s3 ++ ddb) ++ ses)%list)
    as (hub & cl & Hc & Hhub & Hcl).
  exists id, stored, key, s3, ddb, ses, hub, cl. cbv zeta.
  split; [first [reflexivity | subst clientId; exact Hid]|].
  split; [rewrite <- Hdoc; exact Hs3|].
  rewrite <- Hdoc.
  split; [|repeat split; assumption].
  rewrite Hs. cbv beta iota. cbn [fst snd].
  rewrite Hi, Hn, Hc. cbv [dot obind].
  subst doc. rewrite document_id, document_status.
  rewrite <- !app_assoc. reflexivity.
Qed.

End SinkLog.

(** ** The fan-out of one submission *)

Section FanOut.
Import Js Submit.
Local Open Scope js_scope.

Lemma final_text (s : string) : s <> "final" -> is_final (VStr s) = false.
Proof. intros H. simpl. now apply String.eqb_neq. Qed.

(** X1.  The sinks of a POST are reached in the order of the handler's
    blocks and each at most once: the object store, then the index table,
    then the mail service, then HubSpot, then Close.  Nothing else is
    called. *)
Theorem sinks_in_order
    (env : Env) (sdk : sdk_load) (rt : Runtime) (w : World) (req : Request)
    (Hpost : method req = "POST") :
  ascending (map stage (snd (Submit.run env sdk rt w req))) = true
  /\ forallb (fun c => (stage c <? 5)%nat) (snd (Submit.run env sdk rt w req))
     = true.
Proof.
  destruct (run_log env sdk rt w req Hpost)
    as (id & stored & key & s3 & ddb & ses & hub & cl & H).
  cbv zeta in H. destruct H as (_ & Hs3 & -> & Hddb & Hses & Hhub & Hcl).
  cbn [snd].
  destruct Hs3 as [(-> & _)|(k & text & _ & _ & -> & _)];
    destruct Hddb as [->|(? & ? & ? & _ & ->)];
    destruct Hses as [->|(_ & ? & ? & ? & ? & ? & _ & ->)];
    destruct Hhub as [->|(_ & _ & ? & [? ->] & ->)];
    destruct Hcl as [->|(_ & _ & ? & [? ->] & ->)];
    split; reflexivity.
Qed.

Lemma sinks_in_order_witness :
  ascending
    (map stage
       (snd (Submit.run full_env AllSdk sample_runtime silent_world
               (post lead)))) = true
  /\ forallb (fun c => (stage c <? 5)%nat)
       (snd (Submit.run full_env AllSdk sample_runtime silent_world
               (post lead))) = true.
Proof.
  exact (@sinks_in_order full_env AllSdk sample_runtime silent_world
           (post lead) eq_refl).
Defined.

(** X2.  A submission whose status is not ["final"] (after lower-casing)
    reaches the object store and the index table only: no mail is sent
    and no CRM is called, whatever is configured. *)
Theorem unfinished_stays_inside
    (env : Env) (sdk : sdk_load) (rt : Runtime) (w : World) (req : Request)
    (Hpost : method req = "POST")
    (Hdraft : Spec.normal_status (payload req) <> "final") :
  forallb (fun c => (stage c <? 2)%nat) (snd (Submit.run env sdk rt w req))
  = true.
Proof.
  destruct (run_log env sdk rt w req Hpost)
    as (id & stored & key & s3 & ddb & ses & hub & cl & H).
  cbv zeta in H. destruct H as (_ & Hs3 & -> & Hddb & Hses & Hhub & Hcl).
  cbn [snd]. pose proof (final_text Hdraft) as Hfinal.
  destruct Hses as [->|(Hf & _)]; [|congruence].
  destruct Hhub as [->|(Hf & _)]; [|congruence].
  destruct Hcl as [->|(Hf & _)]; [|congruence].
  destruct Hs3 as [(-> & _)|(k & text & _ & _ & -> & _)];
    destruct Hddb as [->|(? & ? & ? & _ & ->)]; reflexivity.
Qed.

Lemma unfinished_stays_inside_witness :
  forallb (fun c => (stage c <? 2)%nat)
    (snd (Submit.run full_env AllSdk sample_runtime silent_world (post draft)))
  = true.
Proof.
  apply (@unfinished_stays_inside full_env AllSdk sample_runtime silent_world
           (post draft) eq_refl).
  vm_compute. discriminate.
Defined.

(** X3.  The answer of a POST tells what was stored.  [stored] is ["s3"]
    exactly when a write was sent to the object store and accepted.  Every
    write sent goes to the configured bucket and region, carries the
    indented JSON text of a document whose [id] and [status] are the ones
    in the answer, and, when it was accepted, sits under the [key] of the
    answer. *)
Theorem stored_means_written
    (env : Env) (sdk : sdk_load) (rt : Runtime) (w : World) (req : Request)
    (Hpost : method req = "POST") :
  exists stored key id status calls,
    Submit.run env sdk rt w req
    = (Ok (json 200 [ ("ok", VBool true); ("stored", VStr stored);
                      ("key", VStr key); ("id", id); ("status", status) ]),
       calls)
    /\ (stored = "s3"
        <-> exists region bucket k text,
              In (S3Put region bucket k text) calls
              /\ rejects w (S3Put region bucket k text) = false)
    /\ (forall region bucket k text,
          In (S3Put region bucket k text) calls ->
          region = text_of (AWS_REGION env)
          /\ bucket = text_of (AWS_S3_BUCKET env)
          /\ (rejects w (S3Put region bucket k text) = false -> k = key)
          /\ exists doc,
               Json.stringify_pretty (VObj doc) = Some text
               /\ member (VObj doc) "id" = Ok id
               /\ member (VObj doc) "status" = Ok status).
Proof.
  destruct (run_log env sdk rt w req Hpost)
    as (id & stored & key & s3 & ddb & ses & hub & cl & H).
  cbv zeta in H. destruct H as (_ & Hs3 & Hrun & Hddb & Hses & Hhub & Hcl).
  do 5 eexists. split; [exact Hrun|].
  assert (Hput : forall region bucket k text,
            In (S3Put region bucket k text) (s3 ++ ddb ++ ses ++ hub ++ cl)%list ->
            In (S3Put region bucket k text) s3).
  { intros region bucket k text Hin.
    apply in_app_or in Hin. destruct Hin as [Hin|Hin]; [exact Hin|].
    exfalso.
    apply in_app_or in Hin. destruct Hin as [Hin|Hin].
    { destruct Hddb as [->|(? & ? & ? & _ & ->)];
        [destruct Hin | destruct Hin as [Hin|[]]; discriminate Hin]. }
    apply in_app_or in Hin. destruct Hin as [Hin|Hin].
    { destruct Hses as [->|(_ & ? & ? & ? & ? & ? & _ & ->)];
        [destruct Hin | destruct Hin as [Hin|[]]; discriminate Hin]. }
    apply in_app_or in Hin. destruct Hin as [Hin|Hin].
    { destruct Hhub as [->|(_ & _ & ? & [? ->] & ->)];
        [destruct Hin | destruct Hin as [Hin|[]]; discriminate Hin]. }
    destruct Hcl as [->|(_ & _ & ? & [? ->] & ->)];
      [destruct Hin | destruct Hin as [Hin|[]]; discriminate Hin]. }
  split.
  - split.
    + intros ->.
      destruct Hs3 as [(_ & _ & [H|H])|(k & text & _ & _ & -> & Hk)];
        try discriminate H.
      destruct Hk as [(_ & _ & Hrej)|(H & _)]; [|discriminate H].
      do 4 eexists. split; [left; reflexivity | exact Hrej].
    + intros (region & bucket & k & text & Hin & Hrej).
      apply Hput in Hin.
      destruct Hs3 as [(-> & _)|(k' & text' & _ & _ & -> & Hk)];
        [destruct Hin|].
      destruct Hin as [Hin|[]]. injection Hin as <- <- <- <-.
      destruct Hk as [(-> & _)|(_ & _ & Hrej')]; [reflexivity | congruence].
  - intros region bucket k text Hin. apply Hput in Hin.
    destruct Hs3 as [(-> & _)|(k' & text' & _ & Htext & -> & Hk)];
      [destruct Hin|].
    destruct Hin as [Hin|[]]. injection Hin as <- <- <- <-.
    split; [reflexivity|]. split; [reflexivity|]. split.
    + intros Hrej. destruct Hk as [(_ & -> & _)|(_ & _ & Hrej')];
        [reflexivity | congruence].
    + eexists. split; [exact Htext|].
      split; [apply document_id | apply document_status].
Qed.

Lemma stored_means_written_witness :
  exists stored key id status calls,
    Submit.run full_env AllSdk sample_runtime silent_world (post lead)
    = (Ok (json 200 [ ("ok", VBool true); ("stored", VStr stored);
                      ("key", VStr key); ("id", id); ("status", status) ]),
       calls)
    /\ (stored = "s3"
        <-> exists region bucket k text,
              In (S3Put region bucket k text) calls
              /\ rejects silent_world (S3Put region bucket k text) = false)
    /\ (forall region bucket k text,
          In (S3Put region bucket k text) calls ->
          region = text_of (AWS_REGION full_env)
          /\ bucket = text_of (AWS_S3_BUCKET full_env)
          /\ (rejects silent_world (S3Put region bucket k text) = false ->
              k = key)
          /\ exists doc,
               Json.stringify_pretty (VObj doc) = Some text
               /\ member (VObj doc) "id" = Ok id
               /\ member (VObj doc) "status" = Ok status).
Proof.
  exact (@stored_means_written full_env AllSdk sample_runtime silent_world
           (post lead) eq_refl).
Defined.

(** X4.  The credential of a post to Close is the API key: the
    [Authorization] header is [Basic] followed by a token whose base64
    decoding is the key followed by a colon. *)
Theorem close_credential_decodes
    (env : Env) (sdk : sdk_load) (rt : Runtime) (w : World) (req : Request)
    (headers : list (string * string)) (text : string)
    (Hpost : method req = "POST")
    (Hsent : In (HttpPost close_url headers text)
                (snd (Submit.run env sdk rt w req))) :
  exists key token,
    CLOSE_API_KEY env = Some key /\ key <> ""
    /\ headers = [ ("Content-Type", "application/json");
                   ("Authorization", "Basic " ++ token) ]
    /\ Base64.decode token = key ++ ":".
Proof.
  destruct (run_log env sdk rt w req Hpost)
    as (id & stored & key & s3 & ddb & ses & hub & cl & H).
  cbv zeta in H. destruct H as (_ & Hs3 & Hrun & Hddb & Hses & Hhub & Hcl).
  rewrite Hrun in Hsent. cbn [snd] in Hsent.
  assert (Hin : In (HttpPost close_url headers text) cl).
  { apply in_app_or in Hsent. destruct Hsent as [Hin|Hin].
    { exfalso.
      destruct Hs3 as [(-> & _)|(k & body & _ & _ & -> & _)];
        [destruct Hin | destruct Hin as [Hin|[]]; discriminate Hin]. }
    apply in_app_or in Hin. destruct Hin as [Hin|Hin].
    { exfalso.
      destruct Hddb as [->|(? & ? & ? & _ & ->)];
        [destruct Hin | destruct Hin as [Hin|[]]; discriminate Hin]. }
    apply in_app_or in Hin. destruct Hin as [Hin|Hin].
    { exfalso.
      destruct Hses as [->|(_ & ? & ? & ? & ? & ? & _ & ->)];
        [destruct Hin | destruct Hin as [Hin|[]]; discriminate Hin]. }
    apply in_app_or in Hin. destruct Hin as [Hin|Hin]; [|exact Hin].
    exfalso.
    destruct Hhub as [->|(_ & _ & ? & [? ->] & ->)];
      [destruct Hin | destruct Hin as [Hin|[]]; discriminate Hin]. }
  destruct Hcl as [->|(_ & Hset & c & [body ->] & ->)]; [destruct Hin|].
  destruct Hin as [Hin|[]]. injection Hin as <- <-.
  destruct (CLOSE_API_KEY env) as [secret|] eqn:Hkey; [|discriminate Hset].
  exists secret, (Base64.encode (secret ++ ":")).
  split; [reflexivity|]. split.
  - intros ->. discriminate Hset.
  - split.
    + unfold close_headers. rewrite Hkey. unfold text_of, or_default.
      destruct (secret =? "") eqn:E; [|reflexivity].
      apply String.eqb_eq in E. subst secret. discriminate Hset.
    + apply base64_round_trip.
Qed.

Lemma close_credential_decodes_witness :
  exists key token,
    CLOSE_API_KEY full_env = Some key /\ key <> ""
    /\ close_headers full_env
       = [ ("Content-Type", "application/json");
           ("Authorization", "Basic " ++ token) ]
    /\ Base64.decode token = key ++ ":".
Proof.
  exact (@close_credential_decodes full_env AllSdk sample_runtime silent_world
           (post lead) (close_headers full_env) lead_for_close eq_refl
           (or_intror (or_intror (or_intror (or_intror
              (or_introl eq_refl)))))).
Defined.

End FanOut.

(** ** The order of a listing *)

Section ListingOrder.
Import LeadsList.

Lemma insert_by_date_perm (o : S3Object) (l : list S3Object) :
  Permutation (insert_by_date o l) (o :: l).
Proof.
  induction l as [|x l IH]; simpl; [reflexivity|].
  destruct (modified x <? modified o)%Z; [reflexivity|].
  rewrite IH. apply perm_swap.
Qed.

Lemma insert_by_date_head (o x : S3Object) (l : list S3Object) :
  no_older x o -> HdRel no_older x l -> HdRel no_older x (insert_by_date o l).
Proof.
  intros Hxo Hl. destruct l as [|y l]; simpl.
  - constructor. exact Hxo.
  - destruct (modified y <? modified o)%Z.
    + constructor. exact Hxo.
    + constructor. inversion Hl; assumption.
Qed.

Lemma insert_by_date_sorted (o : S3Object) (l : list S3Object) :
  Sorted no_older l -> Sorted no_older (insert_by_date o l).
Proof.
  induction 1 as [|x l Hl IH Hx]; simpl.
  - repeat constructor.
  - destruct (modified x <? modified o)%Z eqn:E.
    + constructor; [constructor; assumption|].
      constructor. unfold no_older. apply Z.ltb_lt in E. lia.
    + constructor; [exact IH|].
      apply insert_by_date_head; [|exact Hx].
      unfold no_older. apply Z.ltb_ge in E. exact E.
Qed.

Lemma modified_at_older (t : Z) (l : list S3Object) (x : S3Object) :
  Sorted no_older (x :: l) -> (modified x < t)%Z -> modified_at t l = [].
Proof.
  intros Hs Hx. apply Sorted_StronglySorted in Hs.
  2:{ intros a b c Hab Hbc. unfold no_older in *. lia. }
  apply StronglySorted_inv in Hs. destruct Hs as [_ Hall].
  unfold modified_at. induction l as [|y l IH]; [reflexivity|].
  inversion Hall as [|? ? Hy Hrest]; subst. simpl.
  unfold no_older in Hy.
  destruct (modified y =? t)%Z eqn:E; [apply Z.eqb_eq in E; lia|].
  apply IH. exact Hrest.
Qed.

Lemma modified_at_cons (t : Z) (o : S3Object) (l : list S3Object) :
  modified_at t (o :: l)
  = ((if (modified o =? t)%Z then [o] else []) ++ modified_at t l)%list.
Proof. unfold modified_at. simpl. destruct (modified o =? t)%Z; reflexivity. Qed.

(** Among the objects of one date, the inserted one comes last. *)
Lemma insert_by_date_stable (t : Z) (o : S3Object) (l : list S3Object) :
  Sorted no_older l ->
  modified_at t (insert_by_date o l) = (modified_at t l ++ modified_at t [o])%list.
Proof.
  induction 1 as [|x l Hl IH Hx]; [reflexivity|].
  simpl insert_by_date.
  destruct (modified x <? modified o)%Z eqn:E.
  - apply Z.ltb_lt in E.
    rewrite (modified_at_cons t o (x :: l)), (modified_at_cons t o []).
    destruct (modified o =? t)%Z eqn:Eo.
    + apply Z.eqb_eq in Eo.
      assert (Hnone : modified_at t (x :: l) = []).
      { rewrite modified_at_cons.
        assert (Hx' : (modified x =? t)%Z = false) by (apply Z.eqb_neq; lia).
        rewrite Hx'.
        apply (@modified_at_older t l x); [constructor; assumption | lia]. }
      rewrite Hnone. reflexivity.
    + simpl. now rewrite app_nil_r.
  - rewrite (modified_at_cons t x (insert_by_date o l)), IH.
    rewrite (modified_at_cons t x l). now rewrite app_assoc.
Qed.

Lemma sorting_invariant (l acc : list S3Object) :
  Sorted no_older acc ->
  let r := fold_left (fun sorted o => insert_by_date o sorted) l acc in
  Sorted no_older r
  /\ Permutation r (acc ++ l)
  /\ forall t, modified_at t r = (modified_at t acc ++ modified_at t l)%list.
Proof.
  revert acc. induction l as [|o l IH]; intros acc Hacc; cbv zeta.
  - simpl. rewrite app_nil_r. repeat split; auto.
    intros t. now rewrite app_nil_r.
  - cbn [fold_left].
    destruct (IH (insert_by_date o acc) (insert_by_date_sorted o Hacc))
      as (Hs & Hp & Hst).
    split; [exact Hs|]. split.
    + rewrite Hp, insert_by_date_perm.
      change (o :: acc ++ l)%list with ((o :: acc) ++ l)%list.
      rewrite (Permutation_middle acc l o). reflexivity.
    + intros t. rewrite Hst, insert_by_date_stable by exact Hacc.
      rewrite <- app_assoc. f_equal.
      rewrite (modified_at_cons t o l), (modified_at_cons t o []).
      now rewrite app_nil_r.
Qed.


(** X5.  The sort of the list endpoint puts the objects newest first,
    keeps every object, and leaves objects of one date in the order of
    the listing. *)
Theorem newest_first_sorts (l : list S3Object) :
  Sorted no_older (newest_first l)
  /\ Permutation (newest_first l) l
  /\ forall t, modified_at t (newest_first l) = modified_at t l.
Proof.
  destruct (@sorting_invariant l [] (Sorted_nil _)) as (Hs & Hp & Hst).
  repeat split; assumption.
Qed.

End ListingOrder.

(** ** The list endpoint *)

Section Listing.
Import Js Admin LeadsList.
Local Open Scope js_scope.

Variables (w : World) (region bucket : string).

Lemma fetch_one_run (o : S3Object) (items : list value) (t : list call) :
  fetch_one w region bucket o items t
  = (Ok (items ++ read_back w region bucket o)%list,
     (t ++ [get_call region bucket o])%list).
Proof.
  unfold fetch_one, read_back, get_call.
  cbv [try_catch bind ask lift ret].
  destruct (object_text w region bucket (or_default (Key o) "")) as [text|].
  - destruct (Json.parse text); [reflexivity | now rewrite app_nil_r].
  - now rewrite app_nil_r.
Qed.

(** The loop over the chosen objects: one fetch each, in order; what
    cannot be fetched or parsed is left out. *)
Lemma fetch_all_run (top : list S3Object) :
  forall items t,
    fetch_all w region bucket top items t
    = (Ok (items ++ flat_map (read_back w region bucket) top)%list,
       (t ++ map (get_call region bucket) top)%list).
Proof.
  induction top as [|o top IH]; intros items t.
  - simpl. now rewrite !app_nil_r.
  - cbn [fetch_all]. unfold bind at 1. rewrite fetch_one_run, IH.
    cbn [flat_map map]. rewrite <- !app_assoc. reflexivity.
Qed.

End Listing.

Section ListEndpoint.
Import Js Admin LeadsList.
Local Open Scope js_scope.

(** The list endpoint for an authorized GET with storage configured. *)
Lemma list_run (env : Env) (w : World) (req : Request) :
  method req = "GET" -> unauthorized env req = false ->
  set (AWS_S3_BUCKET env) = true -> set (AWS_REGION env) = true ->
  let region := or_default (AWS_REGION env) "" in
  let bucket := or_default (AWS_S3_BUCKET env) "" in
  let prefix := listing_prefix env req in
  LeadsList.run env true w req
  = match list_output w region bucket prefix with
    | Ok contents =>
        let top := chosen (limit_of req) contents in
        (Ok (json 200
               [("items", VArr (flat_map (read_back w region bucket) top))]),
         S3List region bucket prefix 1000 :: map (get_call region bucket) top)
    | Raise =>
        (Ok (json 500 [("error", VStr "Failed to list leads")]),
         [S3List region bucket prefix 1000])
    end.
Proof.
  intros Hget Hauth Hb Hr. cbv zeta.
  unfold LeadsList.run, handler. rewrite Hget, Hauth, Hb, Hr.
  change ("GET" =? "OPTIONS") with false.
  change (negb ("GET" =? "GET")) with false. cbv iota.
  cbn [negb orb]. cbv iota.
  fold (listing_prefix env req).
  unfold try_catch, bind at 1, ask. cbn [app].
  destruct (list_output w _ _ _) as [contents|]; [|reflexivity].
  unfold bind. rewrite fetch_all_run. reflexivity.
Qed.

(** X6.  An authorized GET on the list endpoint, with storage configured,
    enumerates [{prefix}/{status}/] once (at most 1000 keys).  When the
    enumeration fails the answer is 500 and nothing is fetched.
    Otherwise the [.json] objects are sorted newest first and cut to
    [limit], each is fetched once in that order, and the answer is 200
    with the parsed JSON of those that could be fetched and parsed: an
    object that fails is left out and does not fail the request.  The
    [status] parameter is an ASCII text, and the JSON behind the fetched
    objects is JSON-representable (its numbers are integers that a double
    holds exactly). *)
Theorem list_answers_what_parses (env : Env) (w : World) (req : Request)
    (Hget : method req = "GET") (Hauth : unauthorized env req = false)
    (Hbucket : set (AWS_S3_BUCKET env) = true)
    (Hregion : set (AWS_REGION env) = true)
    (Hstatus : Text.is_ascii (or_default (get "status" (query req)) "final")
               = true)
    (Hexact : forallb (exact_read w (or_default (AWS_REGION env) "")
                         (or_default (AWS_S3_BUCKET env) ""))
                (fetched env w req) = true) :
  let region := or_default (AWS_REGION env) "" in
  let bucket := or_default (AWS_S3_BUCKET env) "" in
  let prefix := listing_prefix env req in
  LeadsList.run env true w req
  = match list_output w region bucket prefix with
    | Ok contents =>
        let top := chosen (limit_of req) contents in
        (Ok (json 200
               [("items", VArr (flat_map (read_back w region bucket) top))]),
         S3List region bucket prefix 1000 :: map (get_call region bucket) top)
    | Raise =>
        (Ok (json 500 [("error", VStr "Failed to list leads")]),
         [S3List region bucket prefix 1000])
    end.
Proof. exact (list_run env w req Hget Hauth Hbucket Hregion). Qed.

Lemma list_answers_what_parses_witness :
  LeadsList.run admin_env true bucket_world (list_request [])
  = (Ok (json 200 [("items", VArr [VObj [("id", VStr "b")]])]),
     [ S3List "eu-west-1" "bucket" "leads/final/" 1000;
       S3Get "eu-west-1" "bucket" "leads/final/b.json";
       S3Get "eu-west-1" "bucket" "leads/final/c.json";
       S3Get "eu-west-1" "bucket" "leads/final/a.json" ]).
Proof.
  exact (@list_answers_what_parses admin_env bucket_world (list_request [])
           eq_refl eq_refl eq_refl eq_refl eq_refl eq_refl).
Defined.










(** X8.  An authorized GET on the list endpoint without a bucket, a
    region or the S3 client is answered 200 with no items and the note
    [S3 not configured]; nothing is enumerated or fetched. *)
Theorem list_without_storage (env : Env) (s3_sdk : bool) (w : World)
    (req : Request)
    (Hget : method req = "GET") (Hauth : unauthorized env req = false)
    (Hmissing : set (AWS_S3_BUCKET env) = false
                \/ set (AWS_REGION env) = false \/ s3_sdk = false) :
  LeadsList.run env s3_sdk w req
  = (Ok (json 200 [("items", VArr []); ("note", VStr "S3 not configured")]),
     []).
Proof.
  unfold LeadsList.run, handler. rewrite Hget, Hauth.
  change ("GET" =? "OPTIONS") with false.
  change (negb ("GET" =? "GET")) with false. cbv iota.
  destruct Hmissing as [->|[->| ->]]; cbn [negb orb].
  - reflexivity.
  - now rewrite orb_true_r.
  - now rewrite orb_true_r.
Qed.

Lemma list_without_storage_witness :
  LeadsList.run unconfigured_env true bucket_world (list_request [])
  = (Ok (json 200 [("items", VArr []); ("note", VStr "S3 not configured")]),
     []).
Proof.
  exact (@list_without_storage unconfigured_env true bucket_world
           (list_request []) eq_refl eq_refl (or_introl eq_refl)).
Defined.

End ListEndpoint.

(** ** The gates in front of the handlers *)

Section Gates.
Import Js Admin.
Local Open Scope js_scope.

Lemma same_differs (a b : option string) : a <> b -> same a b = false.
Proof.
  destruct a as [x|], b as [y|]; simpl; intros H; try reflexivity.
  - apply String.eqb_neq. congruence.
  - congruence.
Qed.

Lemma same_equal (a : option string) : same a a = true.
Proof. destruct a as [x|]; simpl; [apply String.eqb_refl | reflexivity]. Qed.

Lemma search_code (env : Env) (ddb_sdk : bool) (w : World) (req : Request) :
  unauthorized env req = false ->
  exists r, fst (Search.run env ddb_sdk w req) = Ok r /\ statusCode r <> 401.
Proof.
  intros Hauth. unfold Search.run, Search.handler. rewrite Hauth.
  destruct (method req =? "OPTIONS");
    [eexists; split; [reflexivity | discriminate]|].
  destruct (negb (method req =? "GET"));
    [eexists; split; [reflexivity | discriminate]|].
  destruct (_ || _ || _)%bool;
    [eexists; split; [reflexivity | discriminate]|].
  destruct (Search.select _ _ _ _ _) as [sel|];
    [|eexists; split; [reflexivity | discriminate]].
  unfold try_catch, bind, ask, lift. cbn [app].
  destruct (query_output w _ _) as [out|];
    [|eexists; split; [reflexivity | discriminate]].
  unfold Search.respond.
  destruct (Search.encode _) as [token|]; cbn [obind];
    eexists; (split; [reflexivity | discriminate]).
Qed.

Lemma list_code (env : Env) (s3_sdk : bool) (w : World) (req : Request) :
  unauthorized env req = false ->
  exists r, fst (LeadsList.run env s3_sdk w req) = Ok r /\ statusCode r <> 401.
Proof.
  intros Hauth. unfold LeadsList.run, LeadsList.handler. rewrite Hauth.
  destruct (method req =? "OPTIONS");
    [eexists; split; [reflexivity | discriminate]|].
  destruct (negb (method req =? "GET"));
    [eexists; split; [reflexivity | discriminate]|].
  destruct (_ || _ || _)%bool;
    [eexists; split; [reflexivity | discriminate]|].
  unfold try_catch, bind at 1, ask. cbn [app].
  destruct (list_output w _ _ _) as [contents|];
    [|eexists; split; [reflexivity | discriminate]].
  unfold bind. rewrite fetch_all_run.
  eexists. split; [reflexivity | discriminate].
Qed.

(** X9.  The admin key is compared exactly.  The key of a request is its
    [key] parameter, or the [x-admin-key] header when that parameter is
    missing or empty.  A GET whose key differs from ADMIN_TOKEN is answered
    401 by both endpoints, without any call. *)
Theorem wrong_key_is_refused (env : Env) (ddb_sdk s3_sdk : bool) (w : World)
    (req : Request) (Hget : method req = "GET")
    (Hdiff : either (get "key" (query req)) (x_admin_key req)
             <> ADMIN_TOKEN env) :
  Search.run env ddb_sdk w req
    = (Ok (json 401 [("error", VStr "Unauthorized")]), [])
  /\ LeadsList.run env s3_sdk w req
    = (Ok (json 401 [("error", VStr "Unauthorized")]), []).
Proof.
  assert (Hun : unauthorized env req = true).
  { unfold unauthorized. rewrite (same_differs Hdiff). apply orb_true_r. }
  unfold Search.run, Search.handler, LeadsList.run, LeadsList.handler.
  rewrite Hget, Hun. split; reflexivity.
Qed.

Lemma wrong_key_is_refused_witness :
  Search.run admin_env true silent_world two_keys
    = (Ok (json 401 [("error", VStr "Unauthorized")]), [])
  /\ LeadsList.run admin_env true silent_world two_keys
    = (Ok (json 401 [("error", VStr "Unauthorized")]), []).
Proof.
  apply (@wrong_key_is_refused admin_env true true silent_world two_keys).
  - reflexivity.
  - vm_compute. discriminate.
Defined.

(** X10.  A GET that carries the configured, non-empty ADMIN_TOKEN as its
    key is never answered 401, by either endpoint. *)
Theorem right_key_is_let_in (env : Env) (ddb_sdk s3_sdk : bool) (w : World)
    (req : Request)
    (Hset : set (ADMIN_TOKEN env) = true)
    (Hsame : either (get "key" (query req)) (x_admin_key req)
             = ADMIN_TOKEN env) :
  (exists r, fst (Search.run env ddb_sdk w req) = Ok r /\ statusCode r <> 401)
  /\ (exists r, fst (LeadsList.run env s3_sdk w req) = Ok r
                /\ statusCode r <> 401).
Proof.
  assert (Hauth : unauthorized env req = false).
  { unfold unauthorized. rewrite Hsame, same_equal, Hset. reflexivity. }
  split; [now apply search_code | now apply list_code].
Qed.

Lemma right_key_is_let_in_witness :
  (exists r, fst (Search.run admin_env true silent_world (search_request []))
             = Ok r /\ statusCode r <> 401)
  /\ (exists r, fst (LeadsList.run admin_env true silent_world
                       (search_request [])) = Ok r
                /\ statusCode r <> 401).
Proof.
  exact (@right_key_is_let_in admin_env true true silent_world
           (search_request []) eq_refl eq_refl).
Defined.

(** X11.  A handler acts on its own method only.  The ingestion answers
    a request that is not a POST, and the two admin endpoints a request
    that is not a GET, with 204 and no body (OPTIONS) or with 405, before
    the key is looked at and without any call. *)
Theorem other_methods_are_turned_away
    (env : Env) (sdk : sdk_load) (ddb_sdk s3_sdk : bool) (rt : Runtime)
    (w : World) (post : Submit.Request) (req : Request)
    (Hpost : Submit.method post <> "POST") (Hreq : method req <> "GET") :
  Submit.run env sdk rt w post
  = (Ok (if Submit.method post =? "OPTIONS"
         then {| statusCode := 204; body := None |}
         else json 405 [("error", VStr "Method Not Allowed")]), [])
  /\ Search.run env ddb_sdk w req
     = (Ok (if method req =? "OPTIONS"
            then {| statusCode := 204; body := None |}
            else json 405 [("error", VStr "Method Not Allowed")]), [])
  /\ LeadsList.run env s3_sdk w req
     = (Ok (if method req =? "OPTIONS"
            then {| statusCode := 204; body := None |}
            else json 405 [("error", VStr "Method Not Allowed")]), []).
Proof.
  apply String.eqb_neq in Hpost. apply String.eqb_neq in Hreq.
  unfold Submit.run, Submit.handler, Search.run, Search.handler,
    LeadsList.run, LeadsList.handler.
  rewrite Hpost, Hreq.
  destruct (Submit.method post =? "OPTIONS"), (method req =? "OPTIONS");
    repeat split; reflexivity.
Qed.

Lemma other_methods_are_turned_away_witness :
  Submit.run full_env AllSdk sample_runtime silent_world get_submit
  = (Ok (json 405 [("error", VStr "Method Not Allowed")]), [])
  /\ Search.run admin_env true silent_world options_request
     = (Ok {| statusCode := 204; body := None |}, [])
  /\ LeadsList.run admin_env true silent_world options_request
     = (Ok {| statusCode := 204; body := None |}, []).
Proof.
  apply (@other_methods_are_turned_away full_env AllSdk true true
           sample_runtime silent_world get_submit options_request).
  - vm_compute. discriminate.
  - vm_compute. discriminate.
Defined.

End Gates.

(** ** The query of the search endpoint *)

Section SearchQuery.
Import Js Admin Search.
Local Open Scope js_scope.

(** The search endpoint sends nothing, or the one query that the
    selection builds. *)
Lemma search_log (env : Env) (ddb_sdk : bool) (w : World) (req : Request) :
  snd (Search.run env ddb_sdk w req) = []
  \/ exists sel,
       select (filter_of req "email") (filter_of req "status")
              (filter_of req "utm_source") (range_start req) (range_end req)
       = Some sel
       /\ snd (Search.run env ddb_sdk w req)
          = [DdbQuery (or_default (AWS_REGION env) "")
               (params_of (or_default (DDB_TABLE env) "StripeProtectionLeads")
                  sel (limit_of req) (get "nextToken" (query req)))].
Proof.
  unfold Search.run, handler.
  destruct (method req =? "OPTIONS"); [left; reflexivity|].
  destruct (negb (method req =? "GET")); [left; reflexivity|].
  destruct (unauthorized env req); [left; reflexivity|].
  destruct (_ || _ || _)%bool; [left; reflexivity|].
  fold (range_start req). fold (range_end req).
  destruct (select _ _ _ _ _) as [sel|]; [|left; reflexivity].
  right. exists sel. split; [reflexivity|].
  unfold try_catch, bind, ask, lift. cbn [app].
  destruct (query_output w _ _) as [out|]; [|reflexivity].
  destruct (respond out); reflexivity.
Qed.

Lemma limit_of_capped (req : Request) :
  (limit_of req <= 200)%Z /\ limit_of req <> 0%Z.
Proof.
  unfold limit_of. split; [apply Z.le_min_r|].
  destruct (parseInt _) as [z|].
  - destruct (z =? 0)%Z eqn:E; [lia|]. apply Z.eqb_neq in E. lia.
  - lia.
Qed.

Lemma selection_bound (email status utm dateFrom dateTo : string)
    (sel : Selection) :
  select email status utm dateFrom dateTo = Some sel ->
  same_members
    (placeholders
       (key_condition sel ++ " "
        ++ match filter_parts sel with
           | [] => ""
           | parts => Text.join " AND " parts
           end))
    (map fst (attribute_names sel) ++ map fst (attribute_values sel))%list
  = true
  /\ lookup ":from" (attribute_values sel) = Some (S_ dateFrom)
  /\ lookup ":to" (attribute_values sel) = Some (S_ dateTo).
Proof.
  unfold select, residual.
  destruct (email =? ""), (status =? ""), (utm =? ""); cbn [negb];
    intros H; try discriminate H; injection H as <-;
    repeat split; reflexivity.
Qed.

(** X12.  Every query that the search endpoint sends is well formed: the
    placeholders used in its key condition and its filter expression are
    exactly the attribute names and values that it declares; it carries
    both ends of the date range, the widest range where [from] or [to] is
    missing; its table name is not empty; and its limit is the request's,
    never more than 200 and never zero. *)
Theorem query_is_well_formed (env : Env) (ddb_sdk : bool) (w : World)
    (req : Request) (region : string) (params : QueryParams)
    (Hsent : In (DdbQuery region params) (snd (Search.run env ddb_sdk w req))) :
  same_members (placeholders (expressions params)) (declared params) = true
  /\ lookup ":from" (ExpressionAttributeValues params)
     = Some (S_ (range_start req))
  /\ lookup ":to" (ExpressionAttributeValues params)
     = Some (S_ (range_end req))
  /\ TableName params <> ""
  /\ Limit params = limit_of req
  /\ (Limit params <= 200)%Z /\ Limit params <> 0%Z.
Proof.
  destruct (search_log env ddb_sdk w req) as [Hlog|(sel & Hsel & Hlog)];
    rewrite Hlog in Hsent; [destruct Hsent|].
  destruct Hsent as [Hsent|[]]. injection Hsent as _ <-.
  destruct (selection_bound _ _ _ _ _ Hsel) as (Hsame & Hfrom & Hto).
  unfold expressions, declared, params_of. cbn.
  split.
  { destruct (filter_parts sel); exact Hsame. }
  split; [exact Hfrom|]. split; [exact Hto|].
  split.
  { apply String.eqb_neq. apply or_default_present. discriminate. }
  split; [reflexivity | apply limit_of_capped].
Qed.

Lemma query_is_well_formed_witness :
  same_members (placeholders (expressions mail_query)) (declared mail_query)
  = true
  /\ lookup ":from" (ExpressionAttributeValues mail_query)
     = Some (S_ (range_start mail_search))
  /\ lookup ":to" (ExpressionAttributeValues mail_query)
     = Some (S_ (range_end mail_search))
  /\ TableName mail_query <> ""
  /\ Limit mail_query = limit_of mail_search
  /\ (Limit mail_query <= 200)%Z /\ Limit mail_query <> 0%Z.
Proof.
  exact (@query_is_well_formed admin_env true one_item_world mail_search
           "eu-west-1" mail_query (or_introl eq_refl)).
Defined.

End SearchQuery.

(** ** The answer of the search endpoint *)

Section SearchAnswer.
Import Js Admin Search.
Local Open Scope js_scope.

Lemma encode_returns (lek : value) : exists token, encode lek = Ok token.
Proof.
  unfold encode. destruct (truthy lek) eqn:Ht; [|eexists; reflexivity].
  assert (Hdef : lek <> VUndef) by (intros ->; discriminate Ht).
  destruct (stringify_defined Hdef) as [text ->].
  unfold land. cbn [obind].
  destruct (truthy (VStr _)); eexists; reflexivity.
Qed.

(** X13.  When the search endpoint has sent its query, the answer follows
    the outcome of that query.  A failed query is answered 500
    [Dynamo query failed], with no second attempt.  A query that succeeds is
    answered 200 with [count] (0 when the output has none), one flat record
    per returned item, in order, and the [nextToken] of the last evaluated
    key ([null] when there is none). *)
Theorem search_answers (env : Env) (ddb_sdk : bool) (w : World)
    (req : Request) (region : string) (params : QueryParams)
    (Hsent : In (DdbQuery region params) (snd (Search.run env ddb_sdk w req))) :
  snd (Search.run env ddb_sdk w req) = [DdbQuery region params]
  /\ match query_output w region params with
     | Raise =>
         fst (Search.run env ddb_sdk w req)
         = Ok (json 500 [("error", VStr "Dynamo query failed")])
     | Ok out =>
         exists token,
           encode (match LastEvaluatedKey out with
                   | Some k => k
                   | None => VUndef
                   end) = Ok token
           /\ (LastEvaluatedKey out = None -> token = VNull)
           /\ fst (Search.run env ddb_sdk w req)
              = Ok (json 200
                      [ ("count", VNum (match Count out with
                                        | Some c => c
                                        | None => 0%Z
                                        end) 0);
                        ("items",
                         VArr (map flatten (match Items out with
                                            | Some l => l
                                            | None => []
                                            end)));
                        ("nextToken", token) ])
     end.
Proof.
  destruct (search_log env ddb_sdk w req) as [Hlog|(sel & Hsel & Hlog)];
    rewrite Hlog in Hsent; [destruct Hsent|].
  destruct Hsent as [Hsent|[]]. injection Hsent as <- <-.
  split; [exact Hlog|].
  revert Hlog. unfold Search.run, handler.
  fold (range_start req). fold (range_end req). rewrite Hsel.
  destruct (method req =? "OPTIONS"); [discriminate|].
  destruct (negb (method req =? "GET")); [discriminate|].
  destruct (unauthorized env req); [discriminate|].
  destruct (_ || _ || _)%bool; [discriminate|].
  intros _. unfold try_catch, bind, ask, lift. cbn [app].
  destruct (query_output w _ _) as [out|]; [|reflexivity].
  unfold respond.
  destruct (encode_returns (match LastEvaluatedKey out with
                            | Some k => k
                            | None => VUndef
                            end)) as [token Htoken].
  rewrite Htoken. cbn [obind fst snd].
  exists token. split; [reflexivity|]. split; [|reflexivity].
  intros Hnone. rewrite Hnone in Htoken. injection Htoken as <-. reflexivity.
Qed.

Lemma search_answers_witness :
  snd (Search.run admin_env true one_item_world mail_search)
  = [DdbQuery "eu-west-1" mail_query]
  /\ match query_output one_item_world "eu-west-1" mail_query with
     | Raise =>
         fst (Search.run admin_env true one_item_world mail_search)
         = Ok (json 500 [("error", VStr "Dynamo query failed")])
     | Ok out =>
         exists token,
           encode (match LastEvaluatedKey out with
                   | Some k => k
                   | None => VUndef
                   end) = Ok token
           /\ (LastEvaluatedKey out = None -> token = VNull)
           /\ fst (Search.run admin_env true one_item_world mail_search)
              = Ok (json 200
                      [ ("count", VNum (match Count out with
                                        | Some c => c
                                        | None => 0%Z
                                        end) 0);
                        ("items",
                         VArr (map flatten (match Items out with
                                            | Some l => l
                                            | None => []
                                            end)));
                        ("nextToken", token) ])
     end.
Proof.
  exact (@search_answers admin_env true one_item_world mail_search
           "eu-west-1" mail_query (or_introl eq_refl)).
Defined.

Lemma lookup_assign_other (k k' : string) (v : value) (ps : props) :
  k <> k' -> lookup k' (assign k v ps) = lookup k' ps.
Proof.
  intros H. unfold assign. destruct (k =? "__proto__"); [reflexivity|].
  now apply lookup_obj_set_other.
Qed.

Lemma flatten_lookup (k : string) (i : item) :
  forall acc,
    lookup k (fold_left (fun obj kv => assign (fst kv) (plain (snd kv)) obj)
                i acc)
    = if k =? "__proto__" then lookup k acc
      else match attribute_named k i with
           | Some a => Some (plain a)
           | None => lookup k acc
           end.
Proof.
  induction i as [|[k' a] i IH]; intros acc.
  - simpl. destruct (k =? "__proto__"); reflexivity.
  - cbn [fold_left fst snd attribute_named]. rewrite IH.
    destruct (k =? "__proto__") eqn:Ep.
    + apply String.eqb_eq in Ep. subst k. unfold assign.
      destruct (k' =? "__proto__") eqn:E; [reflexivity|].
      apply lookup_obj_set_other. now apply String.eqb_neq.
    + destruct (attribute_named k i); [reflexivity|].
      destruct (k' =? k) eqn:E.
      * apply String.eqb_eq in E. subst k'. unfold assign. rewrite Ep.
        apply lookup_obj_set_same.
      * apply lookup_assign_other. now apply String.eqb_neq.
Qed.

(** X14.  A flat record of the search answer holds, under each attribute
    name of the item, the projection of that attribute, and nothing
    else; an attribute named [__proto__] is not copied. *)
Theorem flat_record_fields (i : item) :
  exists record,
    flatten i = VObj record
    /\ forall k,
         lookup k record
         = if k =? "__proto__" then None
           else option_map plain (attribute_named k i).
Proof.
  eexists. split; [reflexivity|].
  intros k. rewrite flatten_lookup.
  destruct (k =? "__proto__"); [reflexivity|].
  destruct (attribute_named k i); reflexivity.
Qed.

End SearchAnswer.

(** ** The shape of a slug *)

Section SlugShape.
Import Text Js Submit Spec.
Local Open Scope js_scope.

Lemma slugify_shape (text fallback : string) :
  slugify text fallback = fallback \/ hyphenated (slugify text fallback).
Proof.
  unfold slugify. pose proof (words_alnum (toLowerCase text)) as H.
  destruct (words (toLowerCase text)) as [|w ws]; [now left|].
  right. exists (w :: ws). split; [discriminate|]. split; [exact H | reflexivity].
Qed.

Lemma slug_cases (e : outcome value) (fallback s : string) :
  slug e fallback = Ok s ->
  s = fallback
  \/ exists v text, e = Ok v /\ truthy v = true /\ to_string v = Ok text
                    /\ s = slugify text fallback.
Proof.
  destruct e as [v|]; [|discriminate].
  destruct (truthy v) eqn:Hv.
  - destruct (to_string v) as [text|] eqn:Ht.
    + rewrite (slug_refines v fallback Hv Ht). intros [= <-].
      right. exists v, text. repeat split; assumption.
    + unfold slug. cbn [obind]. rewrite Hv, Ht. discriminate.
  - unfold slug. cbn [obind]. rewrite Hv. intros [= <-]. now left.
Qed.

Lemma slug_fallback_or_words (e : outcome value) (fallback s : string) :
  slug e fallback = Ok s -> s = fallback \/ hyphenated s.
Proof.
  intros Hslug.
  destruct (slug_cases e fallback Hslug) as [->|(v & text & _ & _ & _ & ->)];
    [now left|].
  apply slugify_shape.
Qed.

(** X15.  A slug is the fallback, or else words of [a-z0-9] joined by
    single hyphens: it is not empty, it holds no upper-case letter, no
    slash, no space and no other character, and it neither starts nor
    ends with a hyphen. *)
Theorem slug_shape (e : outcome value) (fallback s : string)
    (Hslug : slug e fallback = Ok s) :
  s = fallback \/ hyphenated s.
Proof.
  exact (slug_fallback_or_words e fallback Hslug).
Qed.

Lemma slug_shape_witness :
  "acme-co-2024" = "na" \/ hyphenated "acme-co-2024".
Proof.
  exact (@slug_shape ($(VStr "  ACME & Co. 2024 ")) "na" "acme-co-2024"
           eq_refl).
Defined.

Lemma lower_alnum_fixed (c : ascii) :
  is_lower_alnum c = true -> lower_char c = c.
Proof.
  destruct c as [[] [] [] [] [] [] [] []]; intros H; try discriminate H;
    reflexivity.
Qed.

Lemma lower_append (a b : string) :
  toLowerCase (a ++ b) = toLowerCase a ++ toLowerCase b.
Proof. induction a as [|c a IH]; simpl; [reflexivity | now rewrite IH]. Qed.

Lemma lower_alnum_text (w : string) : alnum w -> toLowerCase w = w.
Proof.
  induction w as [|c w IH]; intros H; [reflexivity|].
  simpl. rewrite lower_alnum_fixed by (apply H; now left).
  rewrite IH; [reflexivity|]. intros x Hx. apply H. now right.
Qed.

Lemma lower_hyphenated (ws : list string) :
  Forall (fun w => w <> "" /\ alnum w) ws ->
  toLowerCase (join "-" ws) = join "-" ws.
Proof.
  induction 1 as [|w ws [_ Hw] Hws IH]; [reflexivity|].
  destruct ws as [|w' ws]; [now apply lower_alnum_text|].
  change (join "-" (w :: w' :: ws)) with (w ++ "-" ++ join "-" (w' :: ws)).
  rewrite !lower_append, IH, lower_alnum_text by exact Hw. reflexivity.
Qed.

Lemma runs_word (w tail : string) :
  alnum w ->
  runs (w ++ tail) = (w ++ fst (runs tail), snd (runs tail)).
Proof.
  induction w as [|c w IH]; intros H.
  - simpl. destruct (runs tail); reflexivity.
  - cbn [append runs]. rewrite IH by (intros x Hx; apply H; now right).
    cbn [fst snd]. rewrite (H c) by now left. reflexivity.
Qed.

Lemma words_hyphenated (ws : list string) :
  Forall (fun w => w <> "" /\ alnum w) ws -> words (join "-" ws) = ws.
Proof.
  induction 1 as [|w ws [Hne Hw] Hws IH]; [reflexivity|].
  apply String.eqb_neq in Hne.
  destruct ws as [|w' ws].
  - cbn [join]. unfold words.
    rewrite <- (append_empty w) at 1. rewrite runs_word by exact Hw.
    cbn [runs fst snd]. rewrite append_empty, Hne. reflexivity.
  - change (join "-" (w :: w' :: ws)) with (w ++ "-" ++ join "-" (w' :: ws)).
    unfold words in *. rewrite runs_word by exact Hw.
    cbn [append runs].
    destruct (runs (join "-" (w' :: ws))) as [h t].
    change (is_lower_alnum "-") with false. cbv iota. cbn [fst snd].
    rewrite append_empty, Hne. f_equal. exact IH.
Qed.

(** X16.  Slugifying is idempotent: the slug of a slug is the slug itself
    (with a fallback that is its own slug, as ["na"] is). *)
Theorem slug_idempotent (e : outcome value) (fallback s : string)
    (Hslug : slug e fallback = Ok s)
    (Hfallback : slug ($(VStr fallback)) fallback = Ok fallback) :
  slug ($(VStr s)) fallback = Ok s.
Proof.
  destruct (slug_fallback_or_words e fallback Hslug)
    as [->|(ws & Hne & Hws & ->)];
    [exact Hfallback|].
  assert (Hs : join "-" ws <> "").
  { intros E. rewrite <- (words_hyphenated Hws) in Hne.
    rewrite E in Hne. apply Hne. reflexivity. }
  rewrite (@slug_refines (VStr (join "-" ws)) (join "-" ws) fallback).
  - unfold slugify. rewrite lower_hyphenated, words_hyphenated by exact Hws.
    destruct ws; [congruence | reflexivity].
  - simpl. apply negb_true_iff, String.eqb_neq. exact Hs.
  - reflexivity.
Qed.

Lemma slug_idempotent_witness :
  slug ($(VStr "acme-co-2024")) "na" = Ok "acme-co-2024".
Proof.
  exact (@slug_idempotent ($(VStr "  ACME & Co. 2024 ")) "na" "acme-co-2024"
           eq_refl eq_refl).
Defined.

End SlugShape.

(** ** The fields that the handler computes *)

Section ComputedFields.
Import Js Submit.
Local Open Scope js_scope.

Lemma own_absent_id (payload : value) :
  lookup "id" (own_props payload) = None -> Spec.supplied_id payload = None.
Proof.
  unfold Spec.supplied_id, Spec.guarded, Spec.field.
  destruct payload as [| |b|m scale|t|xs|ps]; cbn [own_props truthy member];
    intros H; try reflexivity.
  - destruct b; reflexivity.
  - destruct (negb (m =? 0)%Z); reflexivity.
  - destruct (t =? "") eqn:E; cbn [negb]; [|reflexivity].
    now rewrite E.
  - now rewrite H.
Qed.

Lemma own_absent_status (payload : value) :
  lookup "status" (own_props payload) = None ->
  Spec.normal_status payload = "final".
Proof.
  unfold Spec.normal_status, Spec.guarded, Spec.field.
  destruct payload as [| |b|m scale|t|xs|ps]; cbn [own_props truthy member];
    intros H; try reflexivity.
  - destruct b; reflexivity.
  - destruct (negb (m =? 0)%Z); reflexivity.
  - destruct (t =? "") eqn:E; cbn [negb]; [|reflexivity].
    apply String.eqb_eq in E. subst t. reflexivity.
  - now rewrite H.
Qed.

(** X19.  A POST whose payload has no [id] and no [status] of its own is
    answered with the identifier that the handler generated and with the
    status ["final"]. *)
Theorem computed_fields_are_reported
    (env : Env) (sdk : sdk_load) (rt : Runtime) (w : World) (req : Request)
    (Hpost : method req = "POST")
    (Hid : lookup "id" (own_props (payload req)) = None)
    (Hstatus : lookup "status" (own_props (payload req)) = None) :
  exists stored key calls,
    Submit.run env sdk rt w req
    = (Ok (json 200 [ ("ok", VBool true); ("stored", VStr stored);
                      ("key", VStr key); ("id", VStr (uuid rt));
                      ("status", VStr "final") ]), calls).
Proof.
  destruct (run_log env sdk rt w req Hpost)
    as (id & stored & key & s3 & ddb & ses & hub & cl & H).
  cbv zeta in H. destruct H as (Hgen & _ & Hrun & _).
  rewrite (own_absent_id _ Hid) in Hgen. cbn in Hgen. injection Hgen as <-.
  rewrite !overridden_absent, (own_absent_status _ Hstatus) in Hrun
    by assumption.
  do 3 eexists. exact Hrun.
Qed.

Lemma computed_fields_are_reported_witness :
  exists stored key calls,
    Submit.run full_env AllSdk sample_runtime silent_world (post lead)
    = (Ok (json 200 [ ("ok", VBool true); ("stored", VStr stored);
                      ("key", VStr key); ("id", VStr (uuid sample_runtime));
                      ("status", VStr "final") ]), calls).
Proof.
  exact (@computed_fields_are_reported full_env AllSdk sample_runtime
           silent_world (post lead) eq_refl eq_refl eq_refl).
Defined.

Lemma generated_id_format_witness :
  Spec.is_uuid_v4 (uuid sample_runtime) = true.
Proof.
  apply (@generated_id_format sample_runtime).
  - reflexivity.
  - intros i. cbn [math_random sample_runtime].
    pose proof (Nat.mod_upper_bound i 16). lia.
Defined.

Lemma response_fields_witness :
  exists id stored key calls,
    ($(match Spec.supplied_id (payload (post forged)) with
       | Some s => VStr s
       | None => VUndef
       end) ||| $(VStr (uuid sample_runtime))) = Ok id
    /\ Submit.run storage_only_env AllSdk sample_runtime silent_world
         (post forged)
       = (Ok (json 200
                [ ("ok", VBool true); ("stored", VStr stored);
                  ("key", VStr key);
                  ("id", Spec.overridden (payload (post forged)) "id" id);
                  ("status",
                   Spec.overridden (payload (post forged)) "status"
                     (VStr (Spec.normal_status (payload (post forged))))) ]),
          calls).
Proof.
  exact (@response_fields storage_only_env AllSdk sample_runtime silent_world
           (post forged) eq_refl).
Defined.

End ComputedFields.

(** ** Reading back indented JSON *)

Section NumbersFollowed.
Import Text Js Json.

Lemma follows_no_digit (rest : string) :
  Spec.follows rest = true -> Spec.no_digit rest.
Proof.
  destruct rest as [|c r]; [easy|]. simpl.
  destruct c as [[] [] [] [] [] [] [] []]; intros H; try discriminate H;
    reflexivity.
Qed.

Lemma fraction_followed (rest : string) :
  Spec.follows rest = true -> fraction rest = Some ("", rest).
Proof.
  destruct rest as [|c r]; [easy|]. simpl.
  destruct c as [[] [] [] [] [] [] [] []]; intros H; try discriminate H;
    reflexivity.
Qed.

Lemma exponent_followed (rest : string) :
  Spec.follows rest = true -> exponent rest = Some (0%Z, rest).
Proof.
  destruct rest as [|c r]; [easy|]. simpl.
  destruct c as [[] [] [] [] [] [] [] []]; intros H; try discriminate H;
    reflexivity.
Qed.

Lemma unsigned_number_followed (negative : bool) (d : Decimal.uint)
    (rest : string) :
  Spec.canonical d = true -> Spec.follows rest = true ->
  unsigned_number negative (NilEmpty.string_of_uint d ++ rest)
  = Some (VNum (if negative then - Z.of_uint d else Z.of_uint d) 0, rest).
Proof.
  intros Hd Hrest. unfold unsigned_number.
  rewrite span_digits_uint by (apply follows_no_digit; exact Hrest).
  destruct (@canonical_digits d Hd) as [-> ->].
  rewrite fraction_followed, exponent_followed by exact Hrest.
  rewrite append_empty, Z_of_digits_uint.
  cbn [String.length Z.of_nat Z.sub Z.opp Z.leb Z.compare Z.add].
  change (10 ^ 0)%Z with 1%Z. rewrite Z.mul_1_r. reflexivity.
Qed.

(** The decimal text of an integer reads back as that integer, whatever
    follows it in an indented text. *)
Lemma number_followed (m : Z) (rest : string) :
  Spec.follows rest = true ->
  number (string_of_Z m ++ rest) = Some (VNum m 0, rest).
Proof.
  intros Hrest. unfold number, string_of_Z.
  destruct m as [|p|p].
  - change (NilZero.string_of_int (Z.to_int 0))
      with (NilEmpty.string_of_uint (Decimal.D0 Decimal.Nil)).
    rewrite eat_minus_digits by reflexivity.
    now rewrite unsigned_number_followed.
  - cbn [Z.to_int NilZero.string_of_int].
    rewrite canonical_text by apply canonical_positive.
    rewrite eat_minus_digits by apply canonical_positive.
    rewrite unsigned_number_followed by (auto using canonical_positive).
    do 2 f_equal. f_equal.
    change (Z.of_uint (Pos.to_uint p)) with (Z.of_N (Pos.of_uint (Pos.to_uint p))).
    now rewrite DecimalPos.Unsigned.of_to.
  - cbn [Z.to_int NilZero.string_of_int].
    rewrite canonical_text by apply canonical_positive.
    cbn [append eat Ascii.eqb Bool.eqb].
    rewrite unsigned_number_followed by (auto using canonical_positive).
    do 2 f_equal. f_equal.
    change (Z.of_uint (Pos.to_uint p)) with (Z.of_N (Pos.of_uint (Pos.to_uint p))).
    now rewrite DecimalPos.Unsigned.of_to.
Qed.

End NumbersFollowed.

Section IndentedTexts.
Import Text Js Json.

Variable gap : string.
Hypothesis Hgap : (gap =? "") = false.
Hypothesis Hblank : Spec.blank gap = true.

Lemma blank_append (a b : string) :
  Spec.blank a = true -> Spec.blank b = true -> Spec.blank (a ++ b) = true.
Proof.
  induction a as [|c a IH]; intros Ha Hb; [exact Hb|].
  simpl in *. apply andb_prop in Ha. destruct Ha as [Hc Ha].
  rewrite Hc. now apply IH.
Qed.

Lemma blank_line (indent : string) :
  Spec.blank indent = true -> Spec.blank (String newline indent) = true.
Proof. intros H. simpl. exact H. Qed.

Lemma skip_ws_blank (b s : string) :
  Spec.blank b = true -> skip_ws (b ++ s) = skip_ws s.
Proof.
  induction b as [|c b IH]; intros H; [reflexivity|].
  simpl in *. apply andb_prop in H. destruct H as [Hc Hb].
  rewrite Hc. now apply IH.
Qed.

Lemma value_at_blank (fuel : nat) (b s : string) :
  Spec.blank b = true -> value_at fuel (b ++ s) = value_at fuel s.
Proof.
  intros H. destruct fuel as [|f]; [reflexivity|].
  rewrite !value_at_step, skip_ws_blank by exact H. reflexivity.
Qed.

Lemma members_blank (fuel : nat) (b s : string) (acc : props) :
  Spec.blank b = true -> members fuel (b ++ s) acc = members fuel s acc.
Proof.
  intros H. destruct fuel as [|f]; [reflexivity|].
  rewrite !members_step, skip_ws_blank by exact H. reflexivity.
Qed.

Lemma elements_blank (fuel : nat) (b s : string) (acc : list value) :
  Spec.blank b = true -> elements fuel (b ++ s) acc = elements fuel s acc.
Proof.
  intros H. destruct fuel as [|f]; [reflexivity|].
  rewrite !elements_step, value_at_blank by exact H. reflexivity.
Qed.

Lemma ser_defined (indent : string) (v : value) :
  v <> VUndef -> exists s, ser gap indent v = Some s.
Proof.
  destruct v as [| |[|]|m scale|s|xs|ps]; intros H; try congruence;
    simpl; eexists; reflexivity.
Qed.

(** The brackets of an indented text. *)
Lemma wrap_indented (opening closing stepback indent : string)
    (p : string) (parts : list string) :
  wrap opening closing gap stepback indent (p :: parts)
  = opening ++ String newline indent
    ++ join ("," ++ String newline indent) (p :: parts)
    ++ String newline stepback ++ closing.
Proof. unfold wrap. now rewrite Hgap. Qed.

Lemma text_in_array (indent : string) (xs : list value) :
  Spec.text_in gap indent (VArr xs)
  = wrap "[" "]" gap indent (indent ++ gap)
      (map (Spec.text_in gap (indent ++ gap)) xs).
Proof. reflexivity. Qed.

Lemma text_in_object (indent : string) (ps : props) :
  Forall (fun kv => snd kv <> VUndef) ps ->
  Spec.text_in gap indent (VObj ps)
  = wrap "{" "}" gap indent (indent ++ gap)
      (map (Spec.entry_text_in gap (indent ++ gap)) ps).
Proof.
  intros H. unfold Spec.text_in at 1. cbn [ser]. f_equal.
  induction H as [|[k x] ps Hx Hps IH]; [reflexivity|].
  simpl in Hx. cbn [map]. rewrite <- IH. clear IH.
  unfold Spec.entry_text_in, Spec.text_in. cbn [fst snd].
  destruct (ser_defined (indent ++ gap) Hx) as [s Hs].
  rewrite Hs, Hgap. reflexivity.
Qed.

Lemma text_in_head (indent : string) (v : value) :
  Spec.representable v = true ->
  exists c r, Spec.text_in gap indent v = String c r /\ Spec.opens c = true.
Proof.
  destruct v as [| |[|]|m scale|s|xs|ps]; intros H; try discriminate H;
    try (do 2 eexists; split; reflexivity).
  - change (Spec.text_in gap indent (VNum m scale))
      with (Spec.text (VNum m scale)).
    now apply text_head.
  - rewrite text_in_array. destruct (map _ xs);
      [|rewrite wrap_indented]; do 2 eexists; split; reflexivity.
  - unfold Spec.text_in. cbn [ser].
    match goal with
    | |- context [wrap _ _ _ _ _ ?l] => destruct l
    end; [|rewrite wrap_indented]; do 2 eexists; split; reflexivity.
Qed.

Lemma follows_comma (r : string) : Spec.follows (String "," r) = true.
Proof. reflexivity. Qed.

Lemma follows_line (r : string) : Spec.follows (String newline r) = true.
Proof. reflexivity. Qed.

Lemma skip_ws_closing (indent : string) (c : ascii) (rest : string) :
  Spec.blank indent = true -> is_ws c = false ->
  skip_ws (String newline (indent ++ String c rest)) = String c rest.
Proof.
  intros Hi Hc.
  change (String newline (indent ++ String c rest))
    with (String newline indent ++ String c rest).
  rewrite skip_ws_blank by now apply blank_line.
  now apply skip_ws_head.
Qed.

(** The elements of an indented array, after the first has been
    reached. *)
Lemma elements_in (inner indent : string) (xs : list value) :
  Spec.blank inner = true -> Spec.blank indent = true ->
  Forall (Spec.reads_back_in gap) xs ->
  Forall (fun x => Spec.representable x = true) xs ->
  forall x, Spec.reads_back_in gap x -> Spec.representable x = true ->
  forall fuel rest acc,
    S (Spec.weight x) + Spec.total xs <= fuel ->
    elements fuel
      (join ("," ++ String newline inner)
         (map (Spec.text_in gap inner) (x :: xs))
       ++ String newline (indent ++ String "]" rest)) acc
    = Some (VArr (List.rev acc ++ x :: xs), rest).
Proof.
  intros Hinner Hindent.
  induction xs as [|y ys IH]; intros Hback Hrep x Hx Hrx fuel rest acc Hfuel;
    destruct fuel as [|f]; try (simpl in Hfuel; lia);
    rewrite elements_step.
  - cbn [map join].
    rewrite (Hx Hrx inner f) by
      (try apply follows_line; try exact Hinner; simpl in Hfuel; lia).
    cbv zeta. rewrite skip_ws_closing by (try exact Hindent; reflexivity).
    reflexivity.
  - change (join ("," ++ String newline inner)
              (map (Spec.text_in gap inner) (x :: y :: ys)))
      with (Spec.text_in gap inner x
            ++ ("," ++ String newline inner)
            ++ join ("," ++ String newline inner)
                 (map (Spec.text_in gap inner) (y :: ys))).
    rewrite !append_assoc. cbn [append].
    rewrite (Hx Hrx inner f) by
      (try apply follows_comma; try exact Hinner;
       unfold Spec.total in Hfuel; simpl in Hfuel; lia).
    cbv zeta. rewrite skip_ws_head by reflexivity.
    cbn [eat Ascii.eqb Bool.eqb].
    change (String newline (inner ++ ?s)) with (String newline inner ++ s).
    rewrite elements_blank by now apply blank_line.
    inversion Hback as [|? ? Hy Hys]; subst.
    inversion Hrep as [|? ? Hry Hrys]; subst.
    rewrite (IH Hys Hrys y Hy Hry)
      by (unfold Spec.total in *; simpl in *; lia).
    simpl. rewrite <- app_assoc. reflexivity.
Qed.

Lemma entry_in_shape (inner k : string) (x : value) (tail : string) :
  Spec.entry_text_in gap inner (k, x) ++ tail
  = String dq (escape k
               ++ String dq (String ":"
                               (String " " (Spec.text_in gap inner x ++ tail)))).
Proof.
  unfold Spec.entry_text_in, quote. cbn [fst snd append].
  rewrite !append_assoc. reflexivity.
Qed.

Lemma members_entry_in (inner : string) (f : nat) (k : string) (x : value)
    (tail : string) (acc : props) :
  Spec.blank inner = true ->
  Spec.reads_back_in gap x -> Spec.representable x = true ->
  Spec.weight x <= f -> Spec.follows tail = true ->
  members (S f) (Spec.entry_text_in gap inner (k, x) ++ tail) acc =
  let r3 := skip_ws tail in
  match eat "," r3 with
  | Some r4 => members f r4 (obj_set k x acc)
  | None =>
      match eat "}" r3 with
      | Some r4 => Some (VObj (obj_set k x acc), r4)
      | None => None
      end
  end.
Proof.
  intros Hinner Hx Hrx Hf Htail.
  rewrite members_step, entry_in_shape.
  rewrite skip_ws_head by reflexivity.
  unfold eat at 1. rewrite Ascii.eqb_refl.
  rewrite string_body_escaped. cbn [rev rev_onto append].
  rewrite skip_ws_head by reflexivity.
  cbn [eat Ascii.eqb Bool.eqb].
  change (String " " ?s) with (" " ++ s).
  rewrite value_at_blank by reflexivity.
  rewrite (Hx Hrx inner f tail Hinner Hf Htail). reflexivity.
Qed.

(** The properties of an indented object, after the first has been
    reached. *)
Lemma members_in (inner indent : string) (ps : props) :
  Spec.blank inner = true -> Spec.blank indent = true ->
  Forall (fun kv => Spec.reads_back_in gap (snd kv)) ps ->
  Forall (fun kv => Spec.representable (snd kv) = true) ps ->
  forall k x, Spec.reads_back_in gap x -> Spec.representable x = true ->
  forall fuel rest acc,
    S (Spec.weight x) + Spec.total (map snd ps) <= fuel ->
    members fuel
      (join ("," ++ String newline inner)
         (map (Spec.entry_text_in gap inner) ((k, x) :: ps))
       ++ String newline (indent ++ String "}" rest)) acc
    = Some (VObj (fold_left (fun o kv => obj_set (fst kv) (snd kv) o)
                            ((k, x) :: ps) acc), rest).
Proof.
  intros Hinner Hindent.
  induction ps as [|[j y] ps IH];
    intros Hback Hrep k x Hx Hrx fuel rest acc Hfuel;
    destruct fuel as [|f]; try (simpl in Hfuel; lia).
  - cbn [map join].
    rewrite members_entry_in; try assumption;
      [| simpl in Hfuel; lia | apply follows_line].
    cbv zeta. rewrite skip_ws_closing by (try exact Hindent; reflexivity).
    reflexivity.
  - change (join ("," ++ String newline inner)
              (map (Spec.entry_text_in gap inner) ((k, x) :: (j, y) :: ps)))
      with (Spec.entry_text_in gap inner (k, x)
            ++ ("," ++ String newline inner)
            ++ join ("," ++ String newline inner)
                 (map (Spec.entry_text_in gap inner) ((j, y) :: ps))).
    rewrite !append_assoc. cbn [append].
    rewrite members_entry_in; try assumption;
      [| unfold Spec.total in Hfuel; simpl in Hfuel; lia
       | apply follows_comma].
    cbv zeta. rewrite skip_ws_head by reflexivity.
    cbn [eat Ascii.eqb Bool.eqb].
    change (String newline (inner ++ ?s)) with (String newline inner ++ s).
    rewrite members_blank by now apply blank_line.
    inversion Hback as [|? ? Hy Hys]; subst.
    inversion Hrep as [|? ? Hry Hrys]; subst.
    rewrite (IH Hys Hrys j y Hy Hry)
      by (unfold Spec.total in *; simpl in *; lia).
    reflexivity.
Qed.

Lemma join_head_sep (sep : string) (c : ascii) (r : string) (first : string)
    (others : list string) (tail : string) :
  first = String c r ->
  exists r', join sep (first :: others) ++ tail = String c r'.
Proof.
  intros ->. destruct others; simpl; eexists; reflexivity.
Qed.

(** Parsing the indented text of a representable value gives the value
    back. *)
Lemma value_reads_back_in (v : value) : Spec.reads_back_in gap v.
Proof.
  induction v as [| |b|m scale|s|xs IH|ps IH] using value_induction;
    intros Hrep indent fuel rest Hindent Hfuel Hrest;
    try discriminate Hrep;
    (destruct fuel as [|f]; [simpl in Hfuel; lia|]).
  - reflexivity.
  - destruct b; reflexivity.
  - simpl in Hrep. apply andb_prop in Hrep. destruct Hrep as [Hs Hm].
    apply Nat.eqb_eq in Hs. subst scale.
    rewrite value_at_step.
    change (Spec.text_in gap indent (VNum m 0)) with (Spec.text (VNum m 0)).
    pose proof (@number_followed m rest Hrest) as Hnum.
    rewrite text_number in * by exact Hm.
    destruct (string_of_Z_head m) as [c [r [E Hc]]].
    rewrite E in *. cbn [append] in *.
    destruct (numeric_head c Hc) as [Hw [H1 [H2 [H3 [H4 [H5 H6]]]]]].
    rewrite skip_ws_head by exact Hw. cbv zeta.
    rewrite !head_is_head by assumption.
    exact Hnum.
  - rewrite value_at_step.
    change (Spec.text_in gap indent (VStr s)) with (quote s).
    unfold quote at 1. cbn [append].
    rewrite skip_ws_head by reflexivity. cbv zeta.
    rewrite !head_is_head by reflexivity.
    unfold head_is, eat. rewrite Ascii.eqb_refl.
    change (String dq ((escape s ++ String dq "") ++ rest))
      with (quote s ++ rest).
    rewrite string_body_quote. reflexivity.
  - pose proof (representable_array xs Hrep) as Hall.
    rewrite text_in_array. rewrite weight_array in Hfuel.
    destruct xs as [|x xs]; [reflexivity|].
    inversion IH as [|? ? Hx Hxs]; subst.
    inversion Hall as [|? ? Hrx Hrxs]; subst.
    cbn [map]. rewrite wrap_indented.
    rewrite value_at_step.
    rewrite !append_assoc. cbn [append].
    rewrite skip_ws_head by reflexivity. cbv zeta.
    rewrite !head_is_head by reflexivity.
    change (head_is "[" (String "[" ?t)) with true.
    cbn [drop].
    assert (Hinner : Spec.blank (indent ++ gap) = true)
      by now apply blank_append.
    change (String newline ((indent ++ gap) ++ ?s))
      with (String newline (indent ++ gap) ++ s).
    rewrite skip_ws_blank by now apply blank_line.
    destruct (text_in_head (indent ++ gap) x Hrx) as [c [r [E Hc]]].
    destruct (opens_head c Hc) as [Hw [H1 [H2 H3]]].
    pose proof (@elements_in (indent ++ gap) indent xs Hinner Hindent
                  Hxs Hrxs x Hx Hrx f rest []) as Hel.
    cbn [map append] in Hel.
    destruct (@join_head_sep (String "," (String newline (indent ++ gap))) c r
                (Spec.text_in gap (indent ++ gap) x)
                (map (Spec.text_in gap (indent ++ gap)) xs)
                (String newline (indent ++ String "]" rest)) E) as [r' E'].
    rewrite E' in *.
    rewrite skip_ws_head by exact Hw.
    rewrite eat_head by exact H1.
    apply Hel. unfold Spec.total in *. simpl in *. lia.
  - destruct (representable_object ps Hrep) as [Hkeys Hall].
    assert (Hdef : Forall (fun kv => snd kv <> VUndef) ps).
    { eapply Forall_impl; [|exact Hall]. intros kv [_ H].
      now apply representable_defined. }
    assert (Hreps : Forall (fun kv => Spec.representable (snd kv) = true) ps).
    { eapply Forall_impl; [|exact Hall]. now intros kv [_ H]. }
    rewrite text_in_object by exact Hdef. rewrite weight_object in Hfuel.
    destruct ps as [|[k x] ps]; [reflexivity|].
    inversion IH as [|? ? Hx Hxs]; subst.
    inversion Hreps as [|? ? Hrx Hrxs]; subst.
    cbn [snd] in Hx, Hrx.
    cbn [map]. rewrite wrap_indented.
    rewrite value_at_step.
    rewrite !append_assoc. cbn [append].
    rewrite skip_ws_head by reflexivity. cbv zeta.
    change (head_is "{" (String "{" ?t)) with true.
    cbn [drop].
    assert (Hinner : Spec.blank (indent ++ gap) = true)
      by now apply blank_append.
    change (String newline ((indent ++ gap) ++ ?s))
      with (String newline (indent ++ gap) ++ s).
    rewrite skip_ws_blank by now apply blank_line.
    pose proof (@members_in (indent ++ gap) indent ps Hinner Hindent
                  Hxs Hrxs k x Hx Hrx f rest []) as Hmem.
    cbn [map append] in Hmem.
    destruct (@join_head_sep (String "," (String newline (indent ++ gap))) dq
                (escape k ++ String dq (": " ++ Spec.text_in gap (indent ++ gap) x))
                (Spec.entry_text_in gap (indent ++ gap) (k, x))
                (map (Spec.entry_text_in gap (indent ++ gap)) ps)
                (String newline (indent ++ String "}" rest))) as [r' E'].
    { unfold Spec.entry_text_in, quote. cbn [fst snd append].
      now rewrite append_assoc. }
    rewrite E' in *.
    rewrite skip_ws_head by reflexivity.
    rewrite eat_head by reflexivity.
    rewrite Hmem by (unfold Spec.total in *; simpl in *; lia).
    rewrite (set_in_order ((k, x) :: ps) []) by exact Hkeys.
    reflexivity.
Qed.

End IndentedTexts.

Section IndentedParse.
Import Text Js Json.

Lemma join_length_sep (A : Type) (sep : string) (w : A -> nat)
    (t : A -> string) (l : list A) :
  1 <= String.length sep ->
  Forall (fun a => w a <= String.length (t a)) l ->
  list_sum (map (fun a => S (w a)) l)
  <= S (String.length (join sep (map t l))).
Proof.
  intros Hsep. induction 1 as [|a l Ha Hl IH]; [simpl; lia|].
  destruct l as [|b l].
  - simpl. lia.
  - change (join sep (map t (a :: b :: l)))
      with (t a ++ sep ++ join sep (map t (b :: l))).
    rewrite !append_length.
    change (list_sum (map (fun a => S (w a)) (a :: b :: l)))
      with (S (w a) + list_sum (map (fun a => S (w a)) (b :: l))).
    lia.
Qed.

Lemma wrap_length (gap opening closing stepback indent p : string)
    (parts : list string) :
  (gap =? "") = false ->
  String.length opening + String.length closing
  + String.length (join ("," ++ String newline indent) (p :: parts))
  <= String.length (wrap opening closing gap stepback indent (p :: parts)).
Proof.
  intros Hgap. rewrite wrap_indented by exact Hgap.
  rewrite !append_length. lia.
Qed.

(** The parser's fuel is enough for an indented text too. *)
Lemma weight_text_in (gap : string) (v : value) :
  (gap =? "") = false ->
  Spec.representable v = true ->
  forall indent, Spec.weight v <= String.length (Spec.text_in gap indent v).
Proof.
  intros Hgap.
  induction v as [| |b|m scale|s|xs IH|ps IH] using value_induction;
    intros Hrep indent; try discriminate Hrep.
  - simpl. lia.
  - destruct b; simpl; lia.
  - destruct (@text_in_head gap Hgap indent _ Hrep) as [c [r [-> _]]]. simpl. lia.
  - simpl. lia.
  - pose proof (representable_array xs Hrep) as Hall.
    rewrite weight_array, text_in_array.
    destruct xs as [|x xs']; [cbv; lia|].
    assert (H : Forall (fun x => Spec.weight x
                  <= String.length (Spec.text_in gap (indent ++ gap) x))
                  (x :: xs')).
    { clear Hrep. induction IH as [|y ys Hy Hys IHys]; constructor;
        inversion Hall; subst; auto. }
    assert (Hsep : 1 <= String.length ("," ++ String newline (indent ++ gap)))
      by (simpl; lia).
    pose proof (@join_length_sep _ ("," ++ String newline (indent ++ gap))
                  Spec.weight (Spec.text_in gap (indent ++ gap)) (x :: xs')
                  Hsep H) as Hsum.
    pose proof (@wrap_length gap "[" "]" indent (indent ++ gap)
                  (Spec.text_in gap (indent ++ gap) x)
                  (map (Spec.text_in gap (indent ++ gap)) xs') Hgap) as Hlen.
    change (String.length "[") with 1 in Hlen.
    change (String.length "]") with 1 in Hlen.
    unfold Spec.total. cbn [map] in Hsum |- *. lia.
  - destruct (representable_object ps Hrep) as [_ Hall].
    assert (Hdef : Forall (fun kv => snd kv <> VUndef) ps).
    { eapply Forall_impl; [|exact Hall]. intros kv [_ H].
      now apply representable_defined. }
    rewrite weight_object, text_in_object by assumption.
    destruct ps as [|kx ps']; [cbv; lia|].
    assert (H : Forall (fun kv => Spec.weight (snd kv)
                  <= String.length (Spec.entry_text_in gap (indent ++ gap) kv))
                  (kx :: ps')).
    { clear Hrep Hdef. induction IH as [|[k y] ys Hy Hys IHys]; constructor;
        inversion Hall as [|? ? [_ Hry] Hrys]; subst; auto.
      unfold Spec.entry_text_in. rewrite !append_length.
      cbn [fst snd] in *. specialize (Hy Hry (indent ++ gap)). lia. }
    assert (Hsep : 1 <= String.length ("," ++ String newline (indent ++ gap)))
      by (simpl; lia).
    pose proof (@join_length_sep _ ("," ++ String newline (indent ++ gap))
                  (fun kv => Spec.weight (snd kv))
                  (Spec.entry_text_in gap (indent ++ gap)) (kx :: ps')
                  Hsep H) as Hsum.
    pose proof (@wrap_length gap "{" "}" indent (indent ++ gap)
                  (Spec.entry_text_in gap (indent ++ gap) kx)
                  (map (Spec.entry_text_in gap (indent ++ gap)) ps') Hgap) as Hlen.
    change (String.length "{") with 1 in Hlen.
    change (String.length "}") with 1 in Hlen.
    unfold Spec.total. rewrite map_map. cbn [map] in Hsum |- *. lia.
Qed.

Lemma parse_text_in (v : value) :
  Spec.representable v = true -> parse (Spec.text_in "  " "" v) = Ok v.
Proof.
  intros Hrep. unfold parse.
  pose proof (@value_reads_back_in "  " eq_refl eq_refl v Hrep ""
                (S (String.length (Spec.text_in "  " "" v))) "") as H.
  rewrite append_empty in H. rewrite H.
  - reflexivity.
  - reflexivity.
  - pose proof (@weight_text_in "  " v eq_refl Hrep ""). lia.
  - reflexivity.
Qed.

(** X20.  What [JSON.stringify(v, null, 2)] writes, [JSON.parse] reads
    back as [v], for every JSON-representable [v] (no [undefined],
    integers that a double holds exactly, well-formed texts, objects in
    property order). *)
Theorem parse_reads_indented (v : value) (text : string)
    (Hrep : Spec.representable v = true)
    (Htext : stringify_pretty v = Some text) :
  parse text = Ok v.
Proof.
  pose proof (parse_text_in v Hrep) as H.
  unfold Spec.text_in in H. unfold stringify_pretty in Htext.
  rewrite Htext in H. exact H.
Qed.

End IndentedParse.

Section StoredText.
Import Js Submit.
Local Open Scope js_scope.

Lemma parse_reads_indented_witness : Json.parse lead_text = Ok lead.
Proof. exact (@parse_reads_indented lead lead_text eq_refl eq_refl). Defined.

Lemma generated_or_supplied (rt : Runtime) (payload id : value) :
  ($(match Spec.supplied_id payload with
     | Some s => VStr s
     | None => VUndef
     end) ||| $(VStr (uuid rt))) = Ok id ->
  id = VStr (match Spec.supplied_id payload with
             | Some s => s
             | None => uuid rt
             end).
Proof.
  unfold Spec.supplied_id.
  destruct (Spec.guarded payload "id") as [| |b|m scale|s|xs|ps];
    cbn; try (intros [= <-]; reflexivity).
  destruct (s =? "") eqn:E; cbn; [intros [= <-]; reflexivity|].
  rewrite E. cbn. intros [= <-]. reflexivity.
Qed.

(** X21.  What a POST writes to the object store reads back as the
    document it built: the text of every write parses, as JSON, to the
    document (the five server-side fields with the payload spread over
    them), whenever that document is JSON-representable. *)
Theorem stored_text_reads_back
    (env : Env) (sdk : sdk_load) (rt : Runtime) (w : World) (req : Request)
    (region bucket key text : string)
    (Hpost : method req = "POST")
    (Hsent : In (S3Put region bucket key text)
                (snd (Submit.run env sdk rt w req)))
    (Hrep : Spec.representable (VObj (built_document rt req)) = true) :
  Json.parse text = Ok (VObj (built_document rt req)).
Proof.
  destruct (run_log env sdk rt w req Hpost)
    as (id & stored & k & s3 & ddb & ses & hub & cl & H).
  cbv zeta in H. destruct H as (Hgen & Hs3 & Hrun & Hddb & Hses & Hhub & Hcl).
  apply generated_or_supplied in Hgen. subst id.
  fold (built_document rt req) in Hs3.
  rewrite Hrun in Hsent. cbn [snd] in Hsent.
  assert (Hin : In (S3Put region bucket key text) s3).
  { apply in_app_or in Hsent. destruct Hsent as [Hin|Hin]; [exact Hin|].
    exfalso.
    apply in_app_or in Hin. destruct Hin as [Hin|Hin].
    { destruct Hddb as [->|(? & ? & ? & _ & ->)];
        [destruct Hin | destruct Hin as [Hin|[]]; discriminate Hin]. }
    apply in_app_or in Hin. destruct Hin as [Hin|Hin].
    { destruct Hses as [->|(_ & ? & ? & ? & ? & ? & _ & ->)];
        [destruct Hin | destruct Hin as [Hin|[]]; discriminate Hin]. }
    apply in_app_or in Hin. destruct Hin as [Hin|Hin].
    { destruct Hhub as [->|(_ & _ & ? & [? ->] & ->)];
        [destruct Hin | destruct Hin as [Hin|[]]; discriminate Hin]. }
    destruct Hcl as [->|(_ & _ & ? & [? ->] & ->)];
      [destruct Hin | destruct Hin as [Hin|[]]; discriminate Hin]. }
  destruct Hs3 as [(-> & _)|(k' & text' & _ & Htext & -> & _)];
    [destruct Hin|].
  destruct Hin as [Hin|[]]. injection Hin as _ _ _ <-.
  pose proof (parse_text_in _ Hrep) as Hparse.
  unfold Spec.text_in in Hparse. unfold Json.stringify_pretty in Htext.
  rewrite Htext in Hparse. exact Hparse.
Qed.

Lemma stored_text_reads_back_witness :
  Json.parse stored_lead_text
  = Ok (VObj (built_document sample_runtime (post lead))).
Proof.
  exact (@stored_text_reads_back full_env AllSdk sample_runtime silent_world
           (post lead) "eu-west-1" "bucket"
           ("leads/final/2024-05-06/source=web/utm=direct/industry=na/"
            ++ "01234567-89ab-4cde-b012-3456789abcde.json")
           stored_lead_text eq_refl (or_introl eq_refl) eq_refl).
Defined.

End StoredText.

(** ** Decoding the body of a submission *)

Section BodyDecoding.
Import Text Js Body.
Local Open Scope js_scope.

Lemma text_not_empty (v : value) :
  Spec.representable v = true -> (Spec.text v =? "") = false.
Proof.
  intros H. destruct (text_head v H) as (c & r & -> & _). reflexivity.
Qed.

(** X22.  A JSON body is decoded to the value it denotes: when the
    platform has left no parsed object, the content type names
    [application/json] and the stream holds the text that
    [JSON.stringify] writes for a JSON-representable [v], the payload is
    [v]. *)
Theorem json_body_reads_back (raw : Raw) (body v : value)
    (Hparsed : parsed raw = Ok body) (Hbody : usable body = false)
    (Hstream : stream raw = Ok (Spec.text v))
    (Htype : is_json_type (content_type raw) = true)
    (Hrep : Spec.representable v = true) :
  payload_of raw = v.
Proof.
  unfold payload_of. rewrite Hparsed, Hbody, Hstream. cbv zeta.
  rewrite decode_chars by now apply chars_text.
  rewrite text_not_empty, Htype by exact Hrep. cbn [negb andb].
  now rewrite parse_stringify.
Qed.

Lemma json_body_reads_back_witness :
  payload_of (json_body (Text.quoted "{'id':{'S':'abc'}}")) = last_key.
Proof.
  exact (@json_body_reads_back (json_body (Text.quoted "{'id':{'S':'abc'}}"))
           VUndef last_key eq_refl eq_refl eq_refl eq_refl eq_refl).
Defined.

(** X23.  A body that cannot be decoded is an empty payload: when reading
    [req.body] throws, or when there is no parsed object and the stream
    fails, holds no text, or holds text that is announced as JSON and is
    not JSON, the payload is [{}]; the POST is then answered with the
    generated identifier and the status ["final"]. *)
Theorem undecodable_body_is_empty (raw : Raw)
    (env : Env) (sdk : sdk_load) (rt : Runtime) (w : World)
    (forwarded remote agent : option string)
    (Hbad : parsed raw = Raise
            \/ (exists body, parsed raw = Ok body /\ usable body = false)
               /\ (stream raw = Raise
                   \/ stream raw = Ok ""
                   \/ exists bytes,
                        stream raw = Ok bytes
                        /\ is_json_type (content_type raw) = true
                        /\ Json.parse (Utf8.decode bytes) = Raise)) :
  payload_of raw = VObj []
  /\ exists stored key calls,
       Submit.run env sdk rt w (request "POST" raw forwarded remote agent)
       = (Ok (json 200 [ ("ok", VBool true); ("stored", VStr stored);
                         ("key", VStr key); ("id", VStr (Submit.uuid rt));
                         ("status", VStr "final") ]), calls).
Proof.
  assert (Hempty : payload_of raw = VObj []).
  { unfold payload_of.
    destruct Hbad as [->|[(body & -> & ->) [->|[->|(bytes & -> & Ht & Hp)]]]];
      try reflexivity.
    cbv zeta. rewrite Ht, Hp.
    destruct (Utf8.decode bytes =? ""); reflexivity. }
  split; [exact Hempty|].
  destruct (@run_log env sdk rt w (request "POST" raw forwarded remote agent)
              eq_refl)
    as (id & stored & key & s3 & ddb & ses & hub & cl & H).
  cbv zeta in H. destruct H as (Hgen & _ & Hrun & _).
  cbn [Submit.payload request] in Hgen, Hrun.
  rewrite Hempty in Hgen, Hrun. cbn in Hgen. injection Hgen as <-.
  do 3 eexists. exact Hrun.
Qed.

Lemma undecodable_body_is_empty_witness :
  payload_of (json_body "{broken") = VObj []
  /\ exists stored key calls,
       Submit.run full_env AllSdk sample_runtime silent_world
         (request "POST" (json_body "{broken") None None None)
       = (Ok (json 200 [ ("ok", VBool true); ("stored", VStr stored);
                         ("key", VStr key);
                         ("id", VStr (Submit.uuid sample_runtime));
                         ("status", VStr "final") ]), calls).
Proof.
  apply (@undecodable_body_is_empty (json_body "{broken") full_env AllSdk
           sample_runtime silent_world None None None).
  right. split.
  - exists VUndef. split; reflexivity.
  - right. right. exists "{broken". repeat split.
Defined.

Lemma lookup_texts (k : string) (pairs : list (string * string)) :
  lookup k (List.rev (map (fun kv => (fst kv, VStr (snd kv))) pairs))
  = option_map VStr (last_value k pairs).
Proof.
  induction pairs as [|[j v] pairs IH]; [reflexivity|].
  cbn [map List.rev last_value fst snd]. rewrite lookup_app, IH.
  destruct (last_value k pairs); [reflexivity|].
  simpl. destruct (j =? k); reflexivity.
Qed.

(** X24.  A body that is text and is not announced as JSON is read as a
    form: the payload is an object that holds, under each name of the
    form, the last value given for that name, as a text; no field of it is
    a number, an object or an array. *)
Theorem form_fields_are_texts (raw : Raw) (body : value) (bytes : string)
    (Hparsed : parsed raw = Ok body) (Hbody : usable body = false)
    (Hstream : stream raw = Ok bytes)
    (Htext : Utf8.decode bytes <> "")
    (Htype : is_json_type (content_type raw) = false) :
  exists fields,
    payload_of raw = VObj fields
    /\ forall k,
         lookup k fields
         = option_map VStr
             (last_value k (url_search_params (Utf8.decode bytes))).
Proof.
  unfold payload_of. rewrite Hparsed, Hbody, Hstream. cbv zeta.
  apply String.eqb_neq in Htext. rewrite Htext, Htype. cbn [negb andb].
  unfold from_entries. eexists. split; [reflexivity|].
  intros k. unfold literal. rewrite lookup_assignments, lookup_texts.
  destruct (last_value k _); reflexivity.
Qed.

Lemma form_fields_are_texts_witness :
  exists fields,
    payload_of (form_body "id=7&status=Draft&id=8") = VObj fields
    /\ forall k,
         lookup k fields
         = option_map VStr
             (last_value k
                (url_search_params (Utf8.decode "id=7&status=Draft&id=8"))).
Proof.
  apply (@form_fields_are_texts (form_body "id=7&status=Draft&id=8") VUndef
           "id=7&status=Draft&id=8"); try reflexivity.
  discriminate.
Defined.

End BodyDecoding.

Section FormTexts.
Import Text Js Body.

Lemma unreserved_char (c : ascii) :
  unreserved c = true ->
  Ascii.eqb c "&" = false /\ Ascii.eqb c "=" = false
  /\ Ascii.eqb c "+" = false /\ Ascii.eqb c "%" = false
  /\ Ascii.eqb c "?" = false /\ (code c <? 128)%nat = true.
Proof.
  destruct c as [[] [] [] [] [] [] [] []]; intros H; try discriminate H;
    repeat split.
Qed.

Lemma plain_without (c : ascii) (s : string) :
  unreserved c = false -> plain_text s = true -> without c s = true.
Proof.
  intros Hc. induction s as [|x s IH]; intros H; [reflexivity|].
  simpl in H. apply andb_prop in H. destruct H as [Hx Hs].
  simpl. rewrite IH by exact Hs.
  destruct (Ascii.eqb x c) eqn:E; [|reflexivity].
  apply Ascii.eqb_eq in E. subst x. congruence.
Qed.

Lemma without_append (c : ascii) (a b : string) :
  without c a = true -> without c b = true -> without c (a ++ b) = true.
Proof.
  induction a as [|x a IH]; intros Ha Hb; [exact Hb|].
  simpl in *. apply andb_prop in Ha. destruct Ha as [Hx Ha].
  rewrite Hx. now apply IH.
Qed.

Lemma split_at_without (sep : ascii) (p rest acc : string) :
  without sep p = true ->
  split_at sep (p ++ rest) acc = split_at sep rest (rev_onto p acc).
Proof.
  revert acc. induction p as [|c p IH]; intros acc H; [reflexivity|].
  simpl in H. apply andb_prop in H. destruct H as [Hc Hp].
  apply negb_true_iff in Hc.
  cbn [append split_at rev_onto]. rewrite Hc. now apply IH.
Qed.

Lemma split_at_last (sep : ascii) (p : string) :
  without sep p = true -> split_at sep p "" = [p].
Proof.
  intros H. rewrite <- (append_empty p) at 1.
  rewrite split_at_without by exact H. cbn [split_at].
  change (rev_onto p "") with (rev p). now rewrite rev_involutive.
Qed.

Lemma split_at_next (sep : ascii) (p rest : string) :
  without sep p = true ->
  split_at sep (p ++ String sep rest) "" = p :: split_at sep rest "".
Proof.
  intros H. rewrite split_at_without by exact H.
  cbn [split_at]. rewrite Ascii.eqb_refl.
  change (rev_onto p "") with (rev p). now rewrite rev_involutive.
Qed.

Lemma split_at_join (sep : ascii) (p : string) (pieces : list string) :
  Forall (fun x => without sep x = true) (p :: pieces) ->
  split_at sep (join (String sep "") (p :: pieces)) "" = p :: pieces.
Proof.
  revert p. induction pieces as [|q pieces IH]; intros p H.
  - inversion H; subst. now apply split_at_last.
  - inversion H as [|? ? Hp Hrest]; subst.
    change (join (String sep "") (p :: q :: pieces))
      with (p ++ String sep "" ++ join (String sep "") (q :: pieces)).
    cbn [append]. rewrite split_at_next by exact Hp.
    f_equal. now apply IH.
Qed.

Lemma name_value_without (k rest acc : string) :
  without "=" k = true ->
  name_value (k ++ rest) acc = name_value rest (rev_onto k acc).
Proof.
  revert acc. induction k as [|c k IH]; intros acc H; [reflexivity|].
  simpl in H. apply andb_prop in H. destruct H as [Hc Hk].
  apply negb_true_iff in Hc.
  cbn [append name_value rev_onto]. rewrite Hc. now apply IH.
Qed.

Lemma plain_ascii (s : string) : plain_text s = true -> Utf8.chars s.
Proof.
  induction s as [|c s IH]; intros H; [constructor|].
  simpl in H. apply andb_prop in H. destruct H as [Hc Hs].
  destruct (unreserved_char c Hc) as (_ & _ & _ & _ & _ & Hcode).
  apply Utf8.chars_one; [exact Hcode | now apply IH].
Qed.

Lemma plus_to_space_plain (s : string) :
  plain_text s = true -> plus_to_space s = s.
Proof.
  induction s as [|c s IH]; intros H; [reflexivity|].
  simpl in H. apply andb_prop in H. destruct H as [Hc Hs].
  destruct (unreserved_char c Hc) as (_ & _ & Hplus & _).
  simpl. rewrite Hplus, IH by exact Hs. reflexivity.
Qed.

Lemma percent_decode_plain (s : string) :
  plain_text s = true -> percent_decode s = s.
Proof.
  induction s as [|c s IH]; intros H; [reflexivity|].
  simpl in H. apply andb_prop in H. destruct H as [Hc Hs].
  destruct (unreserved_char c Hc) as (_ & _ & _ & Hpercent & _).
  cbn [percent_decode]. rewrite Hpercent, IH by exact Hs. reflexivity.
Qed.

Lemma form_text_plain (s : string) : plain_text s = true -> form_text s = s.
Proof.
  intros H. unfold form_text.
  rewrite plus_to_space_plain, percent_decode_plain by exact H.
  apply decode_chars. now apply plain_ascii.
Qed.

Lemma piece_plain (k v : string) :
  plain_text k = true -> plain_text v = true ->
  (let (name, value) := name_value (k ++ "=" ++ v) "" in
   (form_text name, form_text value)) = (k, v).
Proof.
  intros Hk Hv.
  rewrite name_value_without by (apply plain_without; [reflexivity | exact Hk]).
  cbn [append name_value Ascii.eqb Bool.eqb].
  change (rev_onto k "") with (rev k).
  rewrite rev_involutive, !form_text_plain by assumption. reflexivity.
Qed.

Lemma piece_without (k v : string) :
  plain_text k = true -> plain_text v = true ->
  without "&" (k ++ "=" ++ v) = true /\ ((k ++ "=" ++ v) =? "") = false.
Proof.
  intros Hk Hv. split.
  - apply without_append; [now apply plain_without|].
    cbn [append without Ascii.eqb Bool.eqb negb andb].
    now apply plain_without.
  - destruct k; reflexivity.
Qed.

Lemma form_head (k v : string) (others : list string) (r : string) :
  plain_text k = true ->
  join "&" ((k ++ "=" ++ v) :: others) = String "?" r -> False.
Proof.
  intros Hk H. destruct k as [|c k].
  - destruct others; discriminate H.
  - simpl in Hk. apply andb_prop in Hk. destruct Hk as [Hc _].
    destruct (unreserved_char c Hc) as (_ & _ & _ & _ & Hq & _).
    assert (E : c = "?"%char) by (destruct others; injection H; auto).
    subst c. discriminate Hq.
Qed.

(** X25.  The form decoder reads back what form encoding writes for
    plain texts: the fields of [k1=v1&k2=v2&...], where the names and the
    values are made of letters, digits, hyphens, underscores and full
    stops, are the pairs [(k1, v1), (k2, v2), ...] in their order. *)
Theorem form_reads_back (pairs : list (string * string))
    (Hplain : Forall (fun kv => plain_text (fst kv) = true
                                /\ plain_text (snd kv) = true) pairs) :
  url_search_params (form_of pairs) = pairs.
Proof.
  destruct pairs as [|[k v] pairs]; [reflexivity|].
  unfold url_search_params, form_of.
  set (pieces := map (fun kv => fst kv ++ "=" ++ snd kv) ((k, v) :: pairs)).
  assert (Hpieces : Forall (fun x => without "&" x = true
                                     /\ (x =? "") = false) pieces).
  { unfold pieces. apply Forall_map. eapply Forall_impl; [|exact Hplain].
    intros [j x] [Hj Hx]. now apply piece_without. }
  assert (Hinput : match join "&" pieces with
                   | String "?" r => r
                   | _ => join "&" pieces
                   end = join "&" pieces).
  { destruct (join "&" pieces) as [|c r] eqn:E; [reflexivity|].
    destruct (Ascii.eqb c "?") eqn:Ec.
    - apply Ascii.eqb_eq in Ec. subst c. exfalso.
      inversion Hplain as [|? ? [Hk _] _]; subst.
      unfold pieces in E. cbn [map fst snd] in E.
      exact (form_head _ _ _ Hk E).
    - destruct c as [[] [] [] [] [] [] [] []]; try reflexivity;
        discriminate Ec. }
  rewrite Hinput.
  unfold pieces at 1. cbn [map]. rewrite split_at_join.
  2:{ fold (map (fun kv => fst kv ++ "=" ++ snd kv) pairs).
      change ((fst (k, v) ++ "=" ++ snd (k, v))
              :: map (fun kv => fst kv ++ "=" ++ snd kv) pairs) with pieces.
      eapply Forall_impl; [|exact Hpieces]. now intros x [Hx _]. }
  change ((fst (k, v) ++ "=" ++ snd (k, v))
          :: map (fun kv => fst kv ++ "=" ++ snd kv) pairs) with pieces.
  assert (Hkeep : filter (fun piece => negb (piece =? "")) pieces = pieces).
  { clear Hinput. induction Hpieces as [|x xs [_ Hx] Hxs IH]; [reflexivity|].
    simpl. rewrite Hx. cbn [negb]. now rewrite IH. }
  rewrite Hkeep. unfold pieces. rewrite map_map.
  clear - Hplain.
  induction Hplain as [|[j x] rest [Hj Hx] Hrest IH]; [reflexivity|].
  cbn [map fst snd]. rewrite piece_plain by assumption. now rewrite IH.
Qed.

Lemma form_reads_back_witness :
  url_search_params (form_of [("email", "a.b-c"); ("utm_source", "ads_1")])
  = [("email", "a.b-c"); ("utm_source", "ads_1")].
Proof.
  apply (@form_reads_back [("email", "a.b-c"); ("utm_source", "ads_1")]).
  repeat constructor.
Defined.

End FormTexts.

(** ** Failures after the object store *)

Section SilentFailures.
Import Js Submit.
Local Open Scope js_scope.

Variables (env : Env) (sdk : sdk_load) (rt : Runtime) (w w' : World).

Lemma guarded_send (c : call) (t : list call) :
  try_catch (send w c) (ret tt) t = try_catch (send w' c) (ret tt) t.
Proof.
  unfold try_catch, send, ret.
  destruct (rejects w c), (rejects w' c); reflexivity.
Qed.

Lemma guarded_lift {A} (o : outcome A) (f f' : A -> io unit) (t : list call) :
  (forall a t0, try_catch (f a) (ret tt) t0 = try_catch (f' a) (ret tt) t0) ->
  try_catch (bind (lift o) f) (ret tt) t
  = try_catch (bind (lift o) f') (ret tt) t.
Proof.
  intros H. destruct o as [a|]; [|reflexivity].
  exact (H a t).
Qed.

Lemma guarded_fetch url headers text (t : list call) :
  try_catch (fetch rt w url headers text) (ret tt) t
  = try_catch (fetch rt w' url headers text) (ret tt) t.
Proof.
  unfold fetch. destruct (has_fetch rt); [apply guarded_send | reflexivity].
Qed.

Lemma index_any_world (payload : value) (doc : props) (key : string)
    (t : list call) :
  index env sdk w payload doc key t = index env sdk w' payload doc key t.
Proof.
  unfold index. destruct (_ && _ && _)%bool; [|reflexivity].
  apply guarded_lift. intros record t0. apply guarded_send.
Qed.

Lemma notify_any_world (payload status : value) (doc : props) (key : string)
    (t : list call) :
  notify env sdk w payload status doc key t
  = notify env sdk w' payload status doc key t.
Proof.
  unfold notify. destruct (_ && _ && _ && _ && _)%bool; [|reflexivity].
  apply guarded_lift. intros subject t0.
  apply guarded_lift. intros text t1. apply guarded_send.
Qed.

Lemma hubspot_any_world email first last phone company annual country
    (t : list call) :
  try_catch (hubspot env rt w email first last phone company annual country)
    (ret tt) t
  = try_catch (hubspot env rt w' email first last phone company annual country)
      (ret tt) t.
Proof.
  unfold hubspot.
  apply guarded_lift. intros properties t0.
  apply guarded_lift. intros text t1. apply guarded_fetch.
Qed.

Lemma close_any_world payload email first last phone company
    (t : list call) :
  try_catch (close env rt w payload email first last phone company) (ret tt) t
  = try_catch (close env rt w' payload email first last phone company)
      (ret tt) t.
Proof.
  unfold close.
  apply guarded_lift. intros full t0.
  apply guarded_lift. intros name t1.
  apply guarded_lift. intros contact_name t2.
  apply guarded_lift. intros source t3.
  apply guarded_lift. intros text t4. apply guarded_fetch.
Qed.

Lemma bind_same {A B} (m m' : io A) (f f' : A -> io B) (t : list call) :
  m t = m' t -> (forall a t0, f a t0 = f' a t0) -> bind m f t = bind m' f' t.
Proof.
  intros Hm Hf. unfold bind. rewrite Hm.
  destruct (m' t) as [[a|] t0]; [apply Hf | reflexivity].
Qed.

Lemma crm_any_world (payload status : value) (t : list call) :
  crm env rt w payload status t = crm env rt w' payload status t.
Proof.
  unfold crm. destruct (is_final status); [|reflexivity].
  repeat (apply bind_same; [reflexivity|]; intros ? ?).
  apply bind_same.
  - destruct (set (HUBSPOT_TOKEN env)); [apply hubspot_any_world | reflexivity].
  - intros _ ?.
    destruct (set (CLOSE_API_KEY env)); [apply close_any_world | reflexivity].
Qed.

Lemma store_same_world (payload status : value) (doc : props)
    (t : list call) :
  (forall region bucket key text,
     rejects w (S3Put region bucket key text)
     = rejects w' (S3Put region bucket key text)) ->
  store env sdk rt w payload status doc t
  = store env sdk rt w' payload status doc t.
Proof.
  intros H. unfold store. destruct (_ && _ && _)%bool; [|reflexivity].
  unfold try_catch, bind, lift, send, ret.
  destruct (derive_key env rt payload status doc) as [key|]; [|reflexivity].
  destruct (some_text _) as [text|]; [|reflexivity].
  rewrite H. reflexivity.
Qed.

(** X26.  Failures after the object store are silent.  Whether the index
    table, the mail service, HubSpot or Close accept or reject what they
    are sent changes neither the answer of the ingestion nor the calls it
    makes: two worlds that agree on the writes to the object store give
    the same run. *)
Theorem later_failures_are_silent (req : Request)
    (Hstore : forall region bucket key text,
        rejects w (S3Put region bucket key text)
        = rejects w' (S3Put region bucket key text)) :
  Submit.run env sdk rt w req = Submit.run env sdk rt w' req.
Proof.
  unfold Submit.run, handler.
  destruct (method req =? "OPTIONS"); [reflexivity|].
  destruct (negb (method req =? "POST")); [reflexivity|].
  repeat (apply bind_same; [reflexivity|]; intros ? ?).
  apply bind_same; [now apply store_same_world|]. intros stored_key ?.
  apply bind_same; [apply index_any_world|]. intros _ ?.
  apply bind_same; [apply notify_any_world|]. intros _ ?.
  apply bind_same; [apply crm_any_world|]. intros _ ?.
  reflexivity.
Qed.

End SilentFailures.

Lemma later_failures_are_silent_witness :
  Submit.run full_env AllSdk sample_runtime silent_world (post lead)
  = Submit.run full_env AllSdk sample_runtime sinks_down (post lead).
Proof.
  apply (@later_failures_are_silent full_env AllSdk sample_runtime
           silent_world sinks_down (post lead)).
  reflexivity.
Defined.

(** ** The limit of a listing *)

Section LimitParameter.
Import Text Js Json Admin.

Lemma strip_one_number (c : ascii) (r : string) :
  (is_digit c || Ascii.eqb c "-")%bool = true ->
  strip_one white_space (String c r) = None.
Proof.
  destruct c as [[] [] [] [] [] [] [] []]; intros H; try discriminate H;
    reflexivity.
Qed.

Lemma trimStart_number (c : ascii) (r : string) :
  (is_digit c || Ascii.eqb c "-")%bool = true ->
  trimStart (String c r) = String c r.
Proof.
  intros H. unfold trimStart. cbn [String.length strip_many].
  rewrite strip_one_number by exact H. reflexivity.
Qed.

Lemma uint_head (d : Decimal.uint) :
  d <> Decimal.Nil ->
  exists c r, NilEmpty.string_of_uint d = String c r
              /\ is_digit c = true.
Proof.
  destruct d; intros H; try (exfalso; apply H; reflexivity);
    cbn [NilEmpty.string_of_uint]; eexists; eexists; split;
    reflexivity.
Qed.

Lemma uint_not_empty (d : Decimal.uint) :
  d <> Decimal.Nil -> (NilEmpty.string_of_uint d =? "") = false.
Proof.
  intros H. destruct (uint_head H) as (c & r & -> & _). reflexivity.
Qed.

Lemma parseInt_digits (d : Decimal.uint) (rest : string) :
  d <> Decimal.Nil -> Spec.no_digit rest ->
  parseInt (NilEmpty.string_of_uint d ++ rest) = Some (Z.of_uint d).
Proof.
  intros Hd Hrest. unfold parseInt.
  pose proof (@span_digits_uint d rest Hrest) as Hspan.
  pose proof (@uint_not_empty d Hd) as Hne.
  destruct (uint_head Hd) as (c & r & E & Hc).
  rewrite E in Hspan |- *. cbn [append] in Hspan |- *.
  rewrite trimStart_number by (rewrite Hc; reflexivity).
  assert (Hhead : (let '(negative, s2) :=
             match String c (r ++ rest) with
             | String "-" r0 => (true, r0)
             | String "+" r0 => (false, r0)
             | _ => (false, String c (r ++ rest))
             end in
           let (d0, _) := span_digits s2 in
           if d0 =? "" then None
           else Some (if negative then - Z_of_digits d0 else Z_of_digits d0)%Z)
          = (let (d0, _) := span_digits (String c (r ++ rest)) in
             if d0 =? "" then None else Some (Z_of_digits d0))).
  { destruct c as [[] [] [] [] [] [] [] []]; try discriminate Hc;
      reflexivity. }
  rewrite Hhead, Hspan, <- E, Hne, Z_of_digits_uint. reflexivity.
Qed.

Lemma parseInt_negative (d : Decimal.uint) (rest : string) :
  d <> Decimal.Nil -> Spec.no_digit rest ->
  parseInt (String "-" (NilEmpty.string_of_uint d ++ rest))
  = Some (- Z.of_uint d)%Z.
Proof.
  intros Hd Hrest. unfold parseInt.
  rewrite trimStart_number by reflexivity.
  cbv beta iota.
  rewrite span_digits_uint by exact Hrest.
  rewrite uint_not_empty by exact Hd.
  rewrite Z_of_digits_uint. reflexivity.
Qed.

(** X27.  The limit parameter is read as [parseInt] reads it.  A limit
    that starts with decimal digits, after an optional minus sign, counts
    for the number those digits write, whatever text follows them; zero
    counts for fifty, and the result is capped at two hundred from above
    only, so a negative limit is passed on as it is.  The digits write an
    integer of at most 2^53, which the runtime's number holds exactly. *)
Theorem limit_reads_number (req : Request) (negative : bool)
    (d : Decimal.uint) (rest : string)
    (Hlimit : get "limit" (query req)
              = Some ((if negative then "-" else "")
                      ++ NilEmpty.string_of_uint d ++ rest))
    (Hdigits : d <> Decimal.Nil)
    (Hrest : Spec.no_digit rest)
    (Hsafe : (Z.of_uint d <= 2 ^ 53)%Z) :
  limit_of req
  = (if (Z.of_uint d =? 0)%Z then 50
     else if negative then - Z.of_uint d
     else Z.min (Z.of_uint d) 200)%Z.
Proof.
  unfold limit_of. rewrite Hlimit.
  assert (Hor : or_default
                  (Some ((if negative then "-" else "")
                         ++ NilEmpty.string_of_uint d ++ rest)) "50"
                = (if negative then "-" else "")
                  ++ NilEmpty.string_of_uint d ++ rest).
  { destruct (uint_head Hdigits) as (c & r & -> & _).
    destruct negative; reflexivity. }
  rewrite Hor.
  assert (Hpos : (0 <= Z.of_uint d)%Z)
    by (unfold Z.of_uint; apply N2Z.is_nonneg).
  destruct negative; cbn [append].
  - rewrite parseInt_negative by assumption.
    destruct (Z.of_uint d =? 0)%Z eqn:E0.
    + apply Z.eqb_eq in E0. rewrite E0. reflexivity.
    + apply Z.eqb_neq in E0.
      destruct (- Z.of_uint d =? 0)%Z eqn:E1;
        [apply Z.eqb_eq in E1; lia|].
      apply Z.min_l. lia.
  - rewrite parseInt_digits by assumption.
    destruct (Z.of_uint d =? 0)%Z; reflexivity.
Qed.

End LimitParameter.

Lemma limit_reads_number_witness :
  Admin.limit_of (list_request [("limit", "-5 rows")]) = (-5)%Z.
Proof.
  apply (@limit_reads_number (list_request [("limit", "-5 rows")]) true
           (Decimal.D5 Decimal.Nil) " rows").
  - reflexivity.
  - discriminate.
  - reflexivity.
  - vm_compute. discriminate.
Defined.

(** ** The document behind the index record and the storage key *)

Section BuiltDocument.
Import Js Submit.
Local Open Scope js_scope.




End BuiltDocument.

(** ** The secondary-index record of a POST *)

Section IndexRecordOfPost.
Import Js Submit.
Local Open Scope js_scope.




(** Nor is every value a string: [id] and [received_at] are copied
    without conversion, so a body that sets them to [null] gets a record
    that holds [null] under both. *)
Example null_id_reaches_record :
  Spec.index_puts
    (snd (Submit.run full_env AllSdk sample_runtime silent_world (post nulled)))
  = [nulled_record]
  /\ lookup "id" nulled_record = Some VNull
  /\ lookup "received_at" nulled_record = Some VNull.
Proof. repeat split; vm_compute; reflexivity. Qed.

End IndexRecordOfPost.

(** ** The key of a stored object *)

Section StorageKeyOfPost.
Import Js Submit.
Local Open Scope js_scope.




End StorageKeyOfPost.
